(** * esp32-server: the expiring weather cache and the tool-call dispatcher

    A shallow embedding of
      - [core/utils/weather_cache.py]   (class [WeatherCachePool]) and
      - [core/handle/functionHandler.py] (class [FunctionHandler]),
    followed by the properties of the design document that concern them.

    Conventions of the embedding.
      - A Python [dict] is an insertion-ordered association list with
        pairwise distinct keys ([PyDict]).
      - [time.time()] is a rational number of seconds; every operation reads
        the clock once ([Clock]), and [datetime.now().strftime(...)] is the
        second component of that reading.  Timestamps are compared and a TTL
        is added to a timestamp exactly; the arithmetic of the refresh hint
        and of the hit rates, whose results depend on it, rounds every
        operation to the nearest double ([PyFloat]).
      - A method that mutates [self] is a function from the old pool to the
        new pool; a method that also returns a value returns a pair.
      - A Python exception is the [Raise] case of the [outcome] type. *)

From Stdlib Require Import List String Ascii Bool Arith ZArith QArith Lia Lqa.
From Stdlib Require Import Qround Qpower.
From Stdlib Require Import Sorting.Sorted Sorting.Permutation.
Import ListNotations.

Set Implicit Arguments.
Set Warnings "-register-all".

(* ================================================================== *)
(** * Part I: definitions *)
(* ================================================================== *)

(** ** Python dictionaries *)

Module PyDict.

Definition dict (V : Type) : Type := list (string * V).

Definition keys {V} (d : dict V) : list string := map fst d.

Definition len {V} (d : dict V) : nat := List.length d.

(** [d.get(k)] / [d[k]] *)
Fixpoint get {V} (k : string) (d : dict V) : option V :=
  match d with
  | [] => None
  | (k', v) :: d' => if String.eqb k k' then Some v else get k d'
  end.

(** [d[k] = v]: an existing key keeps its position, a new key goes last. *)
Fixpoint set {V} (k : string) (v : V) (d : dict V) : dict V :=
  match d with
  | [] => [(k, v)]
  | (k', v') :: d' =>
      if String.eqb k k' then (k, v) :: d' else (k', v') :: set k v d'
  end.

(** [d.pop(k, None)], and [del d[k]] where the key is known to be present. *)
Definition pop {V} (k : string) (d : dict V) : dict V :=
  filter (fun kv => negb (String.eqb k (fst kv))) d.

(** [d.update(other)] for a dictionary [other]. *)
Definition update {V} (d other : dict V) : dict V :=
  fold_left (fun acc kv => set (fst kv) (snd kv) acc) other d.

(** Representation invariant of a dictionary. *)
Definition wf {V} (d : dict V) : Prop := NoDup (keys d).

End PyDict.

(** ** Python list helpers *)

(** [l[:n]] for an integer [n] (a negative [n] counts from the end). *)
Definition slice_to {A} (n : Z) (l : list A) : list A :=
  if (0 <=? n)%Z then firstn (Z.to_nat n) l
  else firstn (List.length l - Z.to_nat (- n)) l.

(** [sorted(l, key=key)]: Python's sort is stable, and so is this insertion
    sort: an element, which precedes the already sorted rest in the input,
    goes before the first element of the rest that is not smaller. *)
Fixpoint insert_sorted {A} (key : A -> Q) (x : A) (l : list A) : list A :=
  match l with
  | [] => [x]
  | y :: l' =>
      if Qle_bool (key x) (key y) then x :: y :: l'
      else y :: insert_sorted key x l'
  end.

Fixpoint sorted {A} (key : A -> Q) (l : list A) : list A :=
  match l with
  | [] => []
  | x :: l' => insert_sorted key x (sorted key l')
  end.

(** The order in which [sorted] leaves its result. *)
Definition key_le {A} (key : A -> Q) (x y : A) : Prop := key x <= key y.

(** [x in l] for a list of strings. *)
Definition list_mem (x : string) (l : list string) : bool :=
  existsb (String.eqb x) l.

(** [key.startswith(p)] *)
Definition startswith (key p : string) : bool := String.prefix p key.

(** ** Python floats *)

(** A Python [float] is an IEEE 754 double.  A finite double is the rational
    that it denotes, and an arithmetic operation returns the exact result
    rounded to the nearest double, ties to the even significand.  The
    exponent range is not bounded: overflow to infinity and gradual
    underflow, which no quantity of the cache comes near, are outside the
    model. *)
Module PyFloat.

(** The nearest integer, ties to even. *)
Definition rne (x : Q) : Z :=
  let f := Qfloor x in
  match Qcompare (x - inject_Z f) (1#2) with
  | Lt => f
  | Gt => (f + 1)%Z
  | Eq => if Z.even f then f else (f + 1)%Z
  end.

(** For [0 < x]: the exponent [e] with [2^e <= x < 2^(e+1)]. *)
Definition binade (x : Q) : Z :=
  let e0 := (Z.log2 (Qnum x) - Z.log2 (Zpos (Qden x)))%Z in
  if Qle_bool (2 ^ e0) x then e0 else (e0 - 1)%Z.

(** For [0 < x]: the nearest multiple of [2^(e-52)], a significand of 53
    bits. *)
Definition round_pos (x : Q) : Q :=
  let u := 2 ^ (binade x - 52) in
  inject_Z (rne (x / u)) * u.

(** The double nearest to [x]; a decimal literal [0.8] is [round (8#10)]. *)
Definition round (x : Q) : Q :=
  match Qnum x with
  | Z0 => 0
  | Zpos _ => round_pos x
  | Zneg _ => - round_pos (- x)
  end.

Definition sub (x y : Q) : Q := round (x - y).
Definition mul (x y : Q) : Q := round (x * y).
Definition div (x y : Q) : Q := round (x / y).

End PyFloat.

(** ** The cache pool ([core/utils/weather_cache.py]) *)

Module WeatherCache.
Import PyDict.

(** One reading of the wall clock: [time.time()] and the two renderings of
    [datetime.now()] that the key derivation uses. *)
Record Clock : Type := mkClock {
  time_time : Q;
  strftime_hour : string;   (* now.strftime("%Y%m%d_%H") *)
  strftime_day : string     (* now.strftime("%Y%m%d") *)
}.

Record CacheConfig : Type := mkConfig {
  weather_cache_ttl : Q;
  city_cache_ttl : Q;
  max_cache_size : Z;
  enable_async_refresh : bool
}.

(** The default configuration of [get_weather_cache_pool]. *)
Definition default_config : CacheConfig :=
  mkConfig 3600 86400 50 true.

Record Stats : Type := mkStats {
  weather_hits : nat;
  weather_misses : nat;
  city_hits : nat;
  city_misses : nat;
  evictions : nat
}.

Section Pool.
Variable Data : Type.

Record CacheEntry : Type := mkEntry {
  data : Data;
  created_at : Q;
  expires_at : Q;
  location : string
}.

Record WeatherCachePool : Type := mkPool {
  _weather_cache : dict CacheEntry;
  _city_cache : dict CacheEntry;
  _access_order : dict Q;
  _stats : Stats
}.

(** [__init__] *)
Definition init : WeatherCachePool :=
  mkPool [] [] [] (mkStats 0 0 0 0 0).

Definition with_weather (f : dict CacheEntry -> dict CacheEntry)
    (p : WeatherCachePool) : WeatherCachePool :=
  mkPool (f (_weather_cache p)) (_city_cache p) (_access_order p) (_stats p).

Definition with_city (f : dict CacheEntry -> dict CacheEntry)
    (p : WeatherCachePool) : WeatherCachePool :=
  mkPool (_weather_cache p) (f (_city_cache p)) (_access_order p) (_stats p).

Definition with_access (f : dict Q -> dict Q)
    (p : WeatherCachePool) : WeatherCachePool :=
  mkPool (_weather_cache p) (_city_cache p) (f (_access_order p)) (_stats p).

Definition with_stats (f : Stats -> Stats)
    (p : WeatherCachePool) : WeatherCachePool :=
  mkPool (_weather_cache p) (_city_cache p) (_access_order p) (f (_stats p)).

Definition incr_weather_hits (s : Stats) : Stats :=
  mkStats (S (weather_hits s)) (weather_misses s) (city_hits s)
          (city_misses s) (evictions s).
Definition incr_weather_misses (s : Stats) : Stats :=
  mkStats (weather_hits s) (S (weather_misses s)) (city_hits s)
          (city_misses s) (evictions s).
Definition incr_city_hits (s : Stats) : Stats :=
  mkStats (weather_hits s) (weather_misses s) (S (city_hits s))
          (city_misses s) (evictions s).
Definition incr_city_misses (s : Stats) : Stats :=
  mkStats (weather_hits s) (weather_misses s) (city_hits s)
          (S (city_misses s)) (evictions s).
Definition incr_evictions (s : Stats) : Stats :=
  mkStats (weather_hits s) (weather_misses s) (city_hits s)
          (city_misses s) (S (evictions s)).

Definition _generate_weather_key (clk : Clock) (loc : string)
    (hour_precision : bool) : string :=
  let time_key :=
    if hour_precision then strftime_hour clk else strftime_day clk in
  ("weather_" ++ loc ++ "_" ++ time_key)%string.

Definition _generate_city_key (loc : string) : string :=
  ("city_" ++ loc)%string.

(** [time.time() > cache_entry["expires_at"]] *)
Definition _is_expired (clk : Clock) (cache_entry : CacheEntry) : bool :=
  negb (Qle_bool (time_time clk) (expires_at cache_entry)).

(** The two differences, [1 - refresh_threshold] and the product are float
    operations. *)
Definition _need_refresh (cfg : CacheConfig) (clk : Clock)
    (cache_entry : CacheEntry) (refresh_threshold : Q) : bool :=
  if negb (enable_async_refresh cfg) then false
  else
    let total_ttl :=
      PyFloat.sub (expires_at cache_entry) (created_at cache_entry) in
    let remaining_ttl :=
      PyFloat.sub (expires_at cache_entry) (time_time clk) in
    negb (Qle_bool
            (PyFloat.mul total_ttl (PyFloat.sub 1 refresh_threshold))
            remaining_ttl).

(** One iteration of the loop of [_evict_lru]. *)
Definition evict_key (p : WeatherCachePool) (key : string)
    : WeatherCachePool :=
  let p1 :=
    if startswith key "weather_" then with_weather (pop key) p
    else if startswith key "city_" then with_city (pop key) p
    else p in
  with_stats incr_evictions (with_access (pop key) p1).

Definition total_entries (p : WeatherCachePool) : Z :=
  Z.of_nat (len (_weather_cache p) + len (_city_cache p)).

Definition _evict_lru (cfg : CacheConfig) (p : WeatherCachePool)
    : WeatherCachePool :=
  if (total_entries p <? max_cache_size cfg)%Z then p
  else
    let sorted_access := sorted snd (_access_order p) in
    fold_left evict_key
      (map fst
         (slice_to (total_entries p - max_cache_size cfg + 1) sorted_access))
      p.

Definition get_weather_data (clk : Clock) (loc : string)
    (p : WeatherCachePool) : option Data * WeatherCachePool :=
  let cache_key := _generate_weather_key clk loc true in
  match get cache_key (_weather_cache p) with
  | Some cache_entry =>
      if negb (_is_expired clk cache_entry) then
        (Some (data cache_entry),
         with_stats incr_weather_hits
           (with_access (set cache_key (time_time clk)) p))
      else
        (None,
         with_stats incr_weather_misses
           (with_access (pop cache_key)
              (with_weather (pop cache_key) p)))
  | None => (None, with_stats incr_weather_misses p)
  end.

(** The two assignments of [set_weather_data], before the eviction. *)
Definition store_weather (cfg : CacheConfig) (clk : Clock)
    (loc : string) (weather_data : Data) (p : WeatherCachePool)
    : WeatherCachePool :=
  let cache_key := _generate_weather_key clk loc true in
  let current_time := time_time clk in
  let cache_entry :=
    mkEntry weather_data current_time
            (current_time + weather_cache_ttl cfg) loc in
  with_access (set cache_key current_time)
    (with_weather (set cache_key cache_entry) p).

Definition set_weather_data (cfg : CacheConfig) (clk : Clock)
    (loc : string) (weather_data : Data) (p : WeatherCachePool)
    : WeatherCachePool :=
  _evict_lru cfg (store_weather cfg clk loc weather_data p).

Definition get_city_info (clk : Clock) (loc : string)
    (p : WeatherCachePool) : option Data * WeatherCachePool :=
  let cache_key := _generate_city_key loc in
  match get cache_key (_city_cache p) with
  | Some cache_entry =>
      if negb (_is_expired clk cache_entry) then
        (Some (data cache_entry),
         with_stats incr_city_hits
           (with_access (set cache_key (time_time clk)) p))
      else
        (None,
         with_stats incr_city_misses
           (with_access (pop cache_key)
              (with_city (pop cache_key) p)))
  | None => (None, with_stats incr_city_misses p)
  end.

(** The two assignments of [set_city_info], before the eviction. *)
Definition store_city (cfg : CacheConfig) (clk : Clock)
    (loc : string) (city_info : Data) (p : WeatherCachePool)
    : WeatherCachePool :=
  let cache_key := _generate_city_key loc in
  let current_time := time_time clk in
  let cache_entry :=
    mkEntry city_info current_time
            (current_time + city_cache_ttl cfg) loc in
  with_access (set cache_key current_time)
    (with_city (set cache_key cache_entry) p).

Definition set_city_info (cfg : CacheConfig) (clk : Clock)
    (loc : string) (city_info : Data) (p : WeatherCachePool)
    : WeatherCachePool :=
  _evict_lru cfg (store_city cfg clk loc city_info p).

Definition clear_cache (p : WeatherCachePool) : WeatherCachePool :=
  mkPool [] [] [] (_stats p).

(** The keys selected by the two list comprehensions of [clean_expired]. *)
Definition expired_keys (current_time : Q) (d : dict CacheEntry)
    : list string :=
  map fst
    (filter (fun kv => negb (Qle_bool current_time (expires_at (snd kv)))) d).

Definition clean_expired (clk : Clock) (p : WeatherCachePool)
    : WeatherCachePool :=
  let current_time := time_time clk in
  let p1 :=
    fold_left
      (fun q key => with_access (pop key) (with_weather (pop key) q))
      (expired_keys current_time (_weather_cache p)) p in
  fold_left
    (fun q key => with_access (pop key) (with_city (pop key) q))
    (expired_keys current_time (_city_cache p1)) p1.

(** *** Well-formed pools and the pools that the operations produce *)

(** The keys of the two stores are told apart by their prefixes, every
    dictionary has distinct keys, and the access index covers exactly
    the stored entries. *)
Record pool_inv (p : WeatherCachePool) : Prop := mkInv {
  inv_weather_wf : wf (_weather_cache p);
  inv_city_wf : wf (_city_cache p);
  inv_access_wf : wf (_access_order p);
  inv_weather_prefix :
    forall k, In k (keys (_weather_cache p)) -> startswith k "weather_" = true;
  inv_city_prefix :
    forall k, In k (keys (_city_cache p)) -> startswith k "city_" = true;
  inv_index :
    forall k, In k (keys (_access_order p)) <->
              In k (keys (_weather_cache p)) \/ In k (keys (_city_cache p))
}.

(** The pools reachable from a fresh pool by the public operations (and
    by the eviction that the two setters trigger). *)
Inductive reachable (cfg : CacheConfig) : WeatherCachePool -> Prop :=
| reach_init : reachable cfg init
| reach_set_weather clk loc d p :
    reachable cfg p -> reachable cfg (set_weather_data cfg clk loc d p)
| reach_set_city clk loc d p :
    reachable cfg p -> reachable cfg (set_city_info cfg clk loc d p)
| reach_get_weather clk loc p :
    reachable cfg p -> reachable cfg (snd (get_weather_data clk loc p))
| reach_get_city clk loc p :
    reachable cfg p -> reachable cfg (snd (get_city_info clk loc p))
| reach_evict p :
    reachable cfg p -> reachable cfg (_evict_lru cfg p)
| reach_clear p :
    reachable cfg p -> reachable cfg (clear_cache p)
| reach_clean clk p :
    reachable cfg p -> reachable cfg (clean_expired clk p).

(** An eviction that starts in pool [q] and ends in pool [q'], where
    [count] is the number of entries of the two stores of [q]: below capacity
    nothing changes; at or above capacity the victims are the first
    [victims_count count capacity] records of the index in ascending order
    of timestamp, they leave the two stores and the index, and the eviction
    counter grows by one per victim. *)
Definition evicts (victims_count : Z -> Z -> Z) (cfg : CacheConfig)
    (q q' : WeatherCachePool) : Prop :=
  let count := Z.of_nat (len (_weather_cache q) + len (_city_cache q)) in
  let capacity := max_cache_size cfg in
  ((count < capacity)%Z -> q' = q) /\
  ((capacity <= count)%Z ->
   exists victims survivors : list (string * Q),
     Permutation (victims ++ survivors) (_access_order q) /\
     StronglySorted (fun x y => snd x <= snd y) (victims ++ survivors) /\
     Z.of_nat (List.length victims) = victims_count count capacity /\
     (forall k, get k (_weather_cache q') =
                if list_mem k (map fst victims) then None
                else get k (_weather_cache q)) /\
     (forall k, get k (_city_cache q') =
                if list_mem k (map fst victims) then None
                else get k (_city_cache q)) /\
     (forall k, get k (_access_order q') =
                if list_mem k (map fst victims) then None
                else get k (_access_order q)) /\
     evictions (_stats q') = (evictions (_stats q) + List.length victims)%nat /\
     Z.of_nat (len (_weather_cache q') + len (_city_cache q'))
       = (count - Z.of_nat (List.length victims))%Z).

(** What the design document asks of an eviction: the oldest
    [count - capacity + 1] records are the victims. *)
Definition evicts_oldest : CacheConfig -> WeatherCachePool -> WeatherCachePool
    -> Prop :=
  evicts (fun count capacity => count - capacity + 1)%Z.

(** The same with as many victims as the index can give: the slice
    [sorted_access[:count - capacity + 1]] is the whole index when the
    capacity is zero or negative. *)
Definition evicts_oldest_available
    : CacheConfig -> WeatherCachePool -> WeatherCachePool -> Prop :=
  evicts (fun count capacity => Z.min (count - capacity + 1) count).

End Pool.

(** *** The log line that closes the two setters *)

(** The last statement of [set_weather_data] and of [set_city_info] logs
    [datetime.fromtimestamp(cache_entry['expires_at'])], which raises for a
    timestamp outside the range that the platform supports.  By then the
    entry is stored and the eviction has run, so the pool after the call is
    the one that [set_weather_data] and [set_city_info] compute; the call
    returns normally exactly when the timestamp is accepted.
    [fromtimestamp_ok] tells which timestamps the platform accepts. *)
Definition set_weather_data_returns (fromtimestamp_ok : Q -> bool)
    (cfg : CacheConfig) (clk : Clock) : bool :=
  fromtimestamp_ok (time_time clk + weather_cache_ttl cfg).

Definition set_city_info_returns (fromtimestamp_ok : Q -> bool)
    (cfg : CacheConfig) (clk : Clock) : bool :=
  fromtimestamp_ok (time_time clk + city_cache_ttl cfg).

(** *** Sample clocks and configurations *)

(** A clock reading [t] seconds into the first hour of 1 January 1970, and
    one in the second hour. *)
Definition clock_h0 (t : Q) : Clock := mkClock t "19700101_00" "19700101".
Definition clock_h1 (t : Q) : Clock := mkClock t "19700101_01" "19700101".


(** The default configuration with another capacity or weather TTL. *)
Definition config_capacity (n : Z) : CacheConfig := mkConfig 3600 86400 n true.
Definition config_weather_ttl (ttl : Q) : CacheConfig :=
  mkConfig ttl 86400 50 true.

(** A pool of capacity 2 after one, two and three insertions, one second
    apart, within one clock hour. *)
Definition pool_A : WeatherCachePool string :=
  set_weather_data (config_capacity 2) (clock_h0 1) "A" "a"%string (init string).
Definition pool_AB : WeatherCachePool string :=
  set_weather_data (config_capacity 2) (clock_h0 2) "B" "b"%string pool_A.
Definition pool_ABC : WeatherCachePool string :=
  set_weather_data (config_capacity 2) (clock_h0 3) "C" "c"%string pool_AB.

(** A pool with the default capacity holding one weather entry and one city
    entry for the same place. *)
Definition pool_paris : WeatherCachePool string :=
  set_city_info default_config (clock_h0 20) "Paris" "FR"%string
    (set_weather_data default_config (clock_h0 10) "Paris" "sunny"%string
       (init string)).

End WeatherCache.

(** ** Python strings *)

(** [p in s] for strings: [p] occurs in [s] as a contiguous substring. *)
Fixpoint contains (p s : string) : bool :=
  String.prefix p s ||
  match s with
  | EmptyString => false
  | String _ s' => contains p s'
  end.

(** [s.replace(old, new)]: every non-overlapping occurrence, leftmost first.
    [skip] counts the characters of a match that remain to be dropped. *)
Fixpoint str_replace_from (skip : nat) (old new s : string) : string :=
  match s with
  | EmptyString =>
      match old with EmptyString => new | _ => EmptyString end
  | String c s' =>
      match skip with
      | S k => str_replace_from k old new s'
      | O =>
          match old with
          | EmptyString => (new ++ String c (str_replace_from 0 old new s'))%string
          | String _ old' =>
              if String.prefix old s
              then (new ++ str_replace_from (String.length old') old new s')%string
              else String c (str_replace_from 0 old new s')
          end
      end
  end.

Definition str_replace (s old new : string) : string :=
  str_replace_from 0 old new s.

(** [sep.join(l)] *)
Fixpoint join (sep : string) (l : list string) : string :=
  match l with
  | [] => EmptyString
  | [x] => x
  | x :: rest => (x ++ sep ++ join sep rest)%string
  end.

(** The double quote, and a way to write a payload with ['] in its place. *)
Definition dquote : ascii := ascii_of_nat 34.

Fixpoint js (s : string) : string :=
  match s with
  | EmptyString => EmptyString
  | String c s' => String (if Ascii.eqb c "'" then dquote else c) (js s')
  end.

(** [c in s] for a character. *)
Fixpoint occurs (c : ascii) (s : string) : bool :=
  match s with
  | EmptyString => false
  | String c' s' => Ascii.eqb c c' || occurs c s'
  end.

(** The placeholder in the description of [plugin_loader]. *)
Definition token : string := "[plugins]".

(** Truth value of a string: only the empty string is falsy. *)
Definition truthy (s : string) : bool :=
  match s with EmptyString => false | _ => true end.

(** A Python [str] is held as its UTF-8 encoding.  Its characters are the
    code points: a lead byte with the continuation bytes ([10xxxxxx]) that
    follow it.  Searching, replacing and concatenating give the same result
    on the encoding as on the code points. *)
Definition is_continuation (c : ascii) : bool :=
  match c with Ascii _ _ _ _ _ _ b6 b7 => b7 && negb b6 end.

Definition continues (s : string) : bool :=
  match s with
  | String c _ => is_continuation c
  | EmptyString => false
  end.

(** [list(s)]: the characters of a string. *)
Fixpoint code_points (s : string) : list string :=
  match s with
  | EmptyString => []
  | String c s' =>
      match code_points s' with
      | p :: ps =>
          if continues s' then String c p :: ps
          else String c EmptyString :: p :: ps
      | [] => [String c EmptyString]
      end
  end.

(** ** Exceptions and logging *)

(** The subclasses of [Exception] that the dispatcher can meet.
    [KeyboardInterrupt] and [SystemExit], which do not derive from
    [Exception], are outside the model. *)
Inductive exn : Type :=
| JSONDecodeError (doc : string)      (* raised by [json.loads] *)
| TypeError
| ValueError
| RecursionError
| CapabilityError (msg : string).     (* raised inside a capability *)

(** The exceptions that [except json.JSONDecodeError] catches.
    [JSONDecodeError] derives from [ValueError]; a plain [ValueError] is
    not caught. *)
Definition is_decode_error (e : exn) : bool :=
  match e with
  | JSONDecodeError _ => true
  | _ => false
  end.

Inductive outcome (A : Type) : Type :=
| Ok (a : A)
| Raise (e : exn).
Arguments Ok {A} a.
Arguments Raise {A} e.

Inductive Level : Type := DEBUG | INFO | WARNING | ERROR.

(** ** The dispatcher ([core/handle/functionHandler.py]) *)

Module FunctionHandler.
Import PyDict.

(** *** Values produced by [json.loads] *)

(** A character is an [ascii]; a JSON number is an integer or a finite
    rational (the non-finite floats that [json.loads] accepts are outside
    the model). *)
Inductive pyvalue : Type :=
| VNone
| VBool (b : bool)
| VInt (z : Z)
| VFloat (q : Q)
| VStr (s : string)
| VList (l : list pyvalue)
| VDict (d : list (string * pyvalue)).

(** The accumulator [merged_args]: a dictionary whose string-keyed items are
    kept in order; keys of another type, which only the sequence form of
    [dict.update] can insert and which never collide with a string key,
    are remembered as present. *)
Record ArgDict : Type := mkArgDict {
  str_items : dict pyvalue;
  other_keys : bool
}.

Definition empty_args : ArgDict := mkArgDict [] false.

(** [d[k] = v] for an arbitrary key: lists and dictionaries are unhashable. *)
Definition set_item (m : ArgDict) (k v : pyvalue) : outcome ArgDict :=
  match k with
  | VStr s => Ok (mkArgDict (set s v (str_items m)) (other_keys m))
  | VList _ | VDict _ => Raise TypeError
  | _ => Ok (mkArgDict (str_items m) true)
  end.

(** The items that iterating over a string yields: its characters. *)
Definition chars (s : string) : list pyvalue :=
  map VStr (code_points s).

(** The elements of one item of an update sequence. *)
Definition as_sequence (item : pyvalue) : outcome (list pyvalue) :=
  match item with
  | VList l => Ok l
  | VStr s => Ok (chars s)
  | VDict d => Ok (map (fun kv => VStr (fst kv)) d)
  | _ => Raise TypeError
  end.

(** [dict.update(seq)] for an iterable of key/value pairs. *)
Fixpoint update_from_pairs (m : ArgDict) (items : list pyvalue)
    : outcome ArgDict :=
  match items with
  | [] => Ok m
  | item :: rest =>
      match as_sequence item with
      | Raise e => Raise e
      | Ok [k; v] =>
          match set_item m k v with
          | Ok m' => update_from_pairs m' rest
          | Raise e => Raise e
          end
      | Ok _ => Raise ValueError
      end
  end.

(** [merged_args.update(part_args)] *)
Definition dict_update (m : ArgDict) (part_args : pyvalue)
    : outcome ArgDict :=
  match part_args with
  | VDict d => Ok (mkArgDict (update (str_items m) d) (other_keys m))
  | VStr s => update_from_pairs m (chars s)
  | VList l => update_from_pairs m l
  | VNone | VBool _ | VInt _ | VFloat _ => Raise TypeError
  end.

(** The local variable [arguments] once decoded: the value of
    [json.loads], the repaired dictionary, or the literal [{}]. *)
Inductive Arguments : Type :=
| Loaded (v : pyvalue)
| Repaired (m : ArgDict)
| EmptyObject.

(** [**arguments]: the operand must be a mapping with string keys. *)
Definition kwargs (a : Arguments) : outcome (dict pyvalue) :=
  match a with
  | Loaded (VDict d) => Ok d
  | Loaded _ => Raise TypeError
  | Repaired m => if other_keys m then Raise TypeError else Ok (str_items m)
  | EmptyObject => Ok []
  end.

(** *** Splitting a payload of concatenated objects *)

Record SplitState : Type := mkSplit {
  json_parts : list string;
  current_part : string;
  brace_count : Z
}.

(** The body of [for char in arguments].  The loop of the model runs over
    the bytes of the encoding: the bytes of a character that is not ASCII
    are no braces, so that appending them one after the other builds the
    same fragments as appending the character. *)
Definition split_step (st : SplitState) (char : ascii) : SplitState :=
  let st1 :=
    if Ascii.eqb char "{" then
      let st0 :=
        if (brace_count st =? 0)%Z && truthy (current_part st)
        then mkSplit (json_parts st ++ [current_part st]) EmptyString
                     (brace_count st)
        else st in
      mkSplit (json_parts st0) (current_part st0) (brace_count st0 + 1)
    else if Ascii.eqb char "}" then
      mkSplit (json_parts st) (current_part st) (brace_count st - 1)
    else st in
  mkSplit (json_parts st1)
          (current_part st1 ++ String char EmptyString)
          (brace_count st1).

Definition split_loop (st : SplitState) (s : string) : SplitState :=
  fold_left split_step (list_ascii_of_string s) st.

(** After the loop a pending buffer is the last fragment. *)
Definition finish_split (st : SplitState) : list string :=
  if truthy (current_part st) then json_parts st ++ [current_part st]
  else json_parts st.

Definition split_json_parts (arguments : string) : list string :=
  finish_split (split_loop (mkSplit [] EmptyString 0) arguments).

(** *** Registry entries *)

(** Modelled from the spec: the members of [ToolType]
    ([plugins_func/register.py], not among the sources) that the dispatcher
    names, and one constructor for every other member. *)
Inductive ToolType : Type :=
| SYSTEM_CTL | IOT_CTL | WAIT | CHANGE_SYS_PROMPT | OTHER_TOOL_TYPE.

(** Modelled from the spec: the action tags of [Action]
    ([plugins_func/register.py], not among the sources): not-found,
    continue-with-llm and success-terminal.  The first two carry the names
    that the sources use for them. *)
Inductive Action : Type := NOTFOUND | REQLLM | SUCCESS_TERMINAL.

Record ActionResponse : Type := mkResponse {
  action : Action;
  result : option string;
  response : option string
}.

Record FunctionCallData : Type := mkCall {
  name : string;
  arguments : string
}.

(** [function_desc["function"]]: name, description and an opaque
    parameter schema. *)
Record FunctionDesc : Type := mkDesc {
  desc_name : string;
  desc_description : string;
  desc_parameters : string
}.

Inductive Event : Type :=
| Received (d : FunctionCallData)
| RawArguments (s : string)
| RepairDetected (e : exn)
| RepairedArguments (m : ArgDict)
| Calling (function_name : string) (a : Arguments)
| HandlingError (e : exn)
| ForcedPlugin (function_name : string).

Definition LogRecord : Type := (Level * Event)%type.

(** Computations that log and may raise. *)
Definition M (A : Type) : Type := (outcome A * list LogRecord)%type.

Definition ret {A} (a : A) : M A := (Ok a, []).
Definition raise {A} (e : exn) : M A := (Raise e, []).
Definition log (l : Level) (ev : Event) : M unit := (Ok tt, [(l, ev)]).
Definition lift {A} (r : outcome A) : M A := (r, []).

Definition bind {A B} (m : M A) (k : A -> M B) : M B :=
  match m with
  | (Ok a, l) => let (r, l') := k a in (r, l ++ l')
  | (Raise e, l) => (Raise e, l)
  end.

(** [try: m  except Exception as e: h e] *)
Definition try_except {A} (m : M A) (h : exn -> M A) : M A :=
  match m with
  | (Ok a, l) => (Ok a, l)
  | (Raise e, l) => let (r, l') := h e in (r, l ++ l')
  end.

Notation "x <- m ;; k" := (bind m (fun x => k))
  (at level 61, m at next level, right associativity).
Notation "m ;;; k" := (bind m (fun _ => k))
  (at level 61, right associativity).

Section Dispatcher.
(** The connection object handed to capabilities. *)
Variable Conn : Type.

(** [json.loads]: the decoded value, or the exception that it raises: a
    [JSONDecodeError] for a document that is not JSON, and for some
    documents another one ([RecursionError] for a nesting that is too
    deep, a plain [ValueError] for an integer with too many digits). *)
Variable json_loads : string -> outcome pyvalue.

(** A capability: called with or without the connection, and with the
    keyword arguments. *)
Definition Callable : Type :=
  option Conn -> dict pyvalue -> outcome (option ActionResponse).

Record FunctionItem : Type := mkItem {
  func : Callable;
  type : ToolType
}.

(** Modelled from the spec: [FunctionRegistry.get_function]
    ([plugins_func/register.py]) looks the name up in the mapping from
    capability name to descriptor. *)
Definition get_function (registry : dict FunctionItem) (function_name : string)
    : option FunctionItem :=
  get function_name registry.

(** The loop that parses and merges the fragments. *)
Fixpoint merge_parts (parts : list string) (merged_args : ArgDict)
    : outcome ArgDict :=
  match parts with
  | [] => Ok merged_args
  | part :: rest =>
      match json_loads part with
      | Ok part_args =>
          match dict_update merged_args part_args with
          | Ok merged_args' => merge_parts rest merged_args'
          | Raise e => Raise e
          end
      | Raise e =>
          if is_decode_error e then merge_parts rest merged_args
          else Raise e
      end
  end.

(** The marker of two concatenated objects. *)
Definition concat_pattern : string :=
  String "}" (String "{" (String dquote EmptyString)).

(** Lines 124-165: from the raw payload to the decoded arguments. *)
Definition decode_arguments (arguments : string) : M Arguments :=
  if truthy arguments then
    match json_loads arguments with
    | Ok v => ret (Loaded v)
    | Raise e =>
        if is_decode_error e then
          if contains concat_pattern arguments then
            log WARNING (RepairDetected e) ;;;
            merged_args <-
              lift (merge_parts (split_json_parts arguments) empty_args) ;;
            log INFO (RepairedArguments merged_args) ;;;
            ret (Repaired merged_args)
          else raise e
        else raise e
    end
  else ret EmptyObject.

Definition not_found_response : ActionResponse :=
  mkResponse NOTFOUND (Some "没有找到对应的函数"%string) (Some EmptyString).

(** Lines 169-181: the call according to the calling convention. *)
Definition dispatch (conn : Conn) (funcItem : FunctionItem)
    (a : Arguments) : M (option ActionResponse) :=
  match type funcItem with
  | SYSTEM_CTL | IOT_CTL | CHANGE_SYS_PROMPT =>
      kw <- lift (kwargs a) ;; lift (func funcItem (Some conn) kw)
  | WAIT =>
      kw <- lift (kwargs a) ;; lift (func funcItem None kw)
  | OTHER_TOOL_TYPE => ret (Some not_found_response)
  end.

(** The body of the [try] block. *)
Definition handle_body (registry : dict FunctionItem) (conn : Conn)
    (function_call_data : FunctionCallData) : M (option ActionResponse) :=
  log INFO (Received function_call_data) ;;;
  let function_name := name function_call_data in
  match get_function registry function_name with
  | None => ret (Some not_found_response)
  | Some funcItem =>
      log INFO (RawArguments (arguments function_call_data)) ;;;
      a <- decode_arguments (arguments function_call_data) ;;
      log DEBUG (Calling function_name a) ;;;
      dispatch conn funcItem a
  end.

Definition handle_llm_function_call (registry : dict FunctionItem)
    (conn : Conn) (function_call_data : FunctionCallData)
    : M (option ActionResponse) :=
  try_except (handle_body registry conn function_call_data)
    (fun e => log ERROR (HandlingError e) ;;; ret None).

(** The first positional argument of the call: the connection, except for
    the [WAIT] convention, which passes none. *)
Definition passed_conn (conn : Conn) (funcItem : FunctionItem) : option Conn :=
  match type funcItem with
  | WAIT => None
  | _ => Some conn
  end.

(** *** Assembling the capability set *)

(** The names that [register_config_functions] forces, in the order of its
    four blocks. *)
Definition forced_plugins : list string :=
  ["send_email"; "save_weather_to_db"; "onvif_camera_control";
   "vision_camera_analysis"]%string.


(** One of the four [if ... not in config_functions] blocks. *)
Definition force_plugin (plugin : string)
    (st : list string * list LogRecord) : list string * list LogRecord :=
  let (config_functions, l) := st in
  if negb (list_mem plugin config_functions)
  then (config_functions ++ [plugin], l ++ [(INFO, ForcedPlugin plugin)])
  else st.

(** The list that the registration loop of [register_config_functions]
    iterates over, and the log of the forced additions. *)
Definition forced_config_functions (config_functions : list string)
    : list string * list LogRecord :=
  force_plugin "vision_camera_analysis"
    (force_plugin "onvif_camera_control"
       (force_plugin "save_weather_to_db"
          (force_plugin "send_email" (config_functions, [])))).

(** Modelled from the spec: [FunctionRegistry.register_function]
    ([plugins_func/register.py]) adds the name with the descriptor that
    the fixed table of built-in capabilities gives it; an unknown name is
    reported and left out. *)
Definition register_function (all_function_registry : dict FunctionItem)
    (registry : dict FunctionItem) (function_name : string)
    : dict FunctionItem :=
  match get function_name all_function_registry with
  | Some item => set function_name item registry
  | None => registry
  end.

Definition register_config_functions
    (all_function_registry : dict FunctionItem)
    (config_functions : list string) (registry : dict FunctionItem)
    : dict FunctionItem * list LogRecord :=
  let (names, l) := forced_config_functions config_functions in
  (fold_left (register_function all_function_registry) names registry, l).

End Dispatcher.

(** *** The description of [plugin_loader] *)

Definition current_support_functions (functions_desc : list FunctionDesc)
    : list string :=
  map desc_name functions_desc.

(** The loop of [modify_plugin_loader_des]: the first description named
    [plugin_loader] is rewritten, then the loop breaks. *)
Fixpoint replace_in_plugin_loader (func_names : string)
    (functions_desc : list FunctionDesc) : list FunctionDesc :=
  match functions_desc with
  | [] => []
  | function_desc :: rest =>
      if String.eqb (desc_name function_desc) "plugin_loader" then
        mkDesc (desc_name function_desc)
               (str_replace (desc_description function_desc)
                            "[plugins]" func_names)
               (desc_parameters function_desc)
        :: rest
      else function_desc :: replace_in_plugin_loader func_names rest
  end.

Definition modify_plugin_loader_des (func_names : list string)
    (functions_desc : list FunctionDesc) : list FunctionDesc :=
  if negb (list_mem "plugin_loader" func_names) then functions_desc
  else
    let surport_plugins :=
      filter (fun func => negb (String.eqb func "plugin_loader")) func_names in
    replace_in_plugin_loader (join "," surport_plugins) functions_desc.

(** The test of the list comprehension of [modify_plugin_loader_des]. *)
Definition not_plugin_loader (f : string) : bool :=
  negb (String.eqb f "plugin_loader").

(** The two lines of [__init__] that follow the registrations. *)
Definition finish_init (functions_desc : list FunctionDesc)
    : list FunctionDesc :=
  modify_plugin_loader_des (current_support_functions functions_desc)
                           functions_desc.

(** *** The repair as the design document words it *)

Definition depth_after (depth : Z) (c : ascii) : Z :=
  if Ascii.eqb c "{" then (depth + 1)%Z
  else if Ascii.eqb c "}" then (depth - 1)%Z
  else depth.


(** The fragments that parse to an object, in fragment order; the others
    are dropped. *)
Definition parsed_objects (json_loads : string -> outcome pyvalue)
    (parts : list string) : list (dict pyvalue) :=
  flat_map
    (fun part =>
       match json_loads part with
       | Ok (VDict d) => [d]
       | _ => []
       end) parts.

(** A fragment that the loop merges as an object or drops: [json.loads]
    returns an object for it or raises a decode error. *)
Definition merged_or_dropped (json_loads : string -> outcome pyvalue)
    (part : string) : Prop :=
  (exists d, json_loads part = Ok (VDict d)) \/
  (exists e, json_loads part = Raise e /\ is_decode_error e = true).


(** The brace count of the loop after the characters of [s]: opening minus
    closing braces. *)
Fixpoint brace_depth (s : string) : Z :=
  match s with
  | EmptyString => 0
  | String c s' => (depth_after 0 c + brace_depth s')%Z
  end.


(** The key/value pairs of the objects merged into one accumulator. *)
Definition merge_objects (objs : list (dict pyvalue)) : dict pyvalue :=
  fold_left (@update pyvalue) objs [].




(** *** Sample data *)

(** [n] times the digit 9. *)
Fixpoint nines (n : nat) : string :=
  match n with
  | O => EmptyString
  | S k => String "9" (nines k)
  end.

(** An object whose one value is an integer of 5000 digits. *)
Definition long_integer_object : string :=
  (js "{'b':" ++ nines 5000 ++ "}")%string.

(** [json.loads] on the documents that the examples below hand to it: three
    objects, one number and one list are valid JSON; the integer of
    [long_integer_object] has more digits than the conversion of a string
    to an integer accepts (4300 by default), which raises a plain
    [ValueError]; the other documents of the examples ([not json at all],
    [{invalid}], and the concatenations and their remaining fragments)
    raise a decode error.  The table stands for [json.loads] on these
    documents only. *)
Definition json_loads_examples (s : string) : outcome pyvalue :=
  if String.eqb s (js "{'a':1}") then Ok (VDict [("a"%string, VInt 1)])
  else if String.eqb s (js "{'b':2}") then Ok (VDict [("b"%string, VInt 2)])
  else if String.eqb s (js "{'c':3}") then Ok (VDict [("c"%string, VInt 3)])
  else if String.eqb s "1" then Ok (VInt 1)
  else if String.eqb s (js "['日本']") then Ok (VList [VStr "日本"])
  else if String.eqb s long_integer_object then Raise ValueError
  else Raise (JSONDecodeError s).

(** A capability that answers, and one that raises. *)
Definition answering : Callable unit :=
  fun _ _ => Ok (Some (mkResponse REQLLM (Some "done"%string) None)).

Definition failing : Callable unit :=
  fun _ _ => Raise (CapabilityError "smtp unreachable").

Definition sample_registry : dict (FunctionItem unit) :=
  [("get_time"%string, mkItem answering WAIT);
   ("send_email"%string, mkItem failing SYSTEM_CTL)].

(** Descriptions in registration order; the one of [plugin_loader] holds the
    placeholder. *)
Definition sample_descriptions : list FunctionDesc :=
  [mkDesc "handle_exit_intent" "ends the conversation" "";
   mkDesc "plugin_loader" "loads one of: [plugins]." "";
   mkDesc "get_time" "tells the time" "";
   mkDesc "send_email" "sends an email" ""].

End FunctionHandler.

(** ** The rest of the cache pool: statistics and sequences of calls *)

Module CacheStats.
Import PyDict WeatherCache.

(** One of the two per-namespace dictionaries that [get_stats] returns. *)
Record NamespaceStats : Type := mkNamespaceStats {
  hits : nat;
  misses : nat;
  hit_rate : Q;
  entries : nat
}.

(** The dictionary [general] of [get_stats]. *)
Record GeneralStats : Type := mkGeneralStats {
  total_entries : nat;
  max_entries : Z;
  evictions : nat
}.

Record StatsReport : Type := mkReport {
  weather_cache : NamespaceStats;
  city_cache : NamespaceStats;
  general : GeneralStats
}.

(** [hits / max(total_requests, 1)]: the true division of two integers
    gives the double nearest to the quotient. *)
Definition rate (hits total_requests : nat) : Q :=
  PyFloat.div (inject_Z (Z.of_nat hits))
              (inject_Z (Z.of_nat (Nat.max total_requests 1))).

Definition get_stats {Data} (cfg : CacheConfig) (p : WeatherCachePool Data)
    : StatsReport :=
  let st := _stats p in
  let total_weather_requests := (weather_hits st + weather_misses st)%nat in
  let total_city_requests := (city_hits st + city_misses st)%nat in
  mkReport
    (mkNamespaceStats (weather_hits st) (weather_misses st)
       (rate (weather_hits st) total_weather_requests)
       (len (_weather_cache p)))
    (mkNamespaceStats (city_hits st) (city_misses st)
       (rate (city_hits st) total_city_requests)
       (len (_city_cache p)))
    (mkGeneralStats (len (_weather_cache p) + len (_city_cache p))
       (max_cache_size cfg) (WeatherCache.evictions st)).

End CacheStats.

Module CacheRuns.
Import PyDict WeatherCache.

(** The public operations of a pool, as a caller issues them. *)
Inductive Op (Data : Type) : Type :=
| GetWeather (clk : Clock) (loc : string)
| SetWeather (clk : Clock) (loc : string) (d : Data)
| GetCity (clk : Clock) (loc : string)
| SetCity (clk : Clock) (loc : string) (d : Data)
| ClearCache
| CleanExpired (clk : Clock).
Arguments GetWeather {Data} clk loc.
Arguments SetWeather {Data} clk loc d.
Arguments GetCity {Data} clk loc.
Arguments SetCity {Data} clk loc d.
Arguments ClearCache {Data}.
Arguments CleanExpired {Data} clk.

Definition step {Data} (cfg : CacheConfig) (p : WeatherCachePool Data)
    (op : Op Data) : WeatherCachePool Data :=
  match op with
  | GetWeather clk loc => snd (get_weather_data clk loc p)
  | SetWeather clk loc d => set_weather_data cfg clk loc d p
  | GetCity clk loc => snd (get_city_info clk loc p)
  | SetCity clk loc d => set_city_info cfg clk loc d p
  | ClearCache => clear_cache p
  | CleanExpired clk => clean_expired clk p
  end.

(** The pool after a sequence of calls. *)
Definition run {Data} (cfg : CacheConfig) (ops : list (Op Data))
    (p : WeatherCachePool Data) : WeatherCachePool Data :=
  fold_left (step cfg) ops p.

(** A dictionary after [pop] for each key of a list, in order. *)
Definition pops {V} (l : list string) (d : dict V) : dict V :=
  fold_left (fun d k => pop k d) l d.

(** The entry stored under [k] in [d] exists and is expired at [clk]. *)
Definition stale {Data} (clk : Clock) (d : dict (CacheEntry Data))
    (k : string) : bool :=
  match get k d with
  | Some e => _is_expired clk e
  | None => false
  end.

(** The four request counters of the statistics. *)
Definition request_counters (s : Stats) : nat * nat * nat * nat :=
  (weather_hits s, weather_misses s, city_hits s, city_misses s).

Definition is_get_weather {Data} (op : Op Data) : bool :=
  match op with GetWeather _ _ => true | _ => false end.

Definition is_get_city {Data} (op : Op Data) : bool :=
  match op with GetCity _ _ => true | _ => false end.

End CacheRuns.

(** ** The cached weather lookup ([plugins_func/functions/get_weather_cached.py]) *)

Module WeatherPlugin.
Import PyDict WeatherCache FunctionHandler.

(** Truth value of a Python value. *)
Definition py_truthy (v : pyvalue) : bool :=
  match v with
  | VNone => false
  | VBool b => b
  | VInt z => negb (z =? 0)%Z
  | VFloat q => negb (Qeq_bool q 0)
  | VStr s => truthy s
  | VList l => match l with [] => false | _ => true end
  | VDict d => match d with [] => false | _ => true end
  end.

(** The value that a method returning [Optional] hands to Python. *)
Definition of_option (o : option pyvalue) : pyvalue :=
  match o with
  | Some v => v
  | None => VNone
  end.

(** [v[0]] for a truthy value [v]: the first element of a list, the first
    character of a string; a dictionary produced by [json] has no key [0]
    and the other values cannot be subscripted. *)
Definition first_item (v : pyvalue) : outcome pyvalue :=
  match v with
  | VList (x :: _) => Ok x
  | VList [] => Raise (CapabilityError "IndexError")
  | VStr s =>
      match code_points s with
      | c :: _ => Ok (VStr c)
      | [] => Raise (CapabilityError "IndexError")
      end
  | VDict _ => Raise (CapabilityError "KeyError")
  | _ => Raise TypeError
  end.

Section Plugin.

(** [requests.get(url, ...)], [raise_for_status()] and [response.json()]:
    the decoded body, or the exception that one of the three raises. *)
Variable http_get_json : string -> outcome pyvalue.

(** Lines 122 to 127: the page behind [fxLink] fetched and handed to
    [parse_weather_info], whose four results are returned; [Raise] when the
    request raises (a tuple is rendered as a list). *)
Variable scrape_weather :
  pyvalue -> outcome (pyvalue * pyvalue * pyvalue * pyvalue).

(** [str(v)] for a value that is not a string. *)
Variable py_repr : pyvalue -> string.

(** The timestamps that [datetime.fromtimestamp] accepts on the platform;
    for the others the log line that closes the two setters of the pool
    raises. *)
Variable fromtimestamp_ok : Q -> bool.

(** The text that an f-string puts in place of [{v}]. *)
Definition format_value (v : pyvalue) : string :=
  match v with
  | VStr s => s
  | _ => py_repr v
  end.

(** The outcome of a lookup: the returned value, the pool afterwards and the
    addresses that were requested over the network. *)
Record Fetched : Type := mkFetched {
  returned : pyvalue;
  pool_after : WeatherCachePool pyvalue;
  requested : list string
}.

Definition lookup_url (location api_key api_host : string) : string :=
  ("https://" ++ api_host ++ "/geo/v2/city/lookup?key=" ++ api_key
     ++ "&location=" ++ location ++ "&lang=zh")%string.

(** [data.get("location", [])[0] if data.get("location") else None], for
    the decoded body [data]; a body that is no dictionary has no [get]. *)
Definition first_location (data : pyvalue) : outcome pyvalue :=
  match data with
  | VDict d =>
      match get "location" d with
      | Some v => if py_truthy v then first_item v else Ok VNone
      | None => Ok VNone
      end
  | _ => Raise (CapabilityError "AttributeError")
  end.

(** [clk_get] is the clock when the cache is read, [clk_set] the clock when
    the answer of the service is stored.  The call of [set_city_info] is
    inside the [try] block: when its log line raises, the entry is stored
    and the [except] clause returns [None]. *)
Definition fetch_city_info_cached (cfg : CacheConfig) (clk_get clk_set : Clock)
    (location api_key api_host : string) (cache_pool : WeatherCachePool pyvalue)
    : Fetched :=
  let (cached, p1) := get_city_info clk_get location cache_pool in
  let cached_city_info := of_option cached in
  if py_truthy cached_city_info then mkFetched cached_city_info p1 []
  else
    let url := lookup_url location api_key api_host in
    match http_get_json url with
    | Raise _ => mkFetched VNone p1 [url]
    | Ok data =>
        match first_location data with
        | Raise _ => mkFetched VNone p1 [url]
        | Ok city_info =>
            if py_truthy city_info then
              let p2 := set_city_info cfg clk_set location city_info p1 in
              if set_city_info_returns fromtimestamp_ok cfg clk_set
              then mkFetched city_info p2 [url]
              else mkFetched VNone p2 [url]
            else mkFetched city_info p1 [url]
        end
    end.

(** [city_info.get("name", "未知")]; only a dictionary has [get]. *)
Definition city_name (city_info : pyvalue) : outcome pyvalue :=
  match city_info with
  | VDict d =>
      match get "name" d with
      | Some v => Ok v
      | None => Ok (VStr "未知")
      end
  | _ => Raise (CapabilityError "AttributeError")
  end.

(** The dictionary that is cached after a successful scrape. *)
Definition cached_data (weather_data : pyvalue * pyvalue * pyvalue * pyvalue)
    : pyvalue :=
  let '(name, abstract, basic, temps) := weather_data in
  VDict [("city_name"%string, name); ("current_abstract"%string, abstract);
         ("current_basic"%string, basic); ("temps_list"%string, temps)].

(** The [try] block of [fetch_and_parse_weather_cached]; the requested
    address is recorded by its rendering.  When the log line of
    [set_weather_data] raises, the entry is stored and the [except] clause
    returns [None]. *)
Definition scrape_and_store (cfg : CacheConfig) (clk_set : Clock)
    (city_info : list (string * pyvalue)) (location : string)
    (p : WeatherCachePool pyvalue) : Fetched :=
  match get "fxLink" city_info with
  | None => mkFetched VNone p []
  | Some link =>
      match scrape_weather link with
      | Raise _ => mkFetched VNone p [format_value link]
      | Ok weather_data =>
          if py_truthy (fst (fst (fst weather_data))) then
            let p2 := set_weather_data cfg clk_set location
                        (cached_data weather_data) p in
            if set_weather_data_returns fromtimestamp_ok cfg clk_set
            then mkFetched (cached_data weather_data) p2 [format_value link]
            else mkFetched VNone p2 [format_value link]
          else mkFetched VNone p [format_value link]
      end
  end.

(** The first line is outside the [try] block: its exception reaches the
    caller. *)
Definition fetch_and_parse_weather_cached (cfg : CacheConfig)
    (clk_get clk_set : Clock) (city_info : pyvalue)
    (cache_pool : WeatherCachePool pyvalue) (force_refresh : bool)
    : outcome Fetched :=
  match city_info, city_name city_info with
  | VDict d, Ok name =>
      let location := format_value name in
      if negb force_refresh then
        let (cached, p1) := get_weather_data clk_get location cache_pool in
        let cached_weather_data := of_option cached in
        if py_truthy cached_weather_data
        then Ok (mkFetched cached_weather_data p1 [])
        else Ok (scrape_and_store cfg clk_set d location p1)
      else Ok (scrape_and_store cfg clk_set d location cache_pool)
  | _, Raise e => Raise e
  | _, Ok _ => Raise (CapabilityError "AttributeError")
  end.

End Plugin.

End WeatherPlugin.

(** ** Shapes of fragments and of the errors of a repair *)

Module FragmentShape.
Import FunctionHandler.

(** The two exceptions that [dict.update] can raise. *)
Definition type_or_value_error (e : exn) : Prop :=
  e = TypeError \/ e = ValueError.

(** [s.startswith("{")] *)
Definition opens_brace (s : string) : bool := String.prefix "{" s.

(** While the splitting loop runs, every collected fragment but the first,
    and the buffer once a fragment was collected, open with a brace. *)
Definition tail_opens (st : SplitState) : Prop :=
  match json_parts st with
  | [] => True
  | _ :: rest =>
      Forall (fun part => opens_brace part = true) rest /\
      opens_brace (current_part st) = true
  end.

End FragmentShape.

(* ================================================================== *)
(** ** Sample data for the plugin and the rest of the pool *)
Module Samples.
Import PyDict WeatherCache FunctionHandler WeatherPlugin.
Open Scope string_scope.

(** A pool of capacity 3 after two insertions, one second apart. *)
Definition pool_two : WeatherCachePool string :=
  set_weather_data (config_capacity 3) (clock_h0 2) "B" "b"
    (set_weather_data (config_capacity 3) (clock_h0 1) "A" "a" (init string)).

(** A registry whose only capability has a tool type that the dispatcher
    does not serve. *)
Definition other_registry : dict (FunctionItem unit) :=
  [("mcp_tool", mkItem answering OTHER_TOOL_TYPE)].

(** Two city records with the same name, as the lookup service returns
    them. *)
Definition paris : list (string * pyvalue) :=
  [("name", VStr "Paris"); ("id", VStr "2988507");
   ("fxLink", VStr "https://www.qweather.com/weather/paris-2988507.html")].

Definition paris_texas : list (string * pyvalue) :=
  [("name", VStr "Paris"); ("id", VStr "4717560");
   ("fxLink", VStr "https://www.qweather.com/weather/paris-4717560.html")].

(** A lookup service that knows the city, one that does not, and none. *)
Definition lookup_known : string -> outcome pyvalue :=
  fun _ => Ok (VDict [("code", VStr "200"); ("location", VList [VDict paris])]).

Definition lookup_unknown : string -> outcome pyvalue :=
  fun _ => Ok (VDict [("code", VStr "404")]).

Definition lookup_offline : string -> outcome pyvalue :=
  fun _ => Raise (CapabilityError "ConnectionError").

(** The four results of a scrape. *)
Definition sunny : pyvalue * pyvalue * pyvalue * pyvalue :=
  (VStr "Paris", VStr "sunny", VDict [("humidity", VStr "40%")], VList []).

Definition page_online : pyvalue -> outcome (pyvalue * pyvalue * pyvalue * pyvalue) :=
  fun _ => Ok sunny.

Definition page_offline : pyvalue -> outcome (pyvalue * pyvalue * pyvalue * pyvalue) :=
  fun _ => Raise (CapabilityError "ConnectionError").

(** [str] on the values of the samples, all of which are strings. *)
Definition repr_unused : pyvalue -> string := fun _ => "".

(** The range of [datetime]: the years 1 to 9999, in epoch seconds. *)
Definition years_1_to_9999 (t : Q) : bool :=
  Qle_bool (-62135596800) t && Qle_bool t 253402300799.

(** The default configuration with a city TTL of a million million
    seconds. *)
Definition config_long_city_ttl : CacheConfig :=
  mkConfig 3600 1000000000000 50 true.

End Samples.

(** * Part II: properties *)
(* ================================================================== *)

(** ** Dictionaries *)

Module PyDictFacts.
Import PyDict.

Section Facts.
Variable V : Type.
Implicit Types (d : dict V) (k : string) (v : V).

Lemma get_None_iff k d : get k d = None <-> ~ In k (keys d).
Proof.
  induction d as [|[k' v'] d IH]; simpl.
  - tauto.
  - destruct (String.eqb_spec k k') as [->|Hne].
    + split; [discriminate | intros H; exfalso; apply H; now left].
    + rewrite IH. split; intros H; [intros [E|I]; [congruence | tauto] | tauto].
Qed.

Lemma get_Some_In k v d : get k d = Some v -> In k (keys d).
Proof.
  intros H. destruct (in_dec string_dec k (keys d)) as [I|N]; [exact I|].
  apply get_None_iff in N. congruence.
Qed.

Lemma In_get_Some k d : In k (keys d) -> exists v, get k d = Some v.
Proof.
  intros I. destruct (get k d) as [v|] eqn:E; [now exists v|].
  apply get_None_iff in E. contradiction.
Qed.

Lemma get_set_same k v d : get k (set k v d) = Some v.
Proof.
  induction d as [|[k' v'] d IH]; simpl.
  - now rewrite String.eqb_refl.
  - destruct (String.eqb_spec k k') as [->|Hne]; simpl.
    + now rewrite String.eqb_refl.
    + destruct (String.eqb_spec k k'); [contradiction | exact IH].
Qed.

Lemma get_set_other k k' v d : k <> k' -> get k (set k' v d) = get k d.
Proof.
  intros Hne. induction d as [|[k0 v0] d IH]; simpl.
  - destruct (String.eqb_spec k k'); [contradiction | reflexivity].
  - destruct (String.eqb_spec k' k0) as [->|H0]; simpl.
    + destruct (String.eqb_spec k k0); [contradiction | reflexivity].
    + destruct (String.eqb_spec k k0); [reflexivity | exact IH].
Qed.

Lemma keys_set_present k v d : In k (keys d) -> keys (set k v d) = keys d.
Proof.
  induction d as [|[k0 v0] d IH]; simpl; [tauto|].
  intros H. destruct (String.eqb_spec k k0) as [->|Hne]; simpl.
  - reflexivity.
  - f_equal. apply IH. destruct H; [congruence | assumption].
Qed.

Lemma keys_set_absent k v d : ~ In k (keys d) -> keys (set k v d) = keys d ++ [k].
Proof.
  induction d as [|[k0 v0] d IH]; simpl; [reflexivity|].
  intros H. destruct (String.eqb_spec k k0) as [->|Hne]; simpl.
  - exfalso. apply H. now left.
  - f_equal. apply IH. tauto.
Qed.

Lemma In_keys_set k k' v d :
  In k (keys (set k' v d)) <-> k = k' \/ In k (keys d).
Proof.
  destruct (in_dec string_dec k' (keys d)) as [I|N].
  - rewrite keys_set_present by assumption. split; [tauto|].
    intros [->|H]; assumption.
  - rewrite keys_set_absent by assumption. rewrite in_app_iff. simpl.
    split; [intros [H|[H|[]]]; auto | intros [H|H]; auto].
Qed.

Lemma wf_set k v d : wf d -> wf (set k v d).
Proof.
  unfold wf. intros H.
  destruct (in_dec string_dec k (keys d)) as [I|N].
  - now rewrite keys_set_present by assumption.
  - rewrite keys_set_absent by assumption.
    apply NoDup_app; [assumption | repeat constructor; simpl; tauto |].
    intros x Hx [<-|[]]. contradiction.
Qed.

Lemma length_set_present k v d : In k (keys d) -> len (set k v d) = len d.
Proof.
  intros I. unfold len.
  rewrite <- (length_map fst (set k v d)), <- (length_map fst d).
  change (map fst (set k v d)) with (keys (set k v d)).
  now rewrite keys_set_present by assumption.
Qed.

Lemma length_set_absent k v d : ~ In k (keys d) -> len (set k v d) = S (len d).
Proof.
  intros N. unfold len.
  rewrite <- (length_map fst (set k v d)), <- (length_map fst d).
  change (map fst (set k v d)) with (keys (set k v d)).
  rewrite keys_set_absent by assumption.
  rewrite length_app. simpl. unfold keys. lia.
Qed.

Lemma keys_pop k d :
  keys (pop k d) = filter (fun k' => negb (String.eqb k k')) (keys d).
Proof.
  unfold pop, keys. induction d as [|[k0 v0] d IH]; simpl; [reflexivity|].
  destruct (String.eqb k k0); simpl; [exact IH | now f_equal].
Qed.

Lemma In_keys_pop k k' d :
  In k (keys (pop k' d)) <-> In k (keys d) /\ k <> k'.
Proof.
  rewrite keys_pop, filter_In.
  destruct (String.eqb_spec k' k) as [->|Hne]; simpl.
  - split; [intros [_ H]; discriminate | intros [_ H]; congruence].
  - split; intros [H _]; split; auto.
Qed.

Lemma wf_pop k d : wf d -> wf (pop k d).
Proof. unfold wf. rewrite keys_pop. apply NoDup_filter. Qed.

Lemma get_pop_same k d : get k (pop k d) = None.
Proof. apply get_None_iff. rewrite In_keys_pop. tauto. Qed.

Lemma get_pop_other k k' d : k <> k' -> get k (pop k' d) = get k d.
Proof.
  intros Hne. unfold pop. induction d as [|[k0 v0] d IH]; simpl; [reflexivity|].
  destruct (String.eqb_spec k' k0) as [->|H0]; simpl.
  - destruct (String.eqb_spec k k0); [contradiction | exact IH].
  - destruct (String.eqb_spec k k0); [reflexivity | exact IH].
Qed.

Lemma pop_absent k d : ~ In k (keys d) -> pop k d = d.
Proof.
  unfold pop. induction d as [|[k0 v0] d IH]; simpl; [reflexivity|].
  intros H. destruct (String.eqb_spec k k0) as [->|Hne]; simpl.
  - exfalso. apply H. now left.
  - f_equal. apply IH. tauto.
Qed.

Lemma length_pop_present k d :
  wf d -> In k (keys d) -> S (len (pop k d)) = len d.
Proof.
  unfold wf, len, pop. induction d as [|[k0 v0] d IH]; simpl; [tauto|].
  intros ND I. inversion ND as [|? ? Hn ND']; subst.
  destruct (String.eqb_spec k k0) as [->|Hne]; simpl.
  - f_equal. change (filter _ d) with (pop k0 d).
    now rewrite pop_absent.
  - f_equal. apply IH; [assumption |]. destruct I; [congruence | assumption].
Qed.

End Facts.
End PyDictFacts.

(** ** Sorting by timestamp *)

Module SortedFacts.

Section Facts.
Variable A : Type.
Variable key : A -> Q.

Lemma insert_sorted_perm x l : Permutation (insert_sorted key x l) (x :: l).
Proof.
  induction l as [|y l IH]; simpl; [reflexivity|].
  destruct (Qle_bool (key x) (key y)); [reflexivity|].
  rewrite IH. apply perm_swap.
Qed.

Lemma sorted_perm l : Permutation (sorted key l) l.
Proof.
  induction l as [|x l IH]; simpl; [reflexivity|].
  rewrite insert_sorted_perm. now constructor.
Qed.

Lemma insert_sorted_sorted x l :
  StronglySorted (key_le key) l ->
  StronglySorted (key_le key) (insert_sorted key x l).
Proof.
  induction 1 as [|y l Hs IH Hy]; simpl.
  - repeat constructor.
  - destruct (Qle_bool (key x) (key y)) eqn:E.
    + apply Qle_bool_iff in E. constructor; [now constructor|].
      constructor; [exact E|].
      eapply Forall_impl; [|exact Hy]. intros z Hz. unfold key_le in *.
      eapply Qle_trans; eassumption.
    + assert (Hyx : key y <= key x).
      { apply Qlt_le_weak, Qnot_le_lt. intros H. apply Qle_bool_iff in H. congruence. }
      constructor; [exact IH|].
      rewrite Forall_forall. intros z Hz.
      apply (Permutation_in _ (insert_sorted_perm x l)) in Hz.
      destruct Hz as [<-|Hz]; [exact Hyx|].
      rewrite Forall_forall in Hy. now apply Hy.
Qed.

Lemma sorted_sorted l : StronglySorted (key_le key) (sorted key l).
Proof.
  induction l as [|x l IH]; simpl; [constructor|].
  now apply insert_sorted_sorted.
Qed.

(** In a sorted list every element of a prefix is at most every element of
    the rest. *)
Lemma sorted_prefix_le n l :
  StronglySorted (key_le key) l ->
  forall v s, In v (firstn n l) -> In s (skipn n l) -> key v <= key s.
Proof.
  intros Hs. revert n. induction Hs as [|y l Hs IH Hy]; intros n v s Hv Hk.
  - destruct n; contradiction.
  - destruct n as [|n]; simpl in *; [contradiction|].
    destruct Hv as [<-|Hv].
    + rewrite Forall_forall in Hy. apply Hy.
      rewrite <- (firstn_skipn n l). apply in_or_app. now right.
    + eapply IH; eassumption.
Qed.

End Facts.
End SortedFacts.

(** ** Key prefixes *)

Module KeyFacts.

Lemma prefix_nil s : String.prefix EmptyString s = true.
Proof. destruct s; reflexivity. Qed.

Lemma prefix_cons a b s1 s2 :
  String.prefix (String a s1) (String b s2) =
  if ascii_dec a b then String.prefix s1 s2 else false.
Proof. reflexivity. Qed.

Lemma prefix_app p s : String.prefix p (p ++ s) = true.
Proof.
  induction p as [|a p IH]; simpl.
  - apply prefix_nil.
  - destruct (ascii_dec a a); [exact IH | contradiction].
Qed.

Lemma prefix_first_char a p b s :
  String.prefix (String a p) (String b s) = true -> a = b.
Proof.
  rewrite prefix_cons. destruct (ascii_dec a b); [trivial | discriminate].
Qed.

Lemma weather_key_prefix s : startswith ("weather_" ++ s) "weather_" = true.
Proof. apply prefix_app. Qed.

Lemma city_key_prefix s : startswith ("city_" ++ s) "city_" = true.
Proof. apply prefix_app. Qed.

Lemma weather_not_city k :
  startswith k "weather_" = true -> startswith k "city_" = false.
Proof.
  unfold startswith. destruct k as [|c k]; [discriminate|].
  intros H. apply prefix_first_char in H. subst c. reflexivity.
Qed.

Lemma city_not_weather k :
  startswith k "city_" = true -> startswith k "weather_" = false.
Proof.
  unfold startswith. destruct k as [|c k]; [discriminate|].
  intros H. apply prefix_first_char in H. subst c. reflexivity.
Qed.

End KeyFacts.

(** ** The cache pool: the invariant *)

(** ** Rounding to the nearest double *)

Module PyFloatFacts.
Import PyFloat.
Unset Implicit Arguments.

Lemma rne_floor x : (Qfloor x <= rne x <= Qfloor x + 1)%Z.
Proof.
  unfold rne. destruct (Qcompare _ _); [destruct (Z.even _)| |]; lia.
Qed.

Lemma rne_mono x y : x <= y -> (rne x <= rne y)%Z.
Proof.
  intros Hxy.
  pose proof (Qfloor_resp_le _ _ Hxy) as Hf.
  pose proof (rne_floor x) as Hx. pose proof (rne_floor y) as Hy.
  destruct (Z.eq_dec (Qfloor x) (Qfloor y)) as [E|N]; [|lia].
  unfold rne. rewrite E.
  destruct (Qcompare (x - inject_Z (Qfloor y)) (1#2)) eqn:Cx;
  destruct (Qcompare (y - inject_Z (Qfloor y)) (1#2)) eqn:Cy;
    try (destruct (Z.even (Qfloor y))); try lia; exfalso;
    repeat match goal with
    | H : Qcompare _ _ = Eq |- _ => apply Qeq_alt in H
    | H : Qcompare _ _ = Lt |- _ => apply Qlt_alt in H
    | H : Qcompare _ _ = Gt |- _ => apply Qgt_alt in H
    end; lra.
Qed.


Lemma rne_inject n : rne (inject_Z n) = n.
Proof.
  unfold rne. rewrite Qfloor_Z.
  assert (H : Qcompare (inject_Z n - inject_Z n) (1#2) = Lt)
    by (apply (proj1 (Qlt_alt _ _)); lra).
  now rewrite H.
Qed.

Lemma two_pos e : 0 < 2 ^ e.
Proof. apply Qpower_0_lt. reflexivity. Qed.

Lemma two_succ e : 2 ^ (e + 1) == 2 * 2 ^ e.
Proof. rewrite Qpower_plus by discriminate. rewrite Qpower_1_r. ring. Qed.

Lemma two_pred e : 2 ^ (e - 1) == 2 ^ e / 2.
Proof. rewrite Qpower_minus by discriminate. now rewrite Qpower_1_r. Qed.

Lemma inject_pow2 n : (0 <= n)%Z -> inject_Z (2 ^ n) == 2 ^ n.
Proof. intros H. now rewrite Zpower_Qpower. Qed.

Lemma log2_bounds a : (0 < a)%Z ->
  2 ^ (Z.log2 a) <= inject_Z a /\ inject_Z a < 2 ^ (Z.log2 a + 1).
Proof.
  intros Ha. destruct (Z.log2_spec a Ha) as [H1 H2].
  pose proof (Z.log2_nonneg a) as Hn.
  split.
  - rewrite <- inject_pow2 by lia. now rewrite <- Zle_Qle.
  - rewrite <- inject_pow2 by lia. rewrite <- Zlt_Qlt. 
    replace (Z.log2 a + 1)%Z with (Z.succ (Z.log2 a)) by lia. exact H2.
Qed.

Lemma binade_spec x : 0 < x -> 2 ^ binade x <= x /\ x < 2 ^ (binade x + 1).
Proof.
  intros Hx. destruct x as [a b].
  assert (Ha : (0 < a)%Z).
  { unfold Qlt in Hx. simpl in Hx. lia. }
  unfold binade. simpl Qnum. simpl Qden.
  set (la := Z.log2 a). set (lb := Z.log2 (Z.pos b)).
  destruct (log2_bounds a Ha) as [A1 A2].
  destruct (log2_bounds (Z.pos b) eq_refl) as [B1 B2].
  fold la in A1, A2. fold lb in B1, B2.
  assert (Hb : 0 < inject_Z (Z.pos b)) by reflexivity.
  assert (Hx' : a # b == inject_Z a / inject_Z (Z.pos b)) by apply Qmake_Qdiv.
  pose proof (two_pos la) as Pla. pose proof (two_pos lb) as Plb.
  pose proof (two_pos (la - lb)) as Pd.
  assert (Hd : 2 ^ (la - lb) * 2 ^ lb == 2 ^ la).
  { rewrite <- Qpower_plus by discriminate. now replace (la - lb + lb)%Z with la by lia. }
  rewrite two_succ in A2, B2.
  assert (Up : a # b < 2 ^ (la - lb + 1)).
  { rewrite Hx'. apply Qlt_shift_div_r; [exact Hb|].
    rewrite two_succ.
    generalize dependent (2 ^ (la - lb)). generalize dependent (2 ^ la).
    generalize dependent (2 ^ lb). generalize dependent (inject_Z a).
    generalize dependent (inject_Z (Z.pos b)). intros. nra. }
  assert (Lo : 2 ^ (la - lb - 1) <= a # b).
  { rewrite Hx'. apply Qle_shift_div_l; [exact Hb|].
    rewrite two_pred. unfold Qdiv.
    generalize dependent (2 ^ (la - lb)). generalize dependent (2 ^ la).
    generalize dependent (2 ^ lb). generalize dependent (inject_Z a).
    generalize dependent (inject_Z (Z.pos b)). intros.
    setoid_replace (/ 2) with (1#2) by reflexivity. nra. }
  destruct (Qle_bool (2 ^ (la - lb)) (a # b)) eqn:E.
  - apply Qle_bool_iff in E. split; assumption.
  - split; [exact Lo|].
    replace (la - lb - 1 + 1)%Z with (la - lb)%Z by lia.
    apply Qnot_le_lt. intros H. apply Qle_bool_iff in H. congruence.
Qed.


Lemma binade_mono x y : 0 < x -> x <= y -> (binade x <= binade y)%Z.
Proof.
  intros Hx Hxy.
  destruct (binade_spec x Hx) as [X1 X2].
  destruct (binade_spec y) as [Y1 Y2]; [lra|].
  assert (A : (binade x < binade y + 1)%Z).
  { apply Qpower_lt_compat_l_inv with (q := 2); [lra | reflexivity]. }
  lia.
Qed.

Lemma binade_comp x y : 0 < x -> x == y -> binade x = binade y.
Proof.
  intros Hx E. apply Z.le_antisymm; apply binade_mono; lra.
Qed.

Lemma ulp_scale e : 2 ^ e == 2 ^ 52 * 2 ^ (e - 52).
Proof.
  rewrite <- Qpower_plus by discriminate.
  now replace (52 + (e - 52))%Z with e by lia.
Qed.

(** The scaled significand lies between 2^52 and 2^53. *)
Lemma significand_bounds x : 0 < x ->
  (2 ^ 52 <= rne (x / 2 ^ (binade x - 52)) <= 2 ^ 53)%Z.
Proof.
  intros Hx. destruct (binade_spec x Hx) as [H1 H2].
  set (e := binade x) in *. pose proof (two_pos (e - 52)) as Pu.
  rewrite (ulp_scale e) in H1. rewrite two_succ, (ulp_scale e) in H2.
  split.
  - rewrite <- (rne_inject (2 ^ 52)). apply rne_mono.
    apply Qle_shift_div_l; [exact Pu|]. exact H1.
  - rewrite <- (rne_inject (2 ^ 53)). apply rne_mono.
    apply Qle_shift_div_r; [exact Pu|].
    change (inject_Z (2 ^ 53)) with (2 * 2 ^ 52). lra.
Qed.

Lemma round_pos_bounds x : 0 < x ->
  2 ^ binade x <= round_pos x /\ round_pos x <= 2 ^ (binade x + 1).
Proof.
  intros Hx. pose proof (significand_bounds x Hx) as [H1 H2].
  unfold round_pos. set (e := binade x) in *.
  set (n := rne _) in *. pose proof (two_pos (e - 52)) as Pu.
  rewrite Zle_Qle in H1, H2.
  change (inject_Z (2 ^ 52)) with (2 ^ 52) in H1.
  change (inject_Z (2 ^ 53)) with (2 * 2 ^ 52) in H2.
  rewrite two_succ, (ulp_scale e). split; nra.
Qed.

Lemma round_pos_pos x : 0 < x -> 0 < round_pos x.
Proof.
  intros Hx. destruct (round_pos_bounds x Hx) as [H _].
  pose proof (two_pos (binade x)). lra.
Qed.

Lemma round_pos_mono x y : 0 < x -> x <= y -> round_pos x <= round_pos y.
Proof.
  intros Hx Hxy. assert (Hy : 0 < y) by lra.
  pose proof (binade_mono x y Hx Hxy) as He.
  destruct (Z.eq_dec (binade x) (binade y)) as [E|N].
  - unfold round_pos. rewrite E.
    pose proof (two_pos (binade y - 52)) as Pu.
    apply Qmult_le_compat_r; [|lra].
    rewrite <- Zle_Qle. apply rne_mono.
    apply Qle_shift_div_l; [exact Pu|].
    unfold Qdiv. rewrite <- Qmult_assoc, (Qmult_comm (/ _)), Qmult_inv_r, Qmult_1_r; lra.
  - destruct (round_pos_bounds x Hx) as [_ X].
    destruct (round_pos_bounds y Hy) as [Y _].
    apply Qle_trans with (2 ^ (binade x + 1)); [exact X|].
    apply Qle_trans with (2 ^ binade y); [|exact Y].
    apply Qpower_le_compat_l; [lia | lra].
Qed.


Lemma Qnum_pos x : 0 < x <-> exists p, Qnum x = Z.pos p.
Proof.
  destruct x as [a b]. unfold Qlt. simpl. split.
  - intros H. destruct a; try lia. eexists; reflexivity.
  - intros [p ->]. lia.
Qed.

Lemma Qnum_neg x : x < 0 <-> exists p, Qnum x = Z.neg p.
Proof.
  destruct x as [a b]. unfold Qlt. simpl. split.
  - intros H. destruct a; try lia. eexists; reflexivity.
  - intros [p ->]. lia.
Qed.

Lemma Qnum_zero x : x == 0 <-> Qnum x = 0%Z.
Proof.
  destruct x as [a b]. unfold Qeq. simpl. lia.
Qed.

Lemma round_of_pos x : 0 < x -> round x = round_pos x.
Proof. intros H. apply Qnum_pos in H as [p H]. unfold round. now rewrite H. Qed.

Lemma round_of_neg x : x < 0 -> round x = - round_pos (- x).
Proof. intros H. apply Qnum_neg in H as [p H]. unfold round. now rewrite H. Qed.

Lemma round_of_zero x : x == 0 -> round x = 0.
Proof. intros H. apply Qnum_zero in H. unfold round. now rewrite H. Qed.

Lemma round_sign_pos x : 0 < x -> 0 < round x.
Proof. intros H. rewrite round_of_pos by exact H. now apply round_pos_pos. Qed.

Lemma round_sign_neg x : x < 0 -> round x < 0.
Proof.
  intros H. rewrite round_of_neg by exact H.
  assert (0 < round_pos (- x)) by (apply round_pos_pos; lra). lra.
Qed.

Theorem round_monotone x y : x <= y -> round x <= round y.
Proof.
  intros Hxy.
  destruct (Q_dec x 0) as [[Hx|Hx]|Hx], (Q_dec y 0) as [[Hy|Hy]|Hy];
    try (exfalso; lra).
  - rewrite (round_of_neg x Hx), (round_of_neg y Hy).
    assert (round_pos (- y) <= round_pos (- x)) by (apply round_pos_mono; lra).
    lra.
  - pose proof (round_sign_neg x Hx). pose proof (round_sign_pos y Hy). lra.
  - pose proof (round_sign_neg x Hx). rewrite (round_of_zero y Hy). lra.
  - rewrite (round_of_pos x Hx), (round_of_pos y Hy).
    now apply round_pos_mono.
  - pose proof (round_sign_pos y Hy). rewrite (round_of_zero x Hx). lra.
  - rewrite (round_of_zero x Hx), (round_of_zero y Hy). lra.
Qed.

Theorem round_comp x y : x == y -> round x == round y.
Proof. intros E. apply Qle_antisym; apply round_monotone; lra. Qed.



Lemma round_0 : round 0 == 0.
Proof. reflexivity. Qed.

Lemma round_1 : round 1 == 1.
Proof. vm_compute. reflexivity. Qed.

Set Implicit Arguments.
End PyFloatFacts.

(** ** The cache pool: the representation invariant *)

Module WeatherCacheFacts.
Import PyDict PyDictFacts KeyFacts WeatherCache.

Section Facts.
Variable Data : Type.
Implicit Types (p q : WeatherCachePool Data) (k key : string).

Lemma inv_init : pool_inv (init Data).
Proof.
  constructor; simpl; try constructor; try tauto.
Qed.

Lemma inv_with_stats f p : pool_inv p -> pool_inv (with_stats f p).
Proof. intros [H1 H2 H3 H4 H5 H6]. constructor; assumption. Qed.

Lemma inv_store_weather k e t p :
  pool_inv p -> startswith k "weather_" = true ->
  pool_inv (with_access (set k t) (with_weather (set k e) p)).
Proof.
  intros [H1 H2 H3 H4 H5 H6] Hk. constructor; simpl.
  - now apply wf_set.
  - assumption.
  - now apply wf_set.
  - intros k' Hin. apply In_keys_set in Hin. destruct Hin as [->|Hin]; auto.
  - assumption.
  - intros k'. rewrite !In_keys_set, H6. tauto.
Qed.

Lemma inv_store_city k e t p :
  pool_inv p -> startswith k "city_" = true ->
  pool_inv (with_access (set k t) (with_city (set k e) p)).
Proof.
  intros [H1 H2 H3 H4 H5 H6] Hk. constructor; simpl.
  - assumption.
  - now apply wf_set.
  - now apply wf_set.
  - assumption.
  - intros k' Hin. apply In_keys_set in Hin. destruct Hin as [->|Hin]; auto.
  - intros k'. rewrite !In_keys_set, H6. tauto.
Qed.

Lemma inv_drop_weather k p :
  pool_inv p -> startswith k "weather_" = true ->
  pool_inv (with_access (pop k) (with_weather (pop k) p)).
Proof.
  intros [H1 H2 H3 H4 H5 H6] Hk. constructor; simpl.
  - now apply wf_pop.
  - assumption.
  - now apply wf_pop.
  - intros k' Hin. apply In_keys_pop in Hin. apply H4, Hin.
  - assumption.
  - intros k'. rewrite !In_keys_pop, H6. split; [tauto|].
    intros [H|H]; [tauto|]. split; [tauto|]. intros ->.
    apply H5 in H. apply weather_not_city in Hk. congruence.
Qed.

Lemma inv_drop_city k p :
  pool_inv p -> startswith k "city_" = true ->
  pool_inv (with_access (pop k) (with_city (pop k) p)).
Proof.
  intros [H1 H2 H3 H4 H5 H6] Hk. constructor; simpl.
  - assumption.
  - now apply wf_pop.
  - now apply wf_pop.
  - assumption.
  - intros k' Hin. apply In_keys_pop in Hin. apply H5, Hin.
  - intros k'. rewrite !In_keys_pop, H6. split; [tauto|].
    intros [H|H]; [|tauto]. split; [tauto|]. intros ->.
    apply H4 in H. apply city_not_weather in Hk. congruence.
Qed.

Lemma inv_touch k t p :
  pool_inv p -> In k (keys (_access_order p)) ->
  pool_inv (with_access (set k t) p).
Proof.
  intros [H1 H2 H3 H4 H5 H6] Hk. constructor; simpl; try assumption.
  - now apply wf_set.
  - intros k'. rewrite In_keys_set, <- H6. split; [|tauto].
    intros [->|H]; assumption.
Qed.

(** A key with neither prefix is in no dictionary of a well-formed pool. *)
Lemma unprefixed_absent key p :
  pool_inv p -> startswith key "weather_" = false ->
  startswith key "city_" = false -> ~ In key (keys (_access_order p)).
Proof.
  intros [H1 H2 H3 H4 H5 H6] Hw Hc Hin. apply H6 in Hin.
  destruct Hin as [H|H]; [apply H4 in H | apply H5 in H]; congruence.
Qed.

Lemma inv_evict_key p key : pool_inv p -> pool_inv (evict_key p key).
Proof.
  intros Hp. unfold evict_key. apply inv_with_stats.
  destruct (startswith key "weather_") eqn:Hw.
  - now apply inv_drop_weather.
  - destruct (startswith key "city_") eqn:Hc.
    + now apply inv_drop_city.
    + unfold with_access.
      rewrite pop_absent by (eapply unprefixed_absent; eassumption).
      now destruct p.
Qed.

Lemma inv_fold_evict l p : pool_inv p -> pool_inv (fold_left (@evict_key Data) l p).
Proof.
  revert p. induction l as [|k l IH]; simpl; intros p Hp; [assumption|].
  apply IH. now apply inv_evict_key.
Qed.

Lemma inv_evict_lru cfg p : pool_inv p -> pool_inv (_evict_lru cfg p).
Proof.
  intros Hp. unfold _evict_lru.
  destruct (total_entries p <? max_cache_size cfg)%Z; [assumption|].
  now apply inv_fold_evict.
Qed.

Lemma inv_store_weather_entry cfg clk loc d p :
  pool_inv p -> pool_inv (store_weather cfg clk loc d p).
Proof.
  intros Hp. apply inv_store_weather; [assumption | apply weather_key_prefix].
Qed.

Lemma inv_store_city_entry cfg clk loc d p :
  pool_inv p -> pool_inv (store_city cfg clk loc d p).
Proof.
  intros Hp. apply inv_store_city; [assumption | apply city_key_prefix].
Qed.

Lemma inv_set_weather_data cfg clk loc d p :
  pool_inv p -> pool_inv (set_weather_data cfg clk loc d p).
Proof.
  intros Hp. apply inv_evict_lru. now apply inv_store_weather_entry.
Qed.

Lemma inv_set_city_info cfg clk loc d p :
  pool_inv p -> pool_inv (set_city_info cfg clk loc d p).
Proof.
  intros Hp. apply inv_evict_lru. now apply inv_store_city_entry.
Qed.

Lemma inv_get_weather_data clk loc p :
  pool_inv p -> pool_inv (snd (get_weather_data clk loc p)).
Proof.
  intros Hp. unfold get_weather_data.
  destruct (get _ (_weather_cache p)) as [e|] eqn:E.
  - destruct (negb (_is_expired clk e)); simpl; apply inv_with_stats.
    + apply inv_touch; [assumption|].
      apply (inv_index Hp). left. eapply get_Some_In; eassumption.
    + apply inv_drop_weather; [assumption | apply weather_key_prefix].
  - simpl. now apply inv_with_stats.
Qed.

Lemma inv_get_city_info clk loc p :
  pool_inv p -> pool_inv (snd (get_city_info clk loc p)).
Proof.
  intros Hp. unfold get_city_info.
  destruct (get _ (_city_cache p)) as [e|] eqn:E.
  - destruct (negb (_is_expired clk e)); simpl; apply inv_with_stats.
    + apply inv_touch; [assumption|].
      apply (inv_index Hp). right. eapply get_Some_In; eassumption.
    + apply inv_drop_city; [assumption | apply city_key_prefix].
  - simpl. now apply inv_with_stats.
Qed.

Lemma inv_clear_cache p : pool_inv p -> pool_inv (clear_cache p).
Proof.
  intros _. constructor; simpl; try constructor; try tauto.
Qed.

Lemma inv_fold_drop_weather l p :
  pool_inv p -> (forall k, In k l -> startswith k "weather_" = true) ->
  pool_inv (fold_left
              (fun q key => with_access (pop key) (with_weather (pop key) q)) l p).
Proof.
  revert p. induction l as [|k l IH]; simpl; intros p Hp Hl; [assumption|].
  apply IH; [apply inv_drop_weather | ]; auto.
Qed.

Lemma inv_fold_drop_city l p :
  pool_inv p -> (forall k, In k l -> startswith k "city_" = true) ->
  pool_inv (fold_left
              (fun q key => with_access (pop key) (with_city (pop key) q)) l p).
Proof.
  revert p. induction l as [|k l IH]; simpl; intros p Hp Hl; [assumption|].
  apply IH; [apply inv_drop_city | ]; auto.
Qed.

Lemma expired_keys_incl t (d : dict (CacheEntry Data)) k :
  In k (expired_keys t d) -> In k (keys d).
Proof.
  unfold expired_keys, keys. rewrite !in_map_iff.
  intros [kv [E H]]. apply filter_In in H. exists kv. tauto.
Qed.

Lemma inv_clean_expired clk p : pool_inv p -> pool_inv (clean_expired clk p).
Proof.
  intros Hp. unfold clean_expired.
  set (p1 := fold_left _ (expired_keys _ (_weather_cache p)) p).
  assert (Hp1 : pool_inv p1).
  { apply inv_fold_drop_weather; [assumption|].
    intros k Hk. apply (inv_weather_prefix Hp). eapply expired_keys_incl, Hk. }
  apply inv_fold_drop_city; [assumption|].
  intros k Hk. apply (inv_city_prefix Hp1). eapply expired_keys_incl, Hk.
Qed.

(** *** What one eviction step and the whole loop remove *)

Lemma absent_None V k (d : dict V) : ~ In k (keys d) -> get k d = None.
Proof. apply get_None_iff. Qed.

Lemma evict_key_weather p key k :
  pool_inv p ->
  get k (_weather_cache (evict_key p key)) =
  if String.eqb k key then None else get k (_weather_cache p).
Proof.
  intros Hp. unfold evict_key.
  destruct (startswith key "weather_") eqn:Hw; simpl.
  - destruct (String.eqb_spec k key) as [->|Hne];
      [apply get_pop_same | now apply get_pop_other].
  - assert (Hout : ~ In key (keys (_weather_cache p))).
    { intros Hin. apply (inv_weather_prefix Hp) in Hin. congruence. }
    destruct (startswith key "city_"); simpl;
      (destruct (String.eqb_spec k key) as [->|Hne];
       [now apply absent_None | reflexivity]).
Qed.

Lemma evict_key_city p key k :
  pool_inv p ->
  get k (_city_cache (evict_key p key)) =
  if String.eqb k key then None else get k (_city_cache p).
Proof.
  intros Hp. unfold evict_key.
  destruct (startswith key "weather_") eqn:Hw; simpl.
  - assert (Hout : ~ In key (keys (_city_cache p))).
    { intros Hin. apply (inv_city_prefix Hp) in Hin.
      apply weather_not_city in Hw. congruence. }
    destruct (String.eqb_spec k key) as [->|Hne];
      [now apply absent_None | reflexivity].
  - destruct (startswith key "city_") eqn:Hc; simpl.
    + destruct (String.eqb_spec k key) as [->|Hne];
        [apply get_pop_same | now apply get_pop_other].
    + assert (Hout : ~ In key (keys (_city_cache p))).
      { intros Hin. apply (inv_city_prefix Hp) in Hin. congruence. }
      destruct (String.eqb_spec k key) as [->|Hne];
        [now apply absent_None | reflexivity].
Qed.

Lemma evict_key_access p key :
  _access_order (evict_key p key) = pop key (_access_order p).
Proof.
  unfold evict_key.
  destruct (startswith key "weather_"); [reflexivity|].
  destruct (startswith key "city_"); reflexivity.
Qed.

Lemma evict_key_evictions p key :
  evictions (_stats (evict_key p key)) = S (evictions (_stats p)).
Proof.
  unfold evict_key.
  destruct (startswith key "weather_"); [reflexivity|].
  destruct (startswith key "city_"); reflexivity.
Qed.

Lemma evict_key_total p key :
  pool_inv p -> In key (keys (_access_order p)) ->
  (total_entries (evict_key p key) = total_entries p - 1)%Z.
Proof.
  intros Hp Hin. apply (inv_index Hp) in Hin. unfold total_entries, evict_key.
  destruct Hin as [Hin|Hin].
  - rewrite (inv_weather_prefix Hp _ Hin). simpl.
    pose proof (length_pop_present key (inv_weather_wf Hp) Hin). lia.
  - pose proof (inv_city_prefix Hp _ Hin) as Hc.
    rewrite (city_not_weather _ Hc), Hc. simpl.
    pose proof (length_pop_present key (inv_city_wf Hp) Hin). lia.
Qed.

Lemma fold_evict_weather l p k :
  pool_inv p ->
  get k (_weather_cache (fold_left (@evict_key Data) l p)) =
  if list_mem k l then None else get k (_weather_cache p).
Proof.
  revert p. induction l as [|k0 l IH]; simpl; intros p Hp; [reflexivity|].
  rewrite IH by now apply inv_evict_key.
  rewrite evict_key_weather by assumption.
  destruct (String.eqb k k0), (list_mem k l); reflexivity.
Qed.

Lemma fold_evict_city l p k :
  pool_inv p ->
  get k (_city_cache (fold_left (@evict_key Data) l p)) =
  if list_mem k l then None else get k (_city_cache p).
Proof.
  revert p. induction l as [|k0 l IH]; simpl; intros p Hp; [reflexivity|].
  rewrite IH by now apply inv_evict_key.
  rewrite evict_key_city by assumption.
  destruct (String.eqb k k0), (list_mem k l); reflexivity.
Qed.

Lemma fold_evict_access l p k :
  get k (_access_order (fold_left (@evict_key Data) l p)) =
  if list_mem k l then None else get k (_access_order p).
Proof.
  revert p. induction l as [|k0 l IH]; simpl; intros p; [reflexivity|].
  rewrite IH, evict_key_access.
  destruct (String.eqb_spec k k0) as [->|Hne]; simpl.
  - rewrite get_pop_same. now destruct (list_mem k0 l).
  - now rewrite get_pop_other.
Qed.

Lemma fold_evict_evictions l p :
  evictions (_stats (fold_left (@evict_key Data) l p)) =
  (evictions (_stats p) + List.length l)%nat.
Proof.
  revert p. induction l as [|k0 l IH]; simpl; intros p; [lia|].
  rewrite IH, evict_key_evictions. lia.
Qed.

Lemma fold_evict_total l p :
  pool_inv p -> NoDup l -> (forall k, In k l -> In k (keys (_access_order p))) ->
  (total_entries (fold_left (@evict_key Data) l p) =
   total_entries p - Z.of_nat (List.length l))%Z.
Proof.
  revert p. induction l as [|k0 l IH]; simpl; intros p Hp Hnd Hin; [lia|].
  inversion Hnd as [|? ? Hk0 Hnd']; subst.
  rewrite IH.
  - rewrite evict_key_total; [lia | assumption | apply Hin; now left].
  - now apply inv_evict_key.
  - assumption.
  - intros k Hk. rewrite evict_key_access, In_keys_pop. split.
    + apply Hin. now right.
    + intros ->. contradiction.
Qed.

(** In a well-formed pool the index has one record per stored entry. *)
Lemma inv_index_length p :
  pool_inv p ->
  Z.of_nat (len (_access_order p)) = total_entries p.
Proof.
  intros [H1 H2 H3 H4 H5 H6]. unfold total_entries, len. f_equal.
  rewrite <- (length_map fst (_access_order p)).
  rewrite <- (length_map fst (_weather_cache p)).
  rewrite <- (length_map fst (_city_cache p)), <- length_app.
  apply Permutation_length, NoDup_Permutation.
  - exact H3.
  - apply NoDup_app; [exact H1 | exact H2 |].
    intros k Hw Hc. apply H4 in Hw. apply H5 in Hc.
    apply weather_not_city in Hw. congruence.
  - intros k. rewrite in_app_iff. apply H6.
Qed.

(** Every pool that the operations can produce is well formed. *)
Lemma reachable_inv cfg p : reachable cfg p -> pool_inv p.
Proof.
  induction 1.
  - apply inv_init.
  - now apply inv_set_weather_data.
  - now apply inv_set_city_info.
  - now apply inv_get_weather_data.
  - now apply inv_get_city_info.
  - now apply inv_evict_lru.
  - now apply inv_clear_cache.
  - now apply inv_clean_expired.
Qed.

(** *** The eviction as a whole *)

Lemma slice_to_nonneg A n (l : list A) :
  (0 <= n)%Z -> slice_to n l = firstn (Z.to_nat n) l.
Proof.
  intros H. unfold slice_to. now apply Z.leb_le in H as ->.
Qed.

Lemma in_firstn A n (l : list A) x : In x (firstn n l) -> In x l.
Proof.
  intros H. rewrite <- (firstn_skipn n l). apply in_or_app. now left.
Qed.

Lemma evict_lru_below cfg p :
  (total_entries p < max_cache_size cfg)%Z -> _evict_lru cfg p = p.
Proof.
  intros H. unfold _evict_lru. now apply Z.ltb_lt in H as ->.
Qed.

Lemma evict_lru_above cfg p :
  (max_cache_size cfg <= total_entries p)%Z ->
  _evict_lru cfg p =
  fold_left (@evict_key Data)
    (map fst (firstn (Z.to_nat (total_entries p - max_cache_size cfg + 1))
                     (sorted snd (_access_order p)))) p.
Proof.
  intros H. unfold _evict_lru.
  assert (E : (total_entries p <? max_cache_size cfg)%Z = false)
    by (apply Z.ltb_ge; lia).
  rewrite E, slice_to_nonneg by lia. reflexivity.
Qed.

Lemma evict_lru_evicts_available cfg q :
  pool_inv q -> evicts_oldest_available cfg q (_evict_lru cfg q).
Proof.
  intros Hq. split; [intros H; apply evict_lru_below; exact H|].
  intros Hge. change (max_cache_size cfg <= total_entries q)%Z in Hge.
  rewrite evict_lru_above by assumption.
  set (n := Z.to_nat (total_entries q - max_cache_size cfg + 1)).
  set (S := sorted snd (_access_order q)).
  assert (HS : Permutation S (_access_order q)) by apply SortedFacts.sorted_perm.
  assert (HlenS : Z.of_nat (List.length S) = total_entries q).
  { rewrite (Permutation_length HS). apply (inv_index_length Hq). }
  assert (Hlen : List.length (firstn n S) = Nat.min n (List.length S))
    by apply length_firstn.
  assert (Hnd : NoDup (map fst (firstn n S))).
  { apply (NoDup_app_remove_r _ (map fst (skipn n S))).
    rewrite <- map_app, firstn_skipn.
    eapply Permutation_NoDup; [symmetry; apply Permutation_map, HS|].
    apply (inv_access_wf Hq). }
  assert (Hin : forall k, In k (map fst (firstn n S)) ->
                          In k (keys (_access_order q))).
  { intros k Hk. apply in_map_iff in Hk. destruct Hk as [kv [<- Hkv]].
    apply in_firstn in Hkv. apply in_map. eapply Permutation_in; eassumption. }
  exists (firstn n S), (skipn n S). rewrite firstn_skipn. repeat split.
  - exact HS.
  - apply SortedFacts.sorted_sorted.
  - rewrite Hlen.
    change (Z.of_nat (len (_weather_cache q) + len (_city_cache q)))
      with (total_entries q).
    unfold n. lia.
  - intros k. now apply fold_evict_weather.
  - intros k. now apply fold_evict_city.
  - intros k. apply fold_evict_access.
  - now rewrite fold_evict_evictions, length_map.
  - change (total_entries (fold_left (@evict_key Data) (map fst (firstn n S)) q)
            = (total_entries q - Z.of_nat (List.length (firstn n S)))%Z).
    rewrite fold_evict_total, length_map; trivial.
Qed.

(** The number of victims is all that tells one eviction from another. *)
Lemma evicts_count f g cfg q q' :
  (let count := Z.of_nat (len (_weather_cache q) + len (_city_cache q)) in
   (max_cache_size cfg <= count)%Z ->
   f count (max_cache_size cfg) = g count (max_cache_size cfg)) ->
  evicts f cfg q q' -> evicts g cfg q q'.
Proof.
  intros E [Hlow Hhigh]. split; [exact Hlow|].
  intros Hge. destruct (Hhigh Hge) as (v & s & H1 & H2 & H3 & H).
  exists v, s. split; [exact H1 | split; [exact H2 | split; [|exact H]]].
  rewrite H3. apply E. exact Hge.
Qed.

Lemma evict_lru_evicts_oldest cfg q :
  pool_inv q -> (1 <= max_cache_size cfg)%Z ->
  evicts_oldest cfg q (_evict_lru cfg q).
Proof.
  intros Hq Hcap. unfold evicts_oldest.
  apply evicts_count with (2 := evict_lru_evicts_available cfg Hq).
  intros count Hge. lia.
Qed.

(** After a call of [_evict_lru] in a well-formed pool fewer entries than the
    capacity remain. *)
Lemma evict_lru_leaves_room cfg q :
  pool_inv q -> (1 <= max_cache_size cfg)%Z ->
  (total_entries (_evict_lru cfg q) <= max_cache_size cfg - 1)%Z.
Proof.
  intros Hq Hcap.
  destruct (evict_lru_evicts_oldest cfg Hq Hcap) as [Hlow Hhigh].
  destruct (Z.lt_ge_cases (total_entries q) (max_cache_size cfg)) as [H|H].
  - rewrite Hlow by assumption. lia.
  - destruct (Hhigh H) as (v & s & _ & _ & Hn & _ & _ & _ & _ & Ht).
    unfold total_entries in *. lia.
Qed.

(** An eviction that leaves the counter alone has removed nothing. *)
Lemma evict_lru_counter_unchanged cfg q :
  evictions (_stats (_evict_lru cfg q)) = evictions (_stats q) ->
  _evict_lru cfg q = q.
Proof.
  unfold _evict_lru.
  destruct (total_entries q <? max_cache_size cfg)%Z; [reflexivity|].
  rewrite fold_evict_evictions.
  destruct (map fst _) as [|k l]; simpl; [reflexivity | lia].
Qed.

End Facts.
End WeatherCacheFacts.

(** ** The cache pool: expiry, eviction and the refresh hint *)

Module WeatherCacheProperties.
Import PyDict PyDictFacts KeyFacts WeatherCache WeatherCacheFacts.

Section Properties.
Variable Data : Type.
Implicit Types (p q : WeatherCachePool Data) (e : CacheEntry Data).

Lemma is_expired_true clk e :
  expires_at e < time_time clk -> _is_expired clk e = true.
Proof.
  intros H. unfold _is_expired.
  destruct (Qle_bool (time_time clk) (expires_at e)) eqn:E; [|reflexivity].
  apply Qle_bool_iff in E. exfalso. eapply Qlt_not_le; eassumption.
Qed.

Lemma is_expired_false clk e :
  time_time clk <= expires_at e -> _is_expired clk e = false.
Proof.
  intros H. unfold _is_expired. apply Qle_bool_iff in H. now rewrite H.
Qed.

Lemma get_weather_expired clk loc q e :
  get (_generate_weather_key clk loc true) (_weather_cache q) = Some e ->
  expires_at e < time_time clk ->
  fst (get_weather_data clk loc q) = None.
Proof.
  intros Hget Hexp. unfold get_weather_data.
  now rewrite Hget, is_expired_true.
Qed.

Lemma get_city_expired clk loc q e :
  get (_generate_city_key loc) (_city_cache q) = Some e ->
  expires_at e < time_time clk ->
  fst (get_city_info clk loc q) = None.
Proof.
  intros Hget Hexp. unfold get_city_info.
  now rewrite Hget, is_expired_true.
Qed.

Lemma get_weather_fresh cfg clk0 clk loc d p :
  evictions (_stats (set_weather_data cfg clk0 loc d p)) = evictions (_stats p) ->
  strftime_hour clk = strftime_hour clk0 ->
  time_time clk <= time_time clk0 + weather_cache_ttl cfg ->
  fst (get_weather_data clk loc (set_weather_data cfg clk0 loc d p)) = Some d.
Proof.
  intros Hev Hhour Hnow. unfold set_weather_data in *.
  rewrite evict_lru_counter_unchanged by exact Hev.
  unfold get_weather_data, store_weather, _generate_weather_key. simpl.
  rewrite Hhour, get_set_same, is_expired_false by exact Hnow.
  reflexivity.
Qed.

Lemma get_city_fresh cfg clk0 clk loc d p :
  evictions (_stats (set_city_info cfg clk0 loc d p)) = evictions (_stats p) ->
  time_time clk <= time_time clk0 + city_cache_ttl cfg ->
  fst (get_city_info clk loc (set_city_info cfg clk0 loc d p)) = Some d.
Proof.
  intros Hev Hnow. unfold set_city_info in *.
  rewrite evict_lru_counter_unchanged by exact Hev.
  unfold get_city_info, store_city. simpl.
  rewrite get_set_same, is_expired_false by exact Hnow.
  reflexivity.
Qed.

(** C2 (as amended). [Get] reports not-found for every entry whose
    [expires_at] lies strictly before [now] (at [now = expires_at] the entry
    is still served).  Directly after the [Put] that created an entry, if
    that [Put] evicted nothing, [Get] returns the stored value at every
    [now <= expires_at] at which the same cache key is derived: for a weather
    entry the clock hour of the [Get] must be that of the [Put]; a city
    entry has no time bucket. *)
Theorem ttl_correctness cfg clk0 clk loc d p :
  (forall q e,
      get (_generate_weather_key clk loc true) (_weather_cache q) = Some e ->
      expires_at e < time_time clk ->
      fst (get_weather_data clk loc q) = None) /\
  (forall q e,
      get (_generate_city_key loc) (_city_cache q) = Some e ->
      expires_at e < time_time clk ->
      fst (get_city_info clk loc q) = None) /\
  (evictions (_stats (set_weather_data cfg clk0 loc d p)) = evictions (_stats p) ->
   strftime_hour clk = strftime_hour clk0 ->
   time_time clk <= time_time clk0 + weather_cache_ttl cfg ->
   fst (get_weather_data clk loc (set_weather_data cfg clk0 loc d p)) = Some d) /\
  (evictions (_stats (set_city_info cfg clk0 loc d p)) = evictions (_stats p) ->
   time_time clk <= time_time clk0 + city_cache_ttl cfg ->
   fst (get_city_info clk loc (set_city_info cfg clk0 loc d p)) = Some d).
Proof.
  split; [|split; [|split]].
  - intros q e. apply get_weather_expired.
  - intros q e. apply get_city_expired.
  - apply get_weather_fresh.
  - apply get_city_fresh.
Qed.

(** C4 (as amended). Eviction runs after every [Put]: each setter is its
    two assignments followed by [_evict_lru].  That eviction removes nothing
    while the count of entries is below the capacity, and otherwise the
    oldest records of the index, from the stores and from the index,
    counting one eviction per removed entry: [count - capacity + 1] of them,
    or all [count] when there are fewer, which is the case for a capacity
    of zero or less.  For a capacity of at least one the victims are exactly
    the [count - capacity + 1] oldest. *)
Theorem eviction_after_put cfg clk loc d p :
  pool_inv p ->
  (evicts_oldest_available cfg (store_weather cfg clk loc d p)
                               (set_weather_data cfg clk loc d p) /\
   evicts_oldest_available cfg (store_city cfg clk loc d p)
                               (set_city_info cfg clk loc d p)) /\
  ((1 <= max_cache_size cfg)%Z ->
   evicts_oldest cfg (store_weather cfg clk loc d p)
                     (set_weather_data cfg clk loc d p) /\
   evicts_oldest cfg (store_city cfg clk loc d p)
                     (set_city_info cfg clk loc d p)) /\
  ((max_cache_size cfg <= 0)%Z ->
   total_entries (set_weather_data cfg clk loc d p) = 0%Z /\
   total_entries (set_city_info cfg clk loc d p) = 0%Z).
Proof.
  intros Hp.
  pose proof (inv_store_weather_entry cfg clk loc d Hp) as Hw.
  pose proof (inv_store_city_entry cfg clk loc d Hp) as Hc.
  split; [|split].
  - split; apply evict_lru_evicts_available; assumption.
  - intros Hcap. split; apply evict_lru_evicts_oldest; assumption.
  - intros Hcap. unfold set_weather_data, set_city_info. split.
    + destruct (evict_lru_evicts_available cfg Hw) as [_ H].
      destruct H as (v & s & _ & _ & Hn & _ & _ & _ & _ & Ht); [lia|].
      unfold total_entries. lia.
    + destruct (evict_lru_evicts_available cfg Hc) as [_ H].
      destruct H as (v & s & _ & _ & Hn & _ & _ & _ & _ & Ht); [lia|].
      unfold total_entries. lia.
Qed.

(** C10. In every pool that the operations produce, the keys of the access
    index are exactly the keys of the weather store together with the keys
    of the city store. *)
Theorem access_index_matches_stores cfg p :
  reachable cfg p ->
  forall k, In k (keys (_access_order p)) <->
            In k (keys (_weather_cache p)) \/ In k (keys (_city_cache p)).
Proof.
  intros Hr. apply inv_index. eapply reachable_inv; eassumption.
Qed.

(** The hint in terms of the rounded quantities. *)
Lemma need_refresh_true cfg clk e th :
  _need_refresh cfg clk e th = true <->
  enable_async_refresh cfg = true /\
  PyFloat.sub (expires_at e) (time_time clk)
  < PyFloat.mul (PyFloat.sub (expires_at e) (created_at e)) (PyFloat.sub 1 th).
Proof.
  unfold _need_refresh. destruct (enable_async_refresh cfg); simpl.
  - rewrite negb_true_iff, <- not_true_iff_false, Qle_bool_iff. split.
    + intros H. split; [reflexivity|]. now apply Qnot_le_lt.
    + intros [_ H] Hle. revert H. now apply Qle_not_lt.
  - split; [discriminate | intros [H _]; discriminate].
Qed.



End Properties.
End WeatherCacheProperties.

(** ** The cache pool on concrete runs *)

Module WeatherCacheExamples.
Import PyDict WeatherCache WeatherCacheFacts WeatherCacheProperties.
Open Scope string_scope.

Lemma pool_paris_reachable : reachable default_config pool_paris.
Proof. unfold pool_paris. apply reach_set_city, reach_set_weather, reach_init. Defined.

Lemma pool_A_reachable : reachable (config_capacity 2) pool_A.
Proof. unfold pool_A. apply reach_set_weather, reach_init. Defined.

(** The design document's example of the expiry rule, run on the code: an
    entry stored at 10 s with the default TTL is served at 20 s. *)
Lemma ttl_correctness_witness :
  evictions (_stats (set_weather_data default_config (clock_h0 10) "Paris"
                       "sunny" (init string))) = evictions (_stats (init string)) /\
  strftime_hour (clock_h0 20) = strftime_hour (clock_h0 10) /\
  time_time (clock_h0 20) <= time_time (clock_h0 10) + weather_cache_ttl default_config /\
  fst (get_weather_data (clock_h0 20) "Paris"
         (set_weather_data default_config (clock_h0 10) "Paris" "sunny"
            (init string))) = Some "sunny".
Proof.
  assert (H1 : evictions (_stats (set_weather_data default_config (clock_h0 10)
                 "Paris" "sunny" (init string))) = evictions (_stats (init string)))
    by reflexivity.
  assert (H2 : strftime_hour (clock_h0 20) = strftime_hour (clock_h0 10))
    by reflexivity.
  assert (H3 : time_time (clock_h0 20)
               <= time_time (clock_h0 10) + weather_cache_ttl default_config)
    by (vm_compute; discriminate).
  split; [exact H1 | split; [exact H2 | split; [exact H3 |]]].
  exact (proj1 (proj2 (proj2
    (ttl_correctness default_config (clock_h0 10) (clock_h0 20) "Paris"
       "sunny" (init string)))) H1 H2 H3).
Defined.

(** C2, as stated, fails twice.  With a weather TTL of 60 s, an entry stored
    at 0 s expires at 60 s, and a [Get] at 60 s (so [now >= expires_at]) still
    returns it.  With the default TTL, an entry stored at 3540 s, in the
    first clock hour, expires at 7140 s; no eviction took place, and a [Get]
    at 3630 s, in the second clock hour, misses. *)
Lemma ttl_claim_counterexample :
  let p1 := set_weather_data (config_weather_ttl 60) (clock_h0 0) "Paris"
              "sunny" (init string) in
  let p2 := set_weather_data default_config (clock_h0 3540) "Paris"
              "sunny" (init string) in
  (get "weather_Paris_19700101_00" (_weather_cache p1)
     = Some (mkEntry "sunny" 0 60 "Paris") /\
   60 <= time_time (clock_h0 60) /\
   fst (get_weather_data (clock_h0 60) "Paris" p1) = Some "sunny") /\
  (get "weather_Paris_19700101_00" (_weather_cache p2)
     = Some (mkEntry "sunny" 3540 7140 "Paris") /\
   evictions (_stats p2) = 0%nat /\
   time_time (clock_h1 3630) < 7140 /\
   fst (get_weather_data (clock_h1 3630) "Paris" p2) = None).
Proof.
  repeat split; try (vm_compute; reflexivity); vm_compute; discriminate.
Qed.

(** C3 on the code: with capacity 2 and three distinct keys inserted at
    1 s, 2 s and 3 s, the insertion of the second key already evicts the
    first and the insertion of the third evicts the second; only the last
    key is left, and two evictions were counted. *)
Lemma lru_capacity_two_keeps_one :
  keys (_weather_cache pool_AB) = ["weather_B_19700101_00"] /\
  keys (_weather_cache pool_ABC) = ["weather_C_19700101_00"] /\
  evictions (_stats pool_ABC) = 2%nat /\
  fst (get_weather_data (clock_h0 4) "A" pool_ABC) = None /\
  fst (get_weather_data (clock_h0 4) "B" pool_ABC) = None /\
  fst (get_weather_data (clock_h0 4) "C" pool_ABC) = Some "c".
Proof. repeat split; vm_compute; reflexivity. Qed.

(** With capacity 1 a [Put] evicts the entry it has just stored. *)
Lemma lru_capacity_one_keeps_none :
  let p := set_weather_data (config_capacity 1) (clock_h0 1) "A" "a"
             (init string) in
  _weather_cache p = [] /\
  fst (get_weather_data (clock_h0 2) "A" p) = None.
Proof. split; vm_compute; reflexivity. Qed.

(** A pool of capacity 2 that holds one entry: the next [Put] reaches the
    capacity and its eviction removes the older entry. *)
Lemma eviction_after_put_witness :
  pool_inv pool_A /\ (1 <= max_cache_size (config_capacity 2))%Z /\
  evicts_oldest_available (config_capacity 2)
    (store_weather (config_capacity 2) (clock_h0 2) "B" "b" pool_A) pool_AB /\
  evicts_oldest (config_capacity 2)
    (store_weather (config_capacity 2) (clock_h0 2) "B" "b" pool_A) pool_AB /\
  evicts_oldest (config_capacity 2)
    (store_city (config_capacity 2) (clock_h0 2) "B" "b" pool_A)
    (set_city_info (config_capacity 2) (clock_h0 2) "B" "b" pool_A).
Proof.
  assert (H1 : pool_inv pool_A) by exact (reachable_inv pool_A_reachable).
  assert (H2 : (1 <= max_cache_size (config_capacity 2))%Z) by (simpl; lia).
  split; [exact H1 | split; [exact H2 |]].
  destruct (eviction_after_put (config_capacity 2) (clock_h0 2) "B" "b" H1)
    as ((Ha & _) & Ho & _).
  split; [exact Ha | exact (Ho H2)].
Defined.

(** C4, as stated, fails for a capacity of zero.  After the first [Put] the
    count is 1, at the capacity or above, and the claim has the
    [1 - 0 + 1 = 2] oldest entries removed and two evictions counted; the
    index holds one record, the code removes that one and counts one
    eviction.  The pool is empty after every [Put]. *)
Lemma eviction_claim_counterexample :
  let cfg := config_capacity 0 in
  let q := store_weather cfg (clock_h0 1) "A" "a" (init string) in
  let q' := set_weather_data cfg (clock_h0 1) "A" "a" (init string) in
  (max_cache_size cfg <= total_entries q)%Z /\
  (total_entries q - max_cache_size cfg + 1 = 2)%Z /\
  List.length (_access_order q) = 1%nat /\
  evictions (_stats q') = 1%nat /\
  total_entries q' = 0%Z /\
  ~ evicts_oldest cfg q q'.
Proof.
  intros cfg q q'.
  split; [vm_compute; discriminate|].
  split; [reflexivity | split; [reflexivity | split; [reflexivity |]]].
  split; [reflexivity|].
  intros [_ H]. destruct H as (v & s & Hperm & _ & Hlen & _).
  - vm_compute. discriminate.
  - apply Permutation_length in Hperm. rewrite length_app in Hperm.
    change (Z.of_nat (List.length v) = 2%Z) in Hlen.
    change (List.length (_access_order q)) with 1%nat in Hperm. lia.
Qed.

(** The index of a pool with one weather and one city entry. *)
Lemma access_index_matches_stores_witness :
  reachable default_config pool_paris /\
  (In "city_Paris" (keys (_access_order pool_paris)) <->
   In "city_Paris" (keys (_weather_cache pool_paris)) \/
   In "city_Paris" (keys (_city_cache pool_paris))).
Proof.
  split; [exact pool_paris_reachable |].
  exact (access_index_matches_stores pool_paris_reachable "city_Paris").
Defined.



End WeatherCacheExamples.

(** ** Strings *)

Module StringFacts.
Import KeyFacts.
Open Scope string_scope.

Lemma append_nil_r s : s ++ "" = s.
Proof. induction s as [|c s IH]; simpl; [reflexivity | now rewrite IH]. Qed.

Lemma append_assoc a b c : (a ++ b) ++ c = a ++ (b ++ c).
Proof. induction a as [|x a IH]; simpl; [reflexivity | now rewrite IH]. Qed.

Lemma occurs_cons c c' s :
  occurs c (String c' s) = Ascii.eqb c c' || occurs c s.
Proof. reflexivity. Qed.

Lemma occurs_app c a b : occurs c (a ++ b) = occurs c a || occurs c b.
Proof.
  induction a as [|x a IH]; simpl; [reflexivity|].
  now rewrite IH, orb_assoc.
Qed.

Lemma join_cons sep x l :
  l <> [] -> join sep (x :: l) = x ++ sep ++ join sep l.
Proof. destruct l; [contradiction | reflexivity]. Qed.

Lemma join_empty_cons x l : join "" (x :: l) = x ++ join "" l.
Proof. destruct l; simpl; [now rewrite append_nil_r | reflexivity]. Qed.

Lemma join_empty_snoc l x : join "" (l ++ [x]) = join "" l ++ x.
Proof.
  induction l as [|y l IH].
  - reflexivity.
  - change ((y :: l) ++ [x])%list with (y :: (l ++ [x]))%list.
    now rewrite !join_empty_cons, IH, append_assoc.
Qed.

Lemma occurs_join c sep l :
  occurs c sep = false -> (forall x, In x l -> occurs c x = false) ->
  occurs c (join sep l) = false.
Proof.
  intros Hsep. induction l as [|x l IH]; intros Hl; [reflexivity|].
  destruct l as [|y l]; [apply Hl; now left|].
  rewrite join_cons by discriminate.
  rewrite !occurs_app, Hsep, (Hl x) by now left.
  simpl. apply IH. intros z Hz. apply Hl. now right.
Qed.

(** *** The ways to cut a string in two *)



(** *** Substrings *)

Lemma contains_cons p c s :
  contains p (String c s) = String.prefix p (String c s) || contains p s.
Proof. reflexivity. Qed.

Lemma contains_prefix p s : String.prefix p s = true -> contains p s = true.
Proof.
  intros H. destruct s as [|c s].
  - change (contains p "") with (String.prefix p "" || false). now rewrite H.
  - rewrite contains_cons. now rewrite H.
Qed.

Lemma contains_app_r p w s : contains p s = true -> contains p (w ++ s) = true.
Proof.
  intros H. induction w as [|c w IH]; [exact H|].
  simpl append. rewrite contains_cons, IH. apply orb_true_r.
Qed.

(** A prefix of a concatenation lies in the first part or runs into the
    second. *)
Lemma prefix_app_split p : forall a b,
  String.prefix p (a ++ b) = true ->
  String.prefix p a = true \/
  exists p2, p = a ++ p2 /\ String.prefix p2 b = true.
Proof.
  induction p as [|x p IH]; intros a b H.
  - left. apply prefix_nil.
  - destruct a as [|c a].
    + right. exists (String x p). split; [reflexivity | exact H].
    + simpl append in H. rewrite prefix_cons in H.
      destruct (ascii_dec x c) as [<-|]; [|discriminate].
      destruct (IH a b H) as [Hl | [p2 [-> Hr]]].
      * left. rewrite prefix_cons.
        destruct (ascii_dec x x); [exact Hl | contradiction].
      * right. exists p2. split; [reflexivity | exact Hr].
Qed.

(** *** [str.replace] with the placeholder as pattern *)

Lemma prefix_token_bracket c s :
  Ascii.eqb "[" c = false -> String.prefix token (String c s) = false.
Proof.
  intros H. unfold token. rewrite prefix_cons.
  destruct (ascii_dec "[" c) as [<-|]; [|reflexivity].
  now rewrite Ascii.eqb_refl in H.
Qed.

(** The equation of [str.replace] at a character. *)
Lemma replace_token_cons new c s :
  str_replace_from 0 token new (String c s) =
  if String.prefix token (String c s)
  then new ++ str_replace_from 8 token new s
  else String c (str_replace_from 0 token new s).
Proof. reflexivity. Qed.

(** A description without the placeholder is left as it is. *)
Lemma replace_no_token new s :
  contains token s = false -> str_replace s token new = s.
Proof.
  unfold str_replace. induction s as [|c s IH]; intros H; [reflexivity|].
  rewrite contains_cons in H.
  apply orb_false_elim in H. destruct H as [Hp Hs].
  now rewrite replace_token_cons, Hp, IH.
Qed.

(** The placeholder does not overlap itself: an occurrence that starts in
    a text in front of a placeholder lies in that text. *)
Lemma token_no_border a r :
  String.prefix token (a ++ token ++ r) = true ->
  a = "" \/ String.prefix token a = true.
Proof.
  intros H. destruct (prefix_app_split _ _ _ H) as [Hl|[p2 [E Hr]]]; [now right|].
  destruct a as [|c a]; [now left|].
  destruct p2 as [|y p2].
  - right. rewrite append_nil_r in E. rewrite <- E. apply (prefix_app token "").
  - exfalso. unfold token in E. simpl in E. injection E as <- E.
    assert (Ho : occurs "[" (a ++ String y p2) = false)
      by (rewrite <- E; reflexivity).
    rewrite occurs_app in Ho. apply orb_false_elim in Ho. destruct Ho as [_ Ho].
    unfold token in Hr. simpl append in Hr. apply prefix_first_char in Hr.
    subst y. simpl in Ho. discriminate.
Qed.

(** A placeholder behind a text without placeholder is replaced, and the
    replacement goes on behind it. *)
Lemma replace_segment new x r :
  contains token x = false ->
  str_replace (x ++ token ++ r) token new =
  x ++ new ++ str_replace r token new.
Proof.
  unfold str_replace. induction x as [|c x IH]; intros H.
  - unfold token. simpl. now rewrite prefix_nil.
  - rewrite contains_cons in H.
    apply orb_false_elim in H. destruct H as [Hp Hx].
    change (String c x ++ token ++ r) with (String c (x ++ token ++ r)).
    rewrite replace_token_cons.
    assert (E : String.prefix token (String c (x ++ token ++ r)) = false).
    { destruct (String.prefix token (String c (x ++ token ++ r))) eqn:Q;
        [|reflexivity].
      change (String c (x ++ token ++ r)) with (String c x ++ token ++ r) in Q.
      apply token_no_border in Q. destruct Q as [Q|Q]; [discriminate | congruence]. }
    rewrite E, IH by exact Hx. reflexivity.
Qed.

(** What [str.replace] does: the texts between the placeholders stay and
    every placeholder becomes the new text. *)
Lemma replace_join new segs :
  Forall (fun s => contains token s = false) segs ->
  str_replace (join token segs) token new = join new segs.
Proof.
  induction 1 as [|x segs Hx Hs IH]; [reflexivity|].
  destruct segs as [|y segs].
  - simpl. now apply replace_no_token.
  - rewrite !join_cons by discriminate.
    rewrite replace_segment by exact Hx. now rewrite IH.
Qed.

(** A new text without an opening bracket starts no placeholder. *)
Lemma contains_token_skip new x :
  occurs "[" new = false -> contains token (new ++ x) = contains token x.
Proof.
  induction new as [|c new IH]; intros H; [reflexivity|].
  rewrite occurs_cons in H. apply orb_false_elim in H. destruct H as [Hc Hn].
  simpl append. rewrite contains_cons, prefix_token_bracket by exact Hc.
  simpl. now apply IH.
Qed.

(** A text that ends with a closing bracket and starts a string which opens
    with a new text without closing bracket: the new text opens it. *)
Lemma prefix_before_close u : forall new x,
  occurs "]" new = false ->
  String.prefix (u ++ "]") (new ++ x) = true ->
  String.prefix new u = true.
Proof.
  induction u as [|a u IH]; intros new x Hn H.
  - destruct new as [|n new]; [reflexivity|].
    simpl append in H. rewrite prefix_cons in H.
    destruct (ascii_dec "]" n) as [<-|]; [|discriminate].
    rewrite occurs_cons, Ascii.eqb_refl in Hn. discriminate.
  - destruct new as [|n new]; [reflexivity|].
    rewrite occurs_cons in Hn. apply orb_false_elim in Hn. destruct Hn as [_ Hn].
    simpl append in H. rewrite prefix_cons in H.
    destruct (ascii_dec a n) as [<-|]; [|discriminate].
    rewrite prefix_cons. destruct (ascii_dec a a); [|contradiction].
    now apply (IH new x).
Qed.

(** The replacement completes no placeholder: if the rest of a placeholder
    opens the result, it opened the string. *)
Lemma replace_keeps_tail new :
  occurs "]" new = false -> contains new "plugins" = false ->
  forall s w u, "plugins" = w ++ u ->
    String.prefix (u ++ "]") (str_replace_from 0 token new s) = true ->
    String.prefix (u ++ "]") s = true.
Proof.
  intros Hn Hsub. induction s as [|c s IH]; intros w u Hw H.
  - destruct u; discriminate.
  - rewrite replace_token_cons in H.
    destruct (String.prefix token (String c s)) eqn:Hp.
    + exfalso. apply prefix_before_close in H; [|exact Hn].
      assert (contains new "plugins" = true).
      { rewrite Hw. apply contains_app_r. now apply contains_prefix. }
      congruence.
    + destruct u as [|a u].
      * simpl append in *. rewrite prefix_cons in *.
        destruct (ascii_dec "]" c); [apply prefix_nil | discriminate].
      * simpl append in *. rewrite prefix_cons in *.
        destruct (ascii_dec a c); [|discriminate].
        apply (IH (w ++ String a "") u); [|exact H].
        rewrite Hw, append_assoc. reflexivity.
Qed.

(** After the replacement by a text without bracket that is no part of
    [plugins], no placeholder is left. *)
Lemma replace_leaves_no_token new :
  occurs "[" new = false -> occurs "]" new = false ->
  contains new "plugins" = false ->
  forall s skip, contains token (str_replace_from skip token new s) = false.
Proof.
  intros Ho Hc Hsub. induction s as [|c s IH]; intros skip.
  - destruct skip; reflexivity.
  - destruct skip as [|k]; [|apply IH].
    rewrite replace_token_cons.
    destruct (String.prefix token (String c s)) eqn:Hp.
    + rewrite contains_token_skip by exact Ho. apply IH.
    + rewrite contains_cons, IH, orb_false_r.
      destruct (String.prefix token (String c (str_replace_from 0 token new s)))
        eqn:Hq; [|reflexivity].
      exfalso. unfold token in Hq, Hp. rewrite prefix_cons in Hq, Hp.
      destruct (ascii_dec "[" c); [|discriminate].
      apply (@replace_keeps_tail new Hc Hsub s "" "plugins" eq_refl) in Hq.
      change ("plugins" ++ "]") with "plugins]" in Hq. congruence.
Qed.

End StringFacts.

(** ** The capability set and the description of [plugin_loader] *)

Module RegistryProperties.
Import PyDict KeyFacts StringFacts FunctionHandler.
Open Scope string_scope.

Lemma list_mem_In x l : list_mem x l = true <-> In x l.
Proof.
  unfold list_mem. rewrite existsb_exists. split.
  - intros [y [Hy E]]. apply String.eqb_eq in E. now subst.
  - intros H. exists x. split; [exact H | apply String.eqb_refl].
Qed.

Lemma list_mem_app x l l' : list_mem x (l ++ l') = list_mem x l || list_mem x l'.
Proof. apply existsb_app. Qed.

Lemma list_mem_count x l :
  count_occ string_dec l x = if list_mem x l then Nat.max 1 (count_occ string_dec l x) else 0%nat.
Proof.
  destruct (list_mem x l) eqn:E.
  - apply list_mem_In in E. apply (count_occ_In string_dec) in E. lia.
  - apply count_occ_not_In. intros H. apply list_mem_In in H. congruence.
Qed.

Lemma force_plugin_step plugin l lg :
  force_plugin plugin (l, lg) =
  (l ++ (if list_mem plugin l then [] else [plugin]),
   lg ++ (if list_mem plugin l then [] else [(INFO, ForcedPlugin plugin)]))%list.
Proof.
  unfold force_plugin. destruct (list_mem plugin l); simpl;
    [now rewrite !app_nil_r | reflexivity].
Qed.

Lemma forced_config_functions_eq config_functions :
  forced_config_functions config_functions =
  (config_functions
     ++ filter (fun f => negb (list_mem f config_functions)) forced_plugins,
   map (fun f => (INFO, ForcedPlugin f))
     (filter (fun f => negb (list_mem f config_functions)) forced_plugins))%list.
Proof.
  unfold forced_config_functions, forced_plugins.
  rewrite !force_plugin_step, !list_mem_app. simpl filter.
  destruct (list_mem "send_email" config_functions),
           (list_mem "save_weather_to_db" config_functions),
           (list_mem "onvif_camera_control" config_functions),
           (list_mem "vision_camera_analysis" config_functions);
    simpl; rewrite <- ?app_assoc, ?app_nil_r; reflexivity.
Qed.

(** C9 (as amended). The list that is registered is the configured list
    followed by the forced names that it lacks, in the fixed order; a forced
    name occurs in it as often as it was configured, and once if it was not
    configured: exactly once whenever it was configured at most once.  Each
    forced addition is logged. *)
Theorem forced_inclusion config_functions :
  let missing :=
    filter (fun f => negb (list_mem f config_functions)) forced_plugins in
  let assembled := fst (forced_config_functions config_functions) in
  assembled = (config_functions ++ missing)%list /\
  snd (forced_config_functions config_functions)
    = map (fun f => (INFO, ForcedPlugin f)) missing /\
  (forall f, In f forced_plugins ->
     In f assembled /\
     count_occ string_dec assembled f
       = Nat.max 1 (count_occ string_dec config_functions f)) /\
  (forall f, ~ In f forced_plugins ->
     count_occ string_dec assembled f = count_occ string_dec config_functions f).
Proof.
  intros missing assembled. unfold assembled.
  rewrite forced_config_functions_eq. fold missing. simpl fst. simpl snd.
  split; [reflexivity | split; [reflexivity | split]].
  - intros f Hf.
    assert (Hcount : count_occ string_dec (config_functions ++ missing) f
                     = Nat.max 1 (count_occ string_dec config_functions f)).
    { rewrite count_occ_app, (list_mem_count f config_functions).
      unfold missing, forced_plugins. simpl filter.
      destruct Hf as [<-|[<-|[<-|[<-|[]]]]];
        destruct (list_mem "send_email" config_functions),
                 (list_mem "save_weather_to_db" config_functions),
                 (list_mem "onvif_camera_control" config_functions),
                 (list_mem "vision_camera_analysis" config_functions);
        cbv beta iota delta [negb];
        repeat first
          [ rewrite count_occ_cons_eq by reflexivity
          | rewrite count_occ_cons_neq by discriminate
          | rewrite count_occ_nil ];
        lia. }
    split; [|exact Hcount].
    apply (count_occ_In string_dec). lia.
  - intros f Hf. rewrite count_occ_app.
    assert (E : count_occ string_dec missing f = 0%nat).
    { apply count_occ_not_In. intros H. apply filter_In in H. tauto. }
    lia.
Qed.

(** C9, as stated, fails for a configured list that names a forced
    capability twice: the name stays twice in the registered list. *)
Lemma forced_inclusion_counterexample :
  fst (forced_config_functions ["send_email"; "get_weather"; "send_email"])
    = ["send_email"; "get_weather"; "send_email"; "save_weather_to_db";
       "onvif_camera_control"; "vision_camera_analysis"] /\
  count_occ string_dec
    (fst (forced_config_functions ["send_email"; "get_weather"; "send_email"]))
    "send_email" = 2%nat.
Proof. split; vm_compute; reflexivity. Qed.

(** *** The placeholder *)

Lemma replace_in_plugin_loader_at func_names before d params after :
  (forall x, In x before -> desc_name x <> "plugin_loader") ->
  replace_in_plugin_loader func_names
    (before ++ mkDesc "plugin_loader" d params :: after) =
  (before ++ mkDesc "plugin_loader" (str_replace d token func_names) params
          :: after)%list.
Proof.
  induction before as [|x before IH]; intros H; simpl.
  - reflexivity.
  - destruct (String.eqb_spec (desc_name x) "plugin_loader") as [E|_].
    + exfalso. apply (H x); [now left | exact E].
    + f_equal. apply IH. intros y Hy. apply H. now right.
Qed.

Lemma finish_init_at before d params after :
  (forall x, In x before -> desc_name x <> "plugin_loader") ->
  finish_init (before ++ mkDesc "plugin_loader" d params :: after) =
  (before
     ++ mkDesc "plugin_loader"
          (str_replace d token
             (join ","
                (filter not_plugin_loader
                   (current_support_functions
                      (before ++ mkDesc "plugin_loader" d params :: after)))))
          params
     :: after)%list.
Proof.
  intros H. unfold finish_init, modify_plugin_loader_des.
  assert (E : list_mem "plugin_loader"
                (current_support_functions
                   (before ++ mkDesc "plugin_loader" d params :: after)) = true).
  { apply list_mem_In. unfold current_support_functions.
    rewrite map_app, in_app_iff. right. now left. }
  rewrite E. simpl negb. cbv iota.
  now apply replace_in_plugin_loader_at.
Qed.

Lemma others_at before d params after :
  (forall x, In x before -> desc_name x <> "plugin_loader") ->
  filter not_plugin_loader
    (current_support_functions
       (before ++ mkDesc "plugin_loader" d params :: after)) =
  (map desc_name before ++ filter not_plugin_loader (map desc_name after))%list.
Proof.
  intros H. unfold current_support_functions.
  rewrite map_app, filter_app. simpl. f_equal.
  induction before as [|x before IH]; simpl; [reflexivity|].
  unfold not_plugin_loader at 1.
  destruct (String.eqb_spec (desc_name x) "plugin_loader") as [E|_].
  - exfalso. apply (H x); [now left | exact E].
  - simpl. f_equal. apply IH. intros y Hy. apply H. now right.
Qed.

(** C8 (as amended). Let a description named [plugin_loader] be registered.
    The names that are substituted are the other registered names in
    registration order, [plugin_loader] is not among them, and in the first
    description named [plugin_loader] every placeholder is replaced by these
    names joined by commas, while the text between the placeholders and
    every other description stay as they are.  If no registered name holds
    a square bracket and the joined names are no part of the word
    [plugins] (so that at least one other name is registered), no
    placeholder is left and a second run changes nothing. *)
Theorem placeholder_substitution before params after d :
  let descs :=
    (before ++ mkDesc "plugin_loader" d params :: after)%list in
  let others := filter not_plugin_loader (current_support_functions descs) in
  let names := join "," others in
  (forall x, In x before -> desc_name x <> "plugin_loader") ->
  (~ In "plugin_loader" others /\
   others = (map desc_name before
               ++ filter not_plugin_loader (map desc_name after))%list /\
   finish_init descs =
     (before ++ mkDesc "plugin_loader" (str_replace d token names) params
             :: after)%list /\
   (forall segs, Forall (fun s => contains token s = false) segs ->
      d = join token segs ->
      str_replace d token names = join names segs)) /\
  ((forall x, In x descs -> occurs "[" (desc_name x) = false /\
                            occurs "]" (desc_name x) = false) ->
   contains names "plugins" = false ->
   contains token (str_replace d token names) = false /\
   finish_init (finish_init descs) = finish_init descs).
Proof.
  intros descs others names Hbefore.
  assert (Hothers : others = (map desc_name before
                     ++ filter not_plugin_loader (map desc_name after))%list)
    by now apply others_at.
  assert (Hfirst : finish_init descs =
            (before ++ mkDesc "plugin_loader" (str_replace d token names) params
                    :: after)%list).
  { unfold descs. now rewrite finish_init_at by exact Hbefore. }
  split.
  - split; [|split; [exact Hothers | split; [exact Hfirst |]]].
    + intros H. apply filter_In in H. destruct H as [_ H]. discriminate.
    + intros segs Hsegs ->. now apply replace_join.
  - intros Hnames Hsub.
    assert (Hbr : forall c, c = "["%char \/ c = "]"%char ->
                            occurs c names = false).
    { intros c Hc. apply occurs_join; [destruct Hc as [-> | ->]; reflexivity|].
      intros x Hx. apply filter_In in Hx. destruct Hx as [Hx _].
      apply in_map_iff in Hx. destruct Hx as [fd [<- Hfd]].
      destruct (Hnames fd Hfd) as [H1 H2]. destruct Hc as [-> | ->]; assumption. }
    assert (Hclean : contains token (str_replace d token names) = false).
    { apply replace_leaves_no_token; [apply Hbr; now left | apply Hbr; now right
                                     | exact Hsub]. }
    split; [exact Hclean|].
    rewrite Hfirst at 1. rewrite finish_init_at by exact Hbefore.
    rewrite Hfirst. do 3 f_equal.
    rewrite others_at, <- Hothers by exact Hbefore.
    now apply replace_no_token.
Qed.

(** The design document's example: the placeholder of [plugin_loader] is
    filled with the three other names, in registration order. *)
Lemma placeholder_substitution_witness :
  (forall x, In x [mkDesc "handle_exit_intent" "ends the conversation" ""] ->
             desc_name x <> "plugin_loader") /\
  (forall x, In x sample_descriptions ->
             occurs "[" (desc_name x) = false /\
             occurs "]" (desc_name x) = false) /\
  contains "handle_exit_intent,get_time,send_email" "plugins" = false /\
  Forall (fun s => contains token s = false) ["loads one of: "; "."] /\
  finish_init sample_descriptions =
    [mkDesc "handle_exit_intent" "ends the conversation" "";
     mkDesc "plugin_loader"
       "loads one of: handle_exit_intent,get_time,send_email." "";
     mkDesc "get_time" "tells the time" "";
     mkDesc "send_email" "sends an email" ""] /\
  str_replace "loads one of: [plugins]." token
              "handle_exit_intent,get_time,send_email"
    = join "handle_exit_intent,get_time,send_email" ["loads one of: "; "."] /\
  finish_init (finish_init sample_descriptions) = finish_init sample_descriptions.
Proof.
  assert (H1 : forall x,
             In x [mkDesc "handle_exit_intent" "ends the conversation" ""] ->
             desc_name x <> "plugin_loader").
  { intros x [<-|[]]. discriminate. }
  assert (H2 : forall x, In x sample_descriptions ->
                         occurs "[" (desc_name x) = false /\
                         occurs "]" (desc_name x) = false).
  { intros x [<-|[<-|[<-|[<-|[]]]]]; split; reflexivity. }
  assert (H3 : contains "handle_exit_intent,get_time,send_email" "plugins"
               = false) by reflexivity.
  assert (H4 : Forall (fun s => contains token s = false)
                 ["loads one of: "; "."]) by (repeat constructor).
  split; [exact H1 | split; [exact H2 | split; [exact H3 | split; [exact H4 |]]]].
  destruct (placeholder_substitution
              [mkDesc "handle_exit_intent" "ends the conversation" ""] ""
              [mkDesc "get_time" "tells the time" "";
               mkDesc "send_email" "sends an email" ""]
              "loads one of: [plugins]." H1)
    as ((_ & _ & Hfirst & Hsegs) & Hidem).
  split; [exact Hfirst |].
  split; [exact (Hsegs ["loads one of: "; "."] H4 eq_refl) |].
  exact (proj2 (Hidem H2 H3)).
Defined.

(** C8, as stated, fails: a second run can change a description.  When
    [plugin_loader] is the only capability, the names are the empty text,
    and the description [[[plugins]plugins]] becomes [[plugins]] in the
    first run and the empty text in the second.  When the only other
    capability is named [plug], the description [[[plugins]ins]] becomes
    [[plugins]] in the first run and [plug] in the second. *)
Lemma placeholder_substitution_counterexample :
  let alone := [mkDesc "plugin_loader" "[[plugins]plugins]" ""] in
  let pair := [mkDesc "plugin_loader" "[[plugins]ins]" "";
               mkDesc "plug" "plugs in" ""] in
  (contains token "[[plugins]plugins]" = true /\
   finish_init alone = [mkDesc "plugin_loader" "[plugins]" ""] /\
   finish_init (finish_init alone) = [mkDesc "plugin_loader" "" ""] /\
   finish_init (finish_init alone) <> finish_init alone) /\
  (contains token "[[plugins]ins]" = true /\
   finish_init pair = [mkDesc "plugin_loader" "[plugins]" "";
                       mkDesc "plug" "plugs in" ""] /\
   finish_init (finish_init pair) = [mkDesc "plugin_loader" "plug" "";
                                     mkDesc "plug" "plugs in" ""] /\
   finish_init (finish_init pair) <> finish_init pair).
Proof.
  repeat split; try (vm_compute; reflexivity); vm_compute; discriminate.
Qed.

End RegistryProperties.

(** ** The dispatcher: splitting, merging and routing *)

Module DispatcherProperties.
Import PyDict KeyFacts StringFacts FunctionHandler.
Open Scope string_scope.

(** *** The splitting loop *)

Lemma split_loop_cons st c s :
  split_loop st (String c s) = split_loop (split_step st c) s.
Proof. reflexivity. Qed.


Lemma truthy_snoc s c : truthy (s ++ String c "") = true.
Proof. destruct s; reflexivity. Qed.

Lemma join_finish st :
  join "" (finish_split st) = join "" (json_parts st) ++ current_part st.
Proof.
  unfold finish_split. destruct (current_part st) as [|c s] eqn:E; simpl truthy; cbv iota.
  - now rewrite append_nil_r.
  - apply join_empty_snoc.
Qed.

Lemma split_step_join st c :
  join "" (json_parts (split_step st c)) ++ current_part (split_step st c)
  = (join "" (json_parts st) ++ current_part st) ++ String c "".
Proof.
  unfold split_step.
  destruct (Ascii.eqb c "{").
  - destruct ((brace_count st =? 0)%Z && truthy (current_part st)); simpl.
    + now rewrite join_empty_snoc.
    + now rewrite append_assoc.
  - destruct (Ascii.eqb c "}"); simpl; now rewrite append_assoc.
Qed.

Lemma split_loop_join s st :
  join "" (json_parts (split_loop st s)) ++ current_part (split_loop st s)
  = (join "" (json_parts st) ++ current_part st) ++ s.
Proof.
  revert st. induction s as [|c s IH]; intros st.
  - simpl. now rewrite append_nil_r.
  - rewrite split_loop_cons, IH, split_step_join, append_assoc. reflexivity.
Qed.

(** Nothing of the payload is lost or reordered by the splitting. *)
Lemma split_json_parts_join payload :
  join "" (split_json_parts payload) = payload.
Proof.
  unfold split_json_parts.
  now rewrite join_finish, split_loop_join.
Qed.

Lemma split_step_truthy st c :
  Forall (fun part => truthy part = true) (json_parts st) ->
  Forall (fun part => truthy part = true) (json_parts (split_step st c)).
Proof.
  intros H. unfold split_step.
  destruct (Ascii.eqb c "{").
  - destruct (brace_count st =? 0)%Z; simpl; [|exact H].
    destruct (truthy (current_part st)) eqn:E; simpl; [|exact H].
    apply Forall_app. split; [exact H | now repeat constructor].
  - destruct (Ascii.eqb c "}"); exact H.
Qed.

Lemma split_loop_truthy s st :
  Forall (fun part => truthy part = true) (json_parts st) ->
  Forall (fun part => truthy part = true) (json_parts (split_loop st s)).
Proof.
  revert st. induction s as [|c s IH]; intros st H; [exact H|].
  rewrite split_loop_cons. now apply IH, split_step_truthy.
Qed.

(** No fragment is empty. *)
Lemma split_json_parts_truthy payload :
  Forall (fun part => truthy part = true) (split_json_parts payload).
Proof.
  unfold split_json_parts, finish_split.
  set (st := split_loop (mkSplit [] "" 0) payload).
  assert (H : Forall (fun part => truthy part = true) (json_parts st))
    by (apply split_loop_truthy; constructor).
  destruct (truthy (current_part st)) eqn:E; [|exact H].
  apply Forall_app. split; [exact H | now repeat constructor].
Qed.

(** *** Where the loop cuts *)

Lemma depth_after_shift d c : depth_after d c = (d + depth_after 0 c)%Z.
Proof.
  unfold depth_after. destruct (Ascii.eqb c "{"); [lia|].
  destruct (Ascii.eqb c "}"); lia.
Qed.

Lemma brace_depth_app a b :
  brace_depth (a ++ b) = (brace_depth a + brace_depth b)%Z.
Proof.
  induction a as [|c a IH]; simpl; [reflexivity|]. rewrite IH. lia.
Qed.











(** *** Balanced blocks *)









(** *** Merging *)




Section Decoding.
Variable Conn : Type.
Variable json_loads : string -> outcome pyvalue.


(** The loop over the fragments merges the objects in fragment order and
    skips every fragment that raises a decode error. *)
Lemma merge_parts_objects parts m :
  (forall part, In part parts -> merged_or_dropped json_loads part) ->
  merge_parts json_loads parts m =
  Ok (mkArgDict
        (fold_left (@update pyvalue) (parsed_objects json_loads parts) (str_items m))
        (other_keys m)).
Proof.
  revert m. induction parts as [|part parts IH]; intros m H.
  - now destruct m.
  - simpl merge_parts. unfold parsed_objects. simpl flat_map.
    fold (parsed_objects json_loads parts).
    destruct (H part (or_introl eq_refl)) as [[d E]|[e [E De]]]; rewrite E.
    + simpl. rewrite IH by (intros x Hx; apply H; now right). reflexivity.
    + rewrite De. simpl. apply IH. intros x Hx. apply H. now right.
Qed.

Lemma decode_empty : decode_arguments json_loads "" = (Ok EmptyObject, []).
Proof. reflexivity. Qed.



(** The outcome of a repair is the outcome of the loop over the
    fragments. *)
Lemma decode_repair_merge payload e :
  truthy payload = true -> json_loads payload = Raise e ->
  is_decode_error e = true ->
  contains concat_pattern payload = true ->
  fst (decode_arguments json_loads payload) =
  match merge_parts json_loads (split_json_parts payload) empty_args with
  | Ok m => Ok (Repaired m)
  | Raise e' => Raise e'
  end.
Proof.
  intros Ht Hl He Hc. unfold decode_arguments.
  rewrite Ht, Hl, He, Hc. unfold bind, lift, log, ret.
  now destruct (merge_parts json_loads (split_json_parts payload) empty_args).
Qed.

Lemma decode_repair payload e :
  truthy payload = true -> json_loads payload = Raise e ->
  is_decode_error e = true ->
  contains concat_pattern payload = true ->
  (forall part, In part (split_json_parts payload) ->
                merged_or_dropped json_loads part) ->
  fst (decode_arguments json_loads payload) =
  Ok (Repaired
        (mkArgDict
           (merge_objects (parsed_objects json_loads (split_json_parts payload)))
           false)).
Proof.
  intros Ht Hl He Hc Hobj.
  rewrite (decode_repair_merge Ht Hl He Hc).
  now rewrite (merge_parts_objects _ empty_args Hobj).
Qed.


Lemma decode_unrecoverable payload e :
  truthy payload = true -> json_loads payload = Raise e ->
  is_decode_error e = true ->
  contains concat_pattern payload = false ->
  decode_arguments json_loads payload = (Raise e, []).
Proof. intros Ht Hl He Hc. unfold decode_arguments. now rewrite Ht, Hl, He, Hc. Qed.


(** C5 (as amended). For a registered capability whose payload does not
    decode and holds no concatenation marker, the decoding raises the
    original decode error, the capability is not called, and the [except]
    clause of the dispatcher logs the error and returns no result: the error
    does not reach the caller. *)
Theorem unrecoverable_payload (registry : dict (FunctionItem Conn))
    (conn : Conn) call item doc :
  get_function registry (name call) = Some item ->
  truthy (arguments call) = true ->
  json_loads (arguments call) = Raise (JSONDecodeError doc) ->
  contains concat_pattern (arguments call) = false ->
  decode_arguments json_loads (arguments call)
    = (Raise (JSONDecodeError doc), []) /\
  handle_llm_function_call json_loads registry conn call =
    (Ok None,
     [(INFO, Received call); (INFO, RawArguments (arguments call));
      (ERROR, HandlingError (JSONDecodeError doc))]).
Proof.
  intros Hreg Ht Hl Hc.
  assert (Hd := decode_unrecoverable Ht Hl eq_refl Hc).
  split; [exact Hd|].
  unfold handle_llm_function_call, handle_body.
  rewrite Hreg. simpl. now rewrite Hd.
Qed.

(** C6. An unregistered name yields the not-found response and nothing is
    raised.  If the name is registered, the arguments decode to keyword
    arguments and the capability, called by its convention, raises, then the
    dispatcher logs the error and returns no result, which is not the
    not-found response.  In every case the dispatcher returns: no exception
    leaves it. *)
Theorem dispatch_routing (registry : dict (FunctionItem Conn))
    (conn : Conn) call :
  (get_function registry (name call) = None ->
   handle_llm_function_call json_loads registry conn call
     = (Ok (Some not_found_response), [(INFO, Received call)]) /\
   action not_found_response = NOTFOUND) /\
  (forall item a l kw e,
     get_function registry (name call) = Some item ->
     type item <> OTHER_TOOL_TYPE ->
     decode_arguments json_loads (arguments call) = (Ok a, l) ->
     kwargs a = Ok kw ->
     func item (passed_conn conn item) kw = Raise e ->
     handle_llm_function_call json_loads registry conn call =
       (Ok None,
        [(INFO, Received call); (INFO, RawArguments (arguments call))]
          ++ l ++ [(DEBUG, Calling (name call) a); (ERROR, HandlingError e)])%list /\
     @Ok (option ActionResponse) None <> Ok (Some not_found_response)) /\
  (exists r l,
     handle_llm_function_call json_loads registry conn call = (Ok r, l)).
Proof.
  split; [|split].
  - intros Hreg. split; [|reflexivity].
    unfold handle_llm_function_call, handle_body. now rewrite Hreg.
  - intros item a l kw e Hreg Hty Hd Hkw He. split; [|discriminate].
    unfold handle_llm_function_call, handle_body, dispatch.
    rewrite Hreg. simpl. rewrite Hd. simpl.
    unfold passed_conn in He.
    destruct (type item); try contradiction;
      simpl; rewrite Hkw; simpl; rewrite He; simpl;
      now rewrite <- !app_assoc.
  - unfold handle_llm_function_call, try_except.
    destruct (handle_body json_loads registry conn call) as [[r|e] l].
    + now exists r, l.
    + now exists None, (l ++ [(ERROR, HandlingError e)])%list.
Qed.

End Decoding.

End DispatcherProperties.

(** ** The dispatcher on concrete calls *)

Module DispatcherExamples.
Import PyDict StringFacts FunctionHandler DispatcherProperties.
Open Scope string_scope.





(** A fragment that parses to something other than an object: the number
    in front of the two objects makes [update] raise [TypeError], which the
    inner [except] does not catch; the call ends without a result. *)
Lemma scalar_fragment_aborts :
  let payload := js "1{'a':1}{'b':2}" in
  split_json_parts payload = ["1"; js "{'a':1}"; js "{'b':2}"] /\
  fst (decode_arguments json_loads_examples payload) = Raise TypeError /\
  fst (handle_llm_function_call json_loads_examples sample_registry tt
         (mkCall "get_time" payload)) = Ok None.
Proof. repeat split; vm_compute; reflexivity. Qed.

(** A fragment on which [json.loads] raises another exception than a decode
    error: the payload as a whole raises a decode error, its second fragment
    holds an integer of 5000 digits and raises a plain [ValueError], which
    the inner [except] does not catch; the pair of the first fragment is
    lost and the call ends without a result. *)
Lemma long_integer_fragment_aborts :
  let payload := js "{'a':1}" ++ long_integer_object in
  json_loads_examples payload = Raise (JSONDecodeError payload) /\
  contains concat_pattern payload = true /\
  split_json_parts payload = [js "{'a':1}"; long_integer_object] /\
  json_loads_examples long_integer_object = Raise ValueError /\
  fst (decode_arguments json_loads_examples payload) = Raise ValueError /\
  fst (handle_llm_function_call json_loads_examples sample_registry tt
         (mkCall "get_time" payload)) = Ok None.
Proof. repeat split; vm_compute; reflexivity. Qed.

(** A fragment that parses to a list: [update] reads each item as a pair.
    The item is a string of two characters, the first of which becomes the
    key and the second the value. *)
Lemma list_fragment_merges :
  let payload := js "['日本']{'a':1}{'b':2}" in
  split_json_parts payload = [js "['日本']"; js "{'a':1}"; js "{'b':2}"] /\
  code_points "日本" = ["日"; "本"] /\
  fst (decode_arguments json_loads_examples payload)
    = Ok (Repaired (mkArgDict [("日", VStr "本"); ("a", VInt 1); ("b", VInt 2)]
                      false)).
Proof. repeat split; vm_compute; reflexivity. Qed.

(** The design document's example of a payload beyond repair. *)
Lemma unrecoverable_payload_witness :
  let call := mkCall "get_time" "not json at all" in
  get_function sample_registry (name call) = Some (mkItem answering WAIT) /\
  truthy (arguments call) = true /\
  json_loads_examples (arguments call)
    = Raise (JSONDecodeError "not json at all") /\
  contains concat_pattern (arguments call) = false /\
  handle_llm_function_call json_loads_examples sample_registry tt call =
    (Ok None,
     [(INFO, Received call); (INFO, RawArguments "not json at all");
      (ERROR, HandlingError (JSONDecodeError "not json at all"))]).
Proof.
  intros call.
  assert (H1 : get_function sample_registry (name call)
               = Some (mkItem answering WAIT)) by reflexivity.
  assert (H2 : truthy (arguments call) = true) by reflexivity.
  assert (H3 : json_loads_examples (arguments call)
               = Raise (JSONDecodeError "not json at all")) by reflexivity.
  assert (H4 : contains concat_pattern (arguments call) = false) by reflexivity.
  split; [exact H1 | split; [exact H2 | split; [exact H3 | split; [exact H4 |]]]].
  exact (proj2 (unrecoverable_payload json_loads_examples sample_registry tt
                  call H1 H2 H3 H4)).
Defined.

(** C5, as stated, fails: for a registered capability and the payload
    [not json at all] the dispatcher does not raise the decode error, it
    returns [None]. *)
Lemma unrecoverable_payload_counterexample :
  let call := mkCall "get_time" "not json at all" in
  get_function sample_registry (name call) = Some (mkItem answering WAIT) /\
  json_loads_examples (arguments call)
    = Raise (JSONDecodeError "not json at all") /\
  contains concat_pattern (arguments call) = false /\
  fst (handle_llm_function_call json_loads_examples sample_registry tt call)
    = Ok None /\
  fst (handle_llm_function_call json_loads_examples sample_registry tt call)
    <> Raise (JSONDecodeError "not json at all").
Proof. repeat split; try (vm_compute; reflexivity). vm_compute. discriminate. Qed.

(** A registered capability that raises, and an unregistered name. *)
Lemma dispatch_routing_witness :
  let call := mkCall "send_email" (js "{'a':1}") in
  let a := Loaded (VDict [("a", VInt 1)]) in
  get_function sample_registry (name call) = Some (mkItem failing SYSTEM_CTL) /\
  type (mkItem failing SYSTEM_CTL) <> OTHER_TOOL_TYPE /\
  decode_arguments json_loads_examples (arguments call) = (Ok a, []) /\
  kwargs a = Ok [("a", VInt 1)] /\
  func (mkItem failing SYSTEM_CTL)
       (passed_conn tt (mkItem failing SYSTEM_CTL)) [("a", VInt 1)]
    = Raise (CapabilityError "smtp unreachable") /\
  handle_llm_function_call json_loads_examples sample_registry tt call =
    (Ok None,
     [(INFO, Received call); (INFO, RawArguments (arguments call));
      (DEBUG, Calling "send_email" a);
      (ERROR, HandlingError (CapabilityError "smtp unreachable"))]) /\
  handle_llm_function_call json_loads_examples sample_registry tt
    (mkCall "get_weather" "") =
    (Ok (Some not_found_response),
     [(INFO, Received (mkCall "get_weather" ""))]).
Proof.
  intros call a.
  assert (H1 : get_function sample_registry (name call)
               = Some (mkItem failing SYSTEM_CTL)) by reflexivity.
  assert (H2 : type (mkItem failing SYSTEM_CTL) <> OTHER_TOOL_TYPE)
    by discriminate.
  assert (H3 : decode_arguments json_loads_examples (arguments call)
               = (Ok a, [])) by reflexivity.
  assert (H4 : kwargs a = Ok [("a", VInt 1)]) by reflexivity.
  assert (H5 : func (mkItem failing SYSTEM_CTL)
                 (passed_conn tt (mkItem failing SYSTEM_CTL)) [("a", VInt 1)]
               = Raise (CapabilityError "smtp unreachable")) by reflexivity.
  split; [exact H1 | split; [exact H2 | split; [exact H3 |
    split; [exact H4 | split; [exact H5 |]]]]].
  split.
  - exact (proj1 (proj1 (proj2 (dispatch_routing json_loads_examples
                                  sample_registry tt call))
                    _ _ _ _ _ H1 H2 H3 H4 H5)).
  - exact (proj1 (proj1 (dispatch_routing json_loads_examples sample_registry
                           tt (mkCall "get_weather" "")) eq_refl)).
Defined.

End DispatcherExamples.

(** ** The cache pool: size, janitor, counters and victims *)

Module CacheExtras.
Import PyDict PyDictFacts KeyFacts WeatherCache WeatherCacheFacts.
Import WeatherCacheProperties CacheRuns.

Section Extras.
Variable Data : Type.
Implicit Types (p q : WeatherCachePool Data) (e : CacheEntry Data)
               (k key : string).

(** *** Size *)

Lemma len_pop_le V k (d : dict V) : (len (pop k d) <= len d)%nat.
Proof. unfold len, pop. apply filter_length_le. Qed.

Lemma total_drop_weather k p :
  (total_entries (with_access (pop k) (with_weather (pop k) p))
   <= total_entries p)%Z.
Proof.
  unfold total_entries. simpl.
  pose proof (len_pop_le k (_weather_cache p)). lia.
Qed.

Lemma total_drop_city k p :
  (total_entries (with_access (pop k) (with_city (pop k) p))
   <= total_entries p)%Z.
Proof.
  unfold total_entries. simpl.
  pose proof (len_pop_le k (_city_cache p)). lia.
Qed.

Lemma total_get_weather clk loc p :
  (total_entries (snd (get_weather_data clk loc p)) <= total_entries p)%Z.
Proof.
  unfold get_weather_data.
  destruct (get _ (_weather_cache p)) as [e|]; [|simpl; unfold total_entries; simpl; lia].
  destruct (negb (_is_expired clk e)); simpl.
  - unfold total_entries. simpl. lia.
  - apply (total_drop_weather _ p).
Qed.

Lemma total_get_city clk loc p :
  (total_entries (snd (get_city_info clk loc p)) <= total_entries p)%Z.
Proof.
  unfold get_city_info.
  destruct (get _ (_city_cache p)) as [e|]; [|simpl; unfold total_entries; simpl; lia].
  destruct (negb (_is_expired clk e)); simpl.
  - unfold total_entries. simpl. lia.
  - apply (total_drop_city _ p).
Qed.

Lemma total_fold_drop_weather l p :
  (total_entries
     (fold_left (fun q key => with_access (pop key) (with_weather (pop key) q)) l p)
   <= total_entries p)%Z.
Proof.
  revert p. induction l as [|k l IH]; intros p; simpl; [lia|].
  etransitivity; [apply IH | apply total_drop_weather].
Qed.

Lemma total_fold_drop_city l p :
  (total_entries
     (fold_left (fun q key => with_access (pop key) (with_city (pop key) q)) l p)
   <= total_entries p)%Z.
Proof.
  revert p. induction l as [|k l IH]; intros p; simpl; [lia|].
  etransitivity; [apply IH | apply total_drop_city].
Qed.

Lemma total_clean_expired clk p :
  (total_entries (clean_expired clk p) <= total_entries p)%Z.
Proof.
  unfold clean_expired.
  etransitivity; [apply total_fold_drop_city | apply total_fold_drop_weather].
Qed.

(** The entry count of a reachable pool. *)
Lemma reachable_below_capacity cfg p :
  (1 <= max_cache_size cfg)%Z -> reachable cfg p ->
  (total_entries p < max_cache_size cfg)%Z.
Proof.
  intros Hcap Hr. induction Hr.
  - unfold total_entries. simpl. lia.
  - pose proof (@evict_lru_leaves_room Data cfg (store_weather cfg clk loc d p)
                  (inv_store_weather_entry cfg clk loc d (reachable_inv Hr)) Hcap).
    unfold set_weather_data. lia.
  - pose proof (@evict_lru_leaves_room Data cfg (store_city cfg clk loc d p)
                  (inv_store_city_entry cfg clk loc d (reachable_inv Hr)) Hcap).
    unfold set_city_info. lia.
  - pose proof (total_get_weather clk loc p). lia.
  - pose proof (total_get_city clk loc p). lia.
  - pose proof (evict_lru_leaves_room cfg (reachable_inv Hr) Hcap). lia.
  - unfold total_entries. simpl. lia.
  - pose proof (total_clean_expired clk p). lia.
Qed.

(** X1. With a capacity of at least one, every pool that the operations
    produce holds fewer entries than the capacity. *)
Theorem size_below_capacity cfg p :
  (1 <= max_cache_size cfg)%Z -> reachable cfg p ->
  (total_entries p < max_cache_size cfg)%Z.
Proof. exact (@reachable_below_capacity cfg p). Qed.

(** *** The janitor *)

Lemma fold_drop_weather_eq l p :
  fold_left (fun q key => with_access (pop key) (with_weather (pop key) q)) l p
  = mkPool (pops l (_weather_cache p)) (_city_cache p)
           (pops l (_access_order p)) (_stats p).
Proof.
  revert p. induction l as [|k l IH]; intros p; simpl.
  - now destruct p.
  - now rewrite IH.
Qed.

Lemma fold_drop_city_eq l p :
  fold_left (fun q key => with_access (pop key) (with_city (pop key) q)) l p
  = mkPool (_weather_cache p) (pops l (_city_cache p))
           (pops l (_access_order p)) (_stats p).
Proof.
  revert p. induction l as [|k l IH]; intros p; simpl.
  - now destruct p.
  - now rewrite IH.
Qed.

Lemma get_pops V k l (d : dict V) :
  get k (pops l d) = if list_mem k l then None else get k d.
Proof.
  unfold pops. revert d. induction l as [|k0 l IH]; intros d; simpl; [reflexivity|].
  rewrite IH. destruct (String.eqb_spec k k0) as [->|Hne]; simpl.
  - rewrite get_pop_same. now destruct (list_mem k0 l).
  - now rewrite get_pop_other.
Qed.

Lemma In_pop V (kv : string * V) k d :
  In kv (pop k d) <-> In kv d /\ fst kv <> k.
Proof.
  unfold pop. rewrite filter_In.
  destruct (String.eqb_spec k (fst kv)) as [E|N]; simpl; split;
    intros [H1 H2]; split; auto; congruence.
Qed.

Lemma In_pops V (kv : string * V) l d :
  In kv (pops l d) <-> In kv d /\ ~ In (fst kv) l.
Proof.
  unfold pops. revert d. induction l as [|k l IH]; intros d; simpl; [tauto|].
  rewrite IH, In_pop. intuition congruence.
Qed.

Lemma get_In V k v (d : dict V) : wf d -> (get k d = Some v <-> In (k, v) d).
Proof.
  unfold wf, keys. induction d as [|[k0 v0] d IH]; simpl; intros Hnd.
  - split; [discriminate | tauto].
  - inversion Hnd as [|? ? Hout Hnd']; subst.
    destruct (String.eqb_spec k k0) as [->|Hne].
    + split.
      * intros H. injection H as ->. now left.
      * intros [H|H]; [now injection H as -> |].
        exfalso. apply Hout. change k0 with (fst (k0, v)). now apply in_map.
    + rewrite (IH Hnd'). split; [tauto|].
      intros [H|H]; [congruence | exact H].
Qed.

Lemma In_expired_keys t (d : dict (CacheEntry Data)) k :
  In k (expired_keys t d) <->
  exists e, In (k, e) d /\ negb (Qle_bool t (expires_at e)) = true.
Proof.
  unfold expired_keys. rewrite in_map_iff. split.
  - intros [[k' e] [E H]]. simpl in E. subst k'. apply filter_In in H.
    exists e. exact H.
  - intros [e H]. exists (k, e). split; [reflexivity|]. now apply filter_In.
Qed.

Lemma list_mem_true x l : list_mem x l = true <-> In x l.
Proof.
  unfold list_mem. rewrite existsb_exists. split.
  - intros [y [Hy E]]. apply String.eqb_eq in E. now subst.
  - intros H. exists x. split; [exact H | apply String.eqb_refl].
Qed.

(** Membership in the list of expired keys, for a dictionary with distinct
    keys, is staleness of the stored entry. *)
Lemma list_mem_expired clk (d : dict (CacheEntry Data)) k :
  wf d -> list_mem k (expired_keys (time_time clk) d) = stale clk d k.
Proof.
  intros Hwf. unfold stale, _is_expired.
  destruct (get k d) as [e|] eqn:G.
  - destruct (negb (Qle_bool (time_time clk) (expires_at e))) eqn:X.
    + apply list_mem_true, In_expired_keys. exists e. split; [|exact X].
      now apply get_In.
    + apply not_true_iff_false. intros H.
      apply list_mem_true, In_expired_keys in H. destruct H as [e' [Hin He']].
      apply get_In in Hin; [|exact Hwf]. congruence.
  - apply not_true_iff_false. intros H.
    apply list_mem_true, In_expired_keys in H. destruct H as [e' [Hin He']].
    apply get_In in Hin; [|exact Hwf]. congruence.
Qed.

Lemma clean_expired_eq clk p :
  clean_expired clk p =
  mkPool (pops (expired_keys (time_time clk) (_weather_cache p)) (_weather_cache p))
         (pops (expired_keys (time_time clk) (_city_cache p)) (_city_cache p))
         (pops (expired_keys (time_time clk) (_city_cache p))
            (pops (expired_keys (time_time clk) (_weather_cache p))
               (_access_order p)))
         (_stats p).
Proof.
  unfold clean_expired. rewrite fold_drop_weather_eq, fold_drop_city_eq.
  reflexivity.
Qed.

(** What a lookup finds after a cleaning. *)
Lemma clean_expired_lookup clk p :
  pool_inv p ->
  (forall k, get k (_weather_cache (clean_expired clk p)) =
             if stale clk (_weather_cache p) k then None
             else get k (_weather_cache p)) /\
  (forall k, get k (_city_cache (clean_expired clk p)) =
             if stale clk (_city_cache p) k then None
             else get k (_city_cache p)) /\
  (forall k, get k (_access_order (clean_expired clk p)) =
             if stale clk (_weather_cache p) k || stale clk (_city_cache p) k
             then None
             else get k (_access_order p)) /\
  _stats (clean_expired clk p) = _stats p.
Proof.
  intros Hp. rewrite clean_expired_eq. simpl. repeat split.
  - intros k. now rewrite get_pops, list_mem_expired by apply (inv_weather_wf Hp).
  - intros k. now rewrite get_pops, list_mem_expired by apply (inv_city_wf Hp).
  - intros k. rewrite !get_pops.
    rewrite !list_mem_expired by (apply (inv_weather_wf Hp) || apply (inv_city_wf Hp)).
    destruct (stale clk (_weather_cache p) k), (stale clk (_city_cache p) k);
      reflexivity.
Qed.

(** X2. [clean_expired] removes exactly the entries that are expired at its
    clock reading, from the two stores and from the index, keeps every other
    entry as it is, and leaves the counters alone. *)
Theorem clean_expired_exact clk p :
  pool_inv p ->
  (forall k, get k (_weather_cache (clean_expired clk p)) =
             if stale clk (_weather_cache p) k then None
             else get k (_weather_cache p)) /\
  (forall k, get k (_city_cache (clean_expired clk p)) =
             if stale clk (_city_cache p) k then None
             else get k (_city_cache p)) /\
  (forall k, get k (_access_order (clean_expired clk p)) =
             if stale clk (_weather_cache p) k || stale clk (_city_cache p) k
             then None
             else get k (_access_order p)) /\
  _stats (clean_expired clk p) = _stats p.
Proof. exact (@clean_expired_lookup clk p). Qed.

Lemma is_expired_later clk clk' e :
  time_time clk <= time_time clk' ->
  _is_expired clk e = true -> _is_expired clk' e = true.
Proof.
  unfold _is_expired. rewrite !negb_true_iff. intros Hle H.
  apply not_true_iff_false. intros H'. apply Qle_bool_iff in H'.
  apply not_true_iff_false in H. apply H. apply Qle_bool_iff.
  eapply Qle_trans; eassumption.
Qed.

(** X3. The janitor is invisible to readers: a [Get], in either namespace,
    at or after the clock reading of a [clean_expired] returns what it would
    have returned without the cleaning. *)
Theorem clean_expired_transparent clk clk' loc p :
  pool_inv p -> time_time clk <= time_time clk' ->
  fst (get_weather_data clk' loc (clean_expired clk p))
    = fst (get_weather_data clk' loc p) /\
  fst (get_city_info clk' loc (clean_expired clk p))
    = fst (get_city_info clk' loc p).
Proof.
  intros Hp Hle. destruct (clean_expired_lookup clk Hp) as (Hw & Hc & _ & _).
  split.
  - unfold get_weather_data. rewrite Hw. unfold stale.
    destruct (get _ (_weather_cache p)) as [e|]; [|reflexivity].
    destruct (_is_expired clk e) eqn:X.
    + now rewrite (is_expired_later clk clk' e Hle X).
    + destruct (negb (_is_expired clk' e)); reflexivity.
  - unfold get_city_info. rewrite Hc. unfold stale.
    destruct (get _ (_city_cache p)) as [e|]; [|reflexivity].
    destruct (_is_expired clk e) eqn:X.
    + now rewrite (is_expired_later clk clk' e Hle X).
    + destruct (negb (_is_expired clk' e)); reflexivity.
Qed.

Lemma expired_keys_pops t (d : dict (CacheEntry Data)) :
  expired_keys t (pops (expired_keys t d) d) = [].
Proof.
  destruct (expired_keys t (pops (expired_keys t d) d)) as [|k l] eqn:E;
    [reflexivity|].
  exfalso.
  assert (Hk : In k (expired_keys t (pops (expired_keys t d) d)))
    by (rewrite E; now left).
  apply In_expired_keys in Hk. destruct Hk as [e [Hin He]].
  apply In_pops in Hin. destruct Hin as [Hin Hout]. apply Hout.
  apply In_expired_keys. now exists e.
Qed.

(** X4. Cleaning twice at the same clock reading is cleaning once. *)
Theorem clean_expired_idempotent clk p :
  clean_expired clk (clean_expired clk p) = clean_expired clk p.
Proof.
  rewrite (clean_expired_eq clk (clean_expired clk p)).
  rewrite (clean_expired_eq clk p). simpl.
  now rewrite !expired_keys_pops.
Qed.

(** *** Counters *)

Lemma evict_key_requests p key :
  request_counters (_stats (evict_key p key)) = request_counters (_stats p).
Proof.
  unfold evict_key.
  destruct (startswith key "weather_"); [reflexivity|].
  destruct (startswith key "city_"); reflexivity.
Qed.

Lemma fold_evict_requests l p :
  request_counters (_stats (fold_left (@evict_key Data) l p))
  = request_counters (_stats p).
Proof.
  revert p. induction l as [|k l IH]; intros p; simpl; [reflexivity|].
  now rewrite IH, evict_key_requests.
Qed.

Lemma evict_lru_requests cfg p :
  request_counters (_stats (_evict_lru cfg p)) = request_counters (_stats p).
Proof.
  unfold _evict_lru.
  destruct (total_entries p <? max_cache_size cfg)%Z; [reflexivity|].
  apply fold_evict_requests.
Qed.

Lemma evict_lru_evictions_le cfg p :
  (evictions (_stats p) <= evictions (_stats (_evict_lru cfg p)))%nat.
Proof.
  unfold _evict_lru.
  destruct (total_entries p <? max_cache_size cfg)%Z; [lia|].
  rewrite fold_evict_evictions. lia.
Qed.

(** What one call does to the counters. *)
Lemma step_counters cfg op p :
  let s := _stats p in
  let s' := _stats (step cfg p op) in
  (weather_hits s' + weather_misses s'
   = weather_hits s + weather_misses s + (if is_get_weather op then 1 else 0))%nat /\
  (city_hits s' + city_misses s'
   = city_hits s + city_misses s + (if is_get_city op then 1 else 0))%nat /\
  (weather_hits s <= weather_hits s')%nat /\
  (weather_misses s <= weather_misses s')%nat /\
  (city_hits s <= city_hits s')%nat /\
  (city_misses s <= city_misses s')%nat /\
  (evictions s <= evictions s')%nat.
Proof.
  destruct op as [clk loc|clk loc d|clk loc|clk loc d| |clk]; simpl.
  - unfold get_weather_data.
    destruct (get _ (_weather_cache p)) as [e|]; [|simpl; lia].
    destruct (negb (_is_expired clk e)); simpl; lia.
  - unfold set_weather_data.
    pose proof (evict_lru_requests cfg (store_weather cfg clk loc d p)) as H.
    pose proof (evict_lru_evictions_le cfg (store_weather cfg clk loc d p)) as H'.
    unfold request_counters in H. simpl in H, H'. injection H as H1 H2 H3 H4.
    lia.
  - unfold get_city_info.
    destruct (get _ (_city_cache p)) as [e|]; [|simpl; lia].
    destruct (negb (_is_expired clk e)); simpl; lia.
  - unfold set_city_info.
    pose proof (evict_lru_requests cfg (store_city cfg clk loc d p)) as H.
    pose proof (evict_lru_evictions_le cfg (store_city cfg clk loc d p)) as H'.
    unfold request_counters in H. simpl in H, H'. injection H as H1 H2 H3 H4.
    lia.
  - lia.
  - rewrite clean_expired_eq. simpl. lia.
Qed.

(** X5. Over any sequence of calls the hits and misses of a namespace add up
    to the number of its [Get]s, no counter ever decreases, and neither
    [clear_cache] nor [clean_expired] resets one. *)
Theorem counters_account_for_gets cfg ops p :
  let s := _stats p in
  let s' := _stats (run cfg ops p) in
  (weather_hits s' + weather_misses s'
   = weather_hits s + weather_misses s
     + List.length (filter is_get_weather ops))%nat /\
  (city_hits s' + city_misses s'
   = city_hits s + city_misses s + List.length (filter is_get_city ops))%nat /\
  (weather_hits s <= weather_hits s')%nat /\
  (weather_misses s <= weather_misses s')%nat /\
  (city_hits s <= city_hits s')%nat /\
  (city_misses s <= city_misses s')%nat /\
  (evictions s <= evictions s')%nat.
Proof.
  unfold run. revert p. induction ops as [|op ops IH]; intros p.
  - simpl. lia.
  - simpl fold_left. specialize (IH (step cfg p op)).
    pose proof (step_counters cfg op p) as H. simpl in IH, H.
    simpl filter.
    destruct (is_get_weather op), (is_get_city op); simpl List.length; lia.
Qed.

(** *** Keys that a [Put] does not concern *)

Lemma get_weather_fst_ext clk loc p q :
  get (_generate_weather_key clk loc true) (_weather_cache p)
    = get (_generate_weather_key clk loc true) (_weather_cache q) ->
  fst (get_weather_data clk loc p) = fst (get_weather_data clk loc q).
Proof.
  intros H. unfold get_weather_data. rewrite H.
  destruct (get _ (_weather_cache q)) as [e|]; [|reflexivity].
  destruct (negb (_is_expired clk e)); reflexivity.
Qed.

Lemma get_city_fst_ext clk loc p q :
  get (_generate_city_key loc) (_city_cache p)
    = get (_generate_city_key loc) (_city_cache q) ->
  fst (get_city_info clk loc p) = fst (get_city_info clk loc q).
Proof.
  intros H. unfold get_city_info. rewrite H.
  destruct (get _ (_city_cache q)) as [e|]; [|reflexivity].
  destruct (negb (_is_expired clk e)); reflexivity.
Qed.

(** X6. A [Put] that evicts nothing does not change what a [Get] for any
    other key returns: not in the other namespace, and not in its own
    namespace under a different key. *)
Theorem put_leaves_other_keys cfg clk0 loc0 d clk loc p :
  (evictions (_stats (set_weather_data cfg clk0 loc0 d p)) = evictions (_stats p) ->
   fst (get_city_info clk loc (set_weather_data cfg clk0 loc0 d p))
     = fst (get_city_info clk loc p) /\
   (_generate_weather_key clk loc true <> _generate_weather_key clk0 loc0 true ->
    fst (get_weather_data clk loc (set_weather_data cfg clk0 loc0 d p))
      = fst (get_weather_data clk loc p))) /\
  (evictions (_stats (set_city_info cfg clk0 loc0 d p)) = evictions (_stats p) ->
   fst (get_weather_data clk loc (set_city_info cfg clk0 loc0 d p))
     = fst (get_weather_data clk loc p) /\
   (_generate_city_key loc <> _generate_city_key loc0 ->
    fst (get_city_info clk loc (set_city_info cfg clk0 loc0 d p))
      = fst (get_city_info clk loc p))).
Proof.
  split; intros Hev.
  - unfold set_weather_data in *. rewrite evict_lru_counter_unchanged by exact Hev.
    split.
    + now apply get_city_fst_ext.
    + intros Hne. apply get_weather_fst_ext. unfold store_weather. simpl.
      now apply get_set_other.
  - unfold set_city_info in *. rewrite evict_lru_counter_unchanged by exact Hev.
    split.
    + now apply get_weather_fst_ext.
    + intros Hne. apply get_city_fst_ext. unfold store_city. simpl.
      now apply get_set_other.
Qed.

(** *** The victim of an eviction *)

Lemma len_set_le V k v (d : dict V) : (len (set k v d) <= S (len d))%nat.
Proof.
  destruct (in_dec string_dec k (keys d)) as [I|N].
  - rewrite length_set_present by exact I. lia.
  - rewrite length_set_absent by exact N. lia.
Qed.

(** An eviction with at most one victim spares every key that has an older
    companion in the index. *)
Lemma evict_lru_spares cfg q K K' t t' :
  pool_inv q -> (1 <= max_cache_size cfg)%Z ->
  (total_entries q <= max_cache_size cfg)%Z ->
  get K (_access_order q) = Some t -> get K' (_access_order q) = Some t' ->
  t' < t ->
  get K (_weather_cache (_evict_lru cfg q)) = get K (_weather_cache q) /\
  get K (_city_cache (_evict_lru cfg q)) = get K (_city_cache q).
Proof.
  intros Hq Hcap Htot HK HK' Hlt.
  destruct (evict_lru_evicts_oldest cfg Hq Hcap) as [Hlow Hhigh].
  destruct (Z.lt_ge_cases (total_entries q) (max_cache_size cfg)) as [H|H].
  - rewrite Hlow by exact H. split; reflexivity.
  - destruct (Hhigh H) as (vs & ss & Hperm & Hsorted & Hlen & Hw & Hc & _).
    change (Z.of_nat (List.length vs)
            = (total_entries q - max_cache_size cfg + 1)%Z) in Hlen.
    assert (Hout : list_mem K (map fst vs) = false).
    { apply not_true_iff_false. intros Hin. apply list_mem_true in Hin.
      destruct vs as [|v [|v' vs]]; simpl in Hlen; try lia.
      simpl in Hin. destruct Hin as [E|[]].
      assert (Hv : In v (_access_order q)).
      { eapply Permutation_in; [exact Hperm | now left]. }
      destruct v as [kv tv]. simpl in E. subst kv.
      apply (get_In _ _ (inv_access_wf Hq)) in Hv.
      assert (tv = t) by congruence. subst tv.
      assert (Hk' : In (K', t') ([(K, t)] ++ ss)).
      { eapply Permutation_in; [symmetry; exact Hperm |].
        now apply (get_In _ _ (inv_access_wf Hq)). }
      simpl in Hk'. destruct Hk' as [E|Hk'].
      - injection E as E1 E2. subst t'. now apply Qlt_irrefl in Hlt.
      - simpl in Hsorted. inversion Hsorted as [|? ? _ Hall]; subst.
        rewrite Forall_forall in Hall. specialize (Hall _ Hk'). simpl in Hall.
        eapply Qlt_not_le; eassumption. }
    now rewrite Hw, Hc, Hout.
Qed.

(** X7. A hit protects: after a [Get] that hits, at a time later than the
    last access of some other key, the entry that was hit survives the
    eviction of the next [Put] of a new key. *)
Theorem recently_used_survives cfg clk loc clk2 loc2 d p K' t' v :
  (1 <= max_cache_size cfg)%Z -> reachable cfg p ->
  fst (get_weather_data clk loc p) = Some v ->
  get K' (_access_order p) = Some t' -> t' < time_time clk ->
  K' <> _generate_weather_key clk loc true ->
  _generate_weather_key clk2 loc2 true <> _generate_weather_key clk loc true ->
  _generate_weather_key clk2 loc2 true <> K' ->
  get (_generate_weather_key clk loc true)
      (_weather_cache
         (set_weather_data cfg clk2 loc2 d (snd (get_weather_data clk loc p))))
  = get (_generate_weather_key clk loc true) (_weather_cache p) /\
  get (_generate_weather_key clk loc true) (_weather_cache p) <> None.
Proof.
  intros Hcap Hr Hhit HK' Hlt HKK' HNK HNK'.
  set (K := _generate_weather_key clk loc true) in *.
  set (N := _generate_weather_key clk2 loc2 true) in *.
  pose proof (reachable_inv Hr) as Hp.
  pose proof (reachable_below_capacity Hcap Hr) as Hsize.
  unfold get_weather_data in Hhit |- *. fold K in Hhit |- *.
  destruct (get K (_weather_cache p)) as [e|] eqn:G; [|discriminate].
  destruct (negb (_is_expired clk e)) eqn:X; [|discriminate].
  simpl snd. split; [|discriminate].
  set (p1 := with_stats incr_weather_hits
               (with_access (set K (time_time clk)) p)).
  assert (Hp1 : pool_inv p1).
  { apply inv_with_stats, inv_touch; [exact Hp|].
    apply (inv_index Hp). left. eapply get_Some_In. exact G. }
  unfold set_weather_data.
  set (q := store_weather cfg clk2 loc2 d p1).
  assert (Hq : pool_inv q) by now apply inv_store_weather_entry.
  assert (Htot : (total_entries q <= max_cache_size cfg)%Z).
  { unfold q, store_weather, total_entries in *. simpl.
    pose proof (len_set_le N
      (mkEntry d (time_time clk2) (time_time clk2 + weather_cache_ttl cfg) loc2)
      (_weather_cache p)).
    fold N. lia. }
  assert (HqK : get K (_access_order q) = Some (time_time clk)).
  { unfold q, store_weather. simpl. fold N.
    rewrite get_set_other by (intros E; apply HNK; now symmetry).
    apply get_set_same. }
  assert (HqK' : get K' (_access_order q) = Some t').
  { unfold q, store_weather. simpl. fold N.
    rewrite get_set_other by (intros E; apply HNK'; now symmetry).
    rewrite get_set_other by exact HKK'. exact HK'. }
  pose proof (@evict_lru_spares cfg q K K' _ _ Hq Hcap Htot HqK HqK' Hlt) as [Hw _].
  rewrite Hw. unfold q, store_weather. simpl. fold N.
  rewrite get_set_other by (intros E; apply HNK; now symmetry).
  exact G.
Qed.

(** *** The refresh hint over time *)

(** X8. The refresh hint never switches back: once it holds for an entry it
    holds at every later time; and with the hint enabled, a threshold of at
    most one and an entry that does not expire before its creation, an
    expired entry always needs a refresh. *)
Theorem need_refresh_monotone cfg clk clk' e th :
  time_time clk <= time_time clk' ->
  (_need_refresh cfg clk e th = true -> _need_refresh cfg clk' e th = true) /\
  (enable_async_refresh cfg = true -> created_at e <= expires_at e ->
   th <= 1 -> _is_expired clk e = true -> _need_refresh cfg clk e th = true).
Proof.
  intros Hle. split.
  - rewrite !WeatherCacheProperties.need_refresh_true.
    intros [Hen H]. split; [exact Hen|].
    eapply Qle_lt_trans; [|exact H].
    apply PyFloatFacts.round_monotone. lra.
  - intros Hen Httl Hth Hexp.
    apply WeatherCacheProperties.need_refresh_true. split; [exact Hen|].
    unfold _is_expired in Hexp.
    rewrite negb_true_iff, <- not_true_iff_false, Qle_bool_iff in Hexp.
    apply Qnot_le_lt in Hexp.
    apply Qlt_le_trans with 0.
    + apply PyFloatFacts.round_sign_neg. lra.
    + unfold PyFloat.mul, PyFloat.sub.
      assert (HT : 0 <= PyFloat.round (expires_at e - created_at e)).
      { rewrite <- PyFloatFacts.round_0.
        apply PyFloatFacts.round_monotone. lra. }
      assert (Hc : 0 <= PyFloat.round (1 - th)).
      { rewrite <- PyFloatFacts.round_0 at 1.
        apply PyFloatFacts.round_monotone. lra. }
      rewrite <- PyFloatFacts.round_0 at 1.
      apply PyFloatFacts.round_monotone.
      now apply Qmult_le_0_compat.
Qed.

End Extras.
End CacheExtras.

(** ** The statistics report *)

Module CacheStatsFacts.
Import PyDict WeatherCache CacheStats.

Lemma requests_pos t : 0 < inject_Z (Z.of_nat (Nat.max t 1)).
Proof. change 0 with (inject_Z 0). rewrite <- Zlt_Qlt. lia. Qed.

Lemma rate_bounds h m : 0 <= rate h (h + m) /\ rate h (h + m) <= 1.
Proof.
  unfold rate, PyFloat.div. pose proof (requests_pos (h + m)) as Hpos. split.
  - apply Qle_trans with (PyFloat.round 0);
      [rewrite PyFloatFacts.round_0; apply Qle_refl|].
    apply PyFloatFacts.round_monotone.
    apply Qle_shift_div_l; [exact Hpos|].
    rewrite Qmult_0_l. change 0 with (inject_Z 0). rewrite <- Zle_Qle. lia.
  - apply Qle_trans with (PyFloat.round 1);
      [|rewrite PyFloatFacts.round_1; apply Qle_refl].
    apply PyFloatFacts.round_monotone.
    apply Qle_shift_div_r; [exact Hpos|].
    rewrite Qmult_1_l, <- Zle_Qle. lia.
Qed.

Lemma rate_no_hits t : rate 0 t == 0.
Proof.
  unfold rate, PyFloat.div.
  rewrite (PyFloatFacts.round_comp _ 0); [apply PyFloatFacts.round_0|].
  unfold Qdiv. apply Qmult_0_l.
Qed.

Lemma rate_all_hits h : (0 < h)%nat -> rate h (h + 0) == 1.
Proof.
  intros Hh. unfold rate, PyFloat.div.
  rewrite (PyFloatFacts.round_comp _ 1); [apply PyFloatFacts.round_1|].
  replace (Nat.max (h + 0) 1) with h by lia.
  field. change 0 with (inject_Z 0). rewrite inject_Z_injective. lia.
Qed.

(** The rate grows with the hits when the requests stay the same. *)
Lemma rate_monotone h h' t : (h <= h')%nat -> rate h t <= rate h' t.
Proof.
  intros Hh. unfold rate, PyFloat.div. apply PyFloatFacts.round_monotone.
  pose proof (requests_pos t) as Hpos.
  apply Qle_shift_div_l; [exact Hpos|].
  unfold Qdiv. rewrite <- Qmult_assoc, (Qmult_comm (/ _)), Qmult_inv_r, Qmult_1_r.
  - rewrite <- Zle_Qle. lia.
  - intros E. rewrite E in Hpos. discriminate.
Qed.

(** X9. In the report of [get_stats] each hit rate, a double, lies between 0
    and 1; it is 0 when the namespace has no hit (in particular when it was
    never queried, where the division is by 1) and 1 when it has hits and no
    miss; and the total is the sum of the two entry counts, the count that
    the eviction compares with the capacity. *)
Theorem stats_report_consistent Data cfg (p : WeatherCachePool Data) :
  let r := get_stats cfg p in
  (0 <= hit_rate (weather_cache r) /\ hit_rate (weather_cache r) <= 1) /\
  (0 <= hit_rate (city_cache r) /\ hit_rate (city_cache r) <= 1) /\
  (hits (weather_cache r) = 0%nat -> hit_rate (weather_cache r) == 0) /\
  (hits (city_cache r) = 0%nat -> hit_rate (city_cache r) == 0) /\
  (misses (weather_cache r) = 0%nat -> (0 < hits (weather_cache r))%nat ->
   hit_rate (weather_cache r) == 1) /\
  (misses (city_cache r) = 0%nat -> (0 < hits (city_cache r))%nat ->
   hit_rate (city_cache r) == 1) /\
  total_entries (general r)
    = (entries (weather_cache r) + entries (city_cache r))%nat /\
  Z.of_nat (total_entries (general r)) = WeatherCache.total_entries p.
Proof.
  simpl. split; [apply rate_bounds | split; [apply rate_bounds |]].
  split; [intros E; rewrite E; apply rate_no_hits |].
  split; [intros E; rewrite E; apply rate_no_hits |].
  split; [intros E; rewrite E; apply rate_all_hits |].
  split; [intros E; rewrite E; apply rate_all_hits |].
  split; reflexivity.
Qed.

End CacheStatsFacts.

(** ** The dispatcher: further properties *)

Module DispatcherExtras.
Import PyDict PyDictFacts KeyFacts StringFacts FunctionHandler DispatcherProperties.
Import FragmentShape.
Open Scope string_scope.

(** *** What the repair can raise *)

Lemma set_item_exn m k v e : set_item m k v = Raise e -> type_or_value_error e.
Proof.
  unfold set_item. destruct k; intros H; try discriminate;
    injection H as <-; now left.
Qed.

Lemma as_sequence_exn item e :
  as_sequence item = Raise e -> type_or_value_error e.
Proof.
  unfold as_sequence. destruct item; intros H; try discriminate;
    injection H as <-; now left.
Qed.

Lemma update_from_pairs_exn items m e :
  update_from_pairs m items = Raise e -> type_or_value_error e.
Proof.
  revert m. induction items as [|item items IH]; intros m; simpl; [discriminate|].
  destruct (as_sequence item) as [l|e'] eqn:S.
  - destruct l as [|k [|v [|x l]]];
      try (intros H; injection H as <-; now right).
    destruct (set_item m k v) as [m'|e''] eqn:I.
    + apply IH.
    + intros H. injection H as <-. eapply set_item_exn; eassumption.
  - intros H. injection H as <-. eapply as_sequence_exn; eassumption.
Qed.

Lemma dict_update_exn m v e : dict_update m v = Raise e -> type_or_value_error e.
Proof.
  unfold dict_update. destruct v; intros H; try discriminate;
    try (injection H as <-; now left); eapply update_from_pairs_exn; eassumption.
Qed.

Lemma type_or_value_error_not_decode e :
  type_or_value_error e -> is_decode_error e = false.
Proof. intros [-> | ->]; reflexivity. Qed.

Section Repair.
Variable Conn : Type.
Variable json_loads : string -> outcome pyvalue.

(** An exception that ends the loop over the fragments was raised by
    [json.loads] on a fragment and is no decode error, or it was raised by
    the merge. *)
Lemma merge_parts_raise parts m e :
  merge_parts json_loads parts m = Raise e ->
  is_decode_error e = false /\
  ((exists part, In part parts /\ json_loads part = Raise e) \/
   type_or_value_error e).
Proof.
  revert m. induction parts as [|part parts IH]; intros m; simpl; [discriminate|].
  destruct (json_loads part) as [v|e'] eqn:L.
  - destruct (dict_update m v) as [m'|e''] eqn:U.
    + intros H. destruct (IH _ H) as [H1 [[x [Hx Ex]]|H2]].
      * split; [exact H1|]. left. exists x. split; [now right | exact Ex].
      * split; [exact H1 | now right].
    + intros H. injection H as <-.
      pose proof (dict_update_exn _ _ U) as T.
      split; [now apply type_or_value_error_not_decode | now right].
  - destruct (is_decode_error e') eqn:D.
    + intros H. destruct (IH _ H) as [H1 [[x [Hx Ex]]|H2]].
      * split; [exact H1|]. left. exists x. split; [now right | exact Ex].
      * split; [exact H1 | now right].
    + intros H. injection H as <-. split; [exact D|].
      left. exists part. split; [now left | exact L].
Qed.

(** X10. Once the concatenation marker is present the decoding never ends
    with a decode error.  An exception that ends it is an exception other
    than a decode error that [json.loads] raised on the payload or on one of
    its fragments, or the [TypeError] or [ValueError] of a merge. *)
Theorem marked_payload_never_decode_error payload e :
  contains concat_pattern payload = true ->
  fst (decode_arguments json_loads payload) = Raise e ->
  is_decode_error e = false /\
  ((exists part, In part (payload :: split_json_parts payload) /\
                 json_loads part = Raise e) \/
   type_or_value_error e).
Proof.
  intros Hc. unfold decode_arguments.
  destruct (truthy payload); [|discriminate].
  destruct (json_loads payload) as [v|e0] eqn:L; [discriminate|].
  destruct (is_decode_error e0) eqn:D.
  - rewrite Hc. unfold bind, log, lift, ret.
    destruct (merge_parts json_loads (split_json_parts payload) empty_args)
      as [m|e1] eqn:M; simpl; [discriminate|].
    intros H. injection H as <-.
    destruct (merge_parts_raise _ _ M) as [H1 [[x [Hx Ex]]|H2]].
    + split; [exact H1|]. left. exists x. split; [now right | exact Ex].
    + split; [exact H1 | now right].
  - simpl. intros H. injection H as <-. split; [exact D|].
    left. exists payload. split; [now left | exact L].
Qed.

(** *** The shape of the fragments *)

Lemma opens_brace_app s c :
  opens_brace s = true -> opens_brace (s ++ String c "") = true.
Proof.
  unfold opens_brace. destruct s as [|x s]; [discriminate|].
  simpl append. rewrite !prefix_cons.
  destruct (ascii_dec "{" x); [intros _; apply prefix_nil | discriminate].
Qed.

Lemma split_step_tail_opens st c : tail_opens st -> tail_opens (split_step st c).
Proof.
  unfold tail_opens, split_step. intros H.
  destruct (Ascii.eqb c "{") eqn:Ec.
  - apply Ascii.eqb_eq in Ec. subst c.
    destruct ((brace_count st =? 0)%Z && truthy (current_part st)); simpl.
    + destruct (json_parts st) as [|h rest]; simpl.
      * split; [constructor | reflexivity].
      * destruct H as [H1 H2]. split; [|reflexivity].
        apply Forall_app. split; [exact H1 | now repeat constructor].
    + destruct (json_parts st) as [|h rest]; [exact I|].
      destruct H as [H1 H2]. split; [exact H1 | now apply opens_brace_app].
  - destruct (Ascii.eqb c "}"); simpl;
      (destruct (json_parts st) as [|h rest]; [exact I|];
       destruct H as [H1 H2]; split; [exact H1 | now apply opens_brace_app]).
Qed.

Lemma split_loop_tail_opens s st : tail_opens st -> tail_opens (split_loop st s).
Proof.
  revert st. induction s as [|c s IH]; intros st H; [exact H|].
  rewrite split_loop_cons. now apply IH, split_step_tail_opens.
Qed.

(** The shape of the fragments. *)
Lemma split_json_parts_shape payload :
  Forall (fun part => opens_brace part = true) (tl (split_json_parts payload)) /\
  (forall first rest, split_json_parts payload = first :: rest ->
     payload = first ++ join "" rest).
Proof.
  split.
  - unfold split_json_parts, finish_split.
    pose proof (split_loop_tail_opens payload (mkSplit [] "" 0) I) as H.
    unfold tail_opens in H.
    destruct (json_parts (split_loop (mkSplit [] "" 0) payload)) as [|h rest].
    + destruct (truthy _); constructor.
    + destruct H as [H1 H2]. destruct (truthy _); simpl; [|exact H1].
      apply Forall_app. split; [exact H1 | now repeat constructor].
  - intros first rest E.
    rewrite <- (split_json_parts_join payload) at 1.
    now rewrite E, join_empty_cons.
Qed.

(** X11. Every fragment after the first opens with a brace, and the first
    fragment is a prefix of the payload: only the first fragment can hold
    text that precedes the first object. *)
Theorem fragments_open_with_brace payload :
  Forall (fun part => opens_brace part = true) (tl (split_json_parts payload)) /\
  (forall first rest, split_json_parts payload = first :: rest ->
     payload = first ++ join "" rest).
Proof. exact (split_json_parts_shape payload). Qed.

(** When every value that [json.loads] returns for a fragment is an
    object, only [json.loads] can end the loop. *)
Lemma merge_objects_raise parts m e :
  (forall part v, In part parts -> json_loads part = Ok v ->
                  exists d, v = VDict d) ->
  merge_parts json_loads parts m = Raise e ->
  is_decode_error e = false /\
  exists part, In part parts /\ json_loads part = Raise e.
Proof.
  revert m. induction parts as [|part parts IH]; intros m Hobj; simpl;
    [discriminate|].
  assert (Hrest : forall p v, In p parts -> json_loads p = Ok v ->
                              exists d, v = VDict d)
    by (intros p v Hp; apply Hobj; now right).
  destruct (json_loads part) as [v|e'] eqn:L.
  - destruct (Hobj part v (or_introl eq_refl) L) as [d ->]. simpl.
    intros H. destruct (IH _ Hrest H) as [H1 [x [Hx Ex]]].
    split; [exact H1|]. exists x. split; [now right | exact Ex].
  - destruct (is_decode_error e') eqn:D.
    + intros H. destruct (IH _ Hrest H) as [H1 [x [Hx Ex]]].
      split; [exact H1|]. exists x. split; [now right | exact Ex].
    + intros H. injection H as <-. split; [exact D|].
      exists part. split; [now left | exact L].
Qed.

(** Every fragment of a payload that opens with a brace opens with a
    brace. *)
Lemma fragments_of_brace_led payload part :
  opens_brace payload = true -> In part (split_json_parts payload) ->
  opens_brace part = true.
Proof.
  intros Hopen Hin.
  destruct (split_json_parts_shape payload) as [Htail Hhead].
  destruct (split_json_parts payload) as [|first rest] eqn:E; [contradiction|].
  destruct Hin as [<-|Hin].
  - pose proof (split_json_parts_truthy payload) as Hne. rewrite E in Hne.
    inversion Hne as [|? ? Hf _]; subst.
    specialize (Hhead first rest eq_refl).
    destruct first as [|c first]; [discriminate|].
    rewrite Hhead in Hopen. unfold opens_brace in *. simpl append in Hopen.
    rewrite prefix_cons in *.
    destruct (ascii_dec "{" c); [apply prefix_nil | discriminate].
  - simpl in Htail. rewrite Forall_forall in Htail. now apply Htail.
Qed.

(** X12. If [json.loads] maps a document that opens with a brace to nothing
    but an object, as JSON demands, then the merge of a repair of a payload
    that opens with a brace cannot raise.  When [json.loads] raises nothing
    but decode errors on the fragments, the decoded arguments are the
    objects among the fragments, merged in order; and an exception that ends
    the repair was raised by [json.loads] on a fragment and is no decode
    error. *)
Theorem brace_led_repair_succeeds payload e :
  (forall s v, opens_brace s = true -> json_loads s = Ok v ->
               exists d, v = VDict d) ->
  opens_brace payload = true ->
  json_loads payload = Raise e -> is_decode_error e = true ->
  contains concat_pattern payload = true ->
  ((forall part e', In part (split_json_parts payload) ->
      json_loads part = Raise e' -> is_decode_error e' = true) ->
   fst (decode_arguments json_loads payload) =
   Ok (Repaired
         (mkArgDict
            (merge_objects (parsed_objects json_loads (split_json_parts payload)))
            false))) /\
  (forall e', fst (decode_arguments json_loads payload) = Raise e' ->
     is_decode_error e' = false /\
     exists part, In part (split_json_parts payload) /\
                  json_loads part = Raise e').
Proof.
  intros Hjson Hopen Hl He Hc.
  assert (Ht : truthy payload = true) by (destruct payload; [discriminate | reflexivity]).
  assert (Hobj : forall part v, In part (split_json_parts payload) ->
                   json_loads part = Ok v -> exists d, v = VDict d).
  { intros part v Hin Hv. apply (Hjson part v); [|exact Hv].
    now apply (fragments_of_brace_led payload). }
  split.
  - intros Hdec. apply (@decode_repair json_loads payload e Ht Hl He Hc).
    intros part Hin. unfold merged_or_dropped.
    destruct (json_loads part) as [v|e'] eqn:L.
    + left. destruct (Hobj part v Hin L) as [d ->]. now exists d.
    + right. exists e'. split; [reflexivity | now apply (Hdec part)].
  - intros e'. rewrite (@decode_repair_merge json_loads payload e Ht Hl He Hc).
    destruct (merge_parts json_loads (split_json_parts payload) empty_args)
      as [m|e1] eqn:M; [discriminate|].
    intros H. injection H as <-. now apply (merge_objects_raise _ _ Hobj M).
Qed.

(** *** Routing of a call that goes through *)

(** X14. When the name is registered with one of the four conventions, the
    payload decodes to keyword arguments and the capability returns, the
    dispatcher returns exactly that result and logs no error. *)
Theorem dispatch_success (registry : dict (FunctionItem Conn)) (conn : Conn)
    call item a l kw r :
  get_function registry (name call) = Some item ->
  type item <> OTHER_TOOL_TYPE ->
  decode_arguments json_loads (arguments call) = (Ok a, l) ->
  kwargs a = Ok kw ->
  func item (passed_conn conn item) kw = Ok r ->
  handle_llm_function_call json_loads registry conn call =
    (Ok r,
     [(INFO, Received call); (INFO, RawArguments (arguments call))]
       ++ l ++ [(DEBUG, Calling (name call) a)])%list.
Proof.
  intros Hreg Hty Hd Hkw Hr.
  unfold handle_llm_function_call, handle_body, dispatch.
  rewrite Hreg. simpl. rewrite Hd. simpl.
  unfold passed_conn in Hr.
  destruct (type item); try contradiction;
    simpl; rewrite Hkw; simpl; rewrite Hr; simpl;
    now rewrite ?app_nil_r, <- ?app_assoc.
Qed.

(** X15. A registered capability whose tool type is none of the four that
    the dispatcher names is never called: once its payload decodes, the
    answer is the not-found response of an unregistered name, even when the
    decoded value could not serve as keyword arguments. *)
Theorem unsupported_type_not_found (registry : dict (FunctionItem Conn))
    (conn : Conn) call item a l :
  get_function registry (name call) = Some item ->
  type item = OTHER_TOOL_TYPE ->
  decode_arguments json_loads (arguments call) = (Ok a, l) ->
  handle_llm_function_call json_loads registry conn call =
    (Ok (Some not_found_response),
     [(INFO, Received call); (INFO, RawArguments (arguments call))]
       ++ l ++ [(DEBUG, Calling (name call) a)])%list.
Proof.
  intros Hreg Hty Hd.
  unfold handle_llm_function_call, handle_body, dispatch.
  rewrite Hreg. simpl. rewrite Hd, Hty. simpl.
  now rewrite ?app_nil_r.
Qed.

End Repair.

End DispatcherExtras.

(** ** The description of [plugin_loader]: what the substitution leaves alone *)

Module RegistryExtras.
Import PyDict KeyFacts StringFacts FunctionHandler RegistryProperties.
Open Scope string_scope.

Lemma replace_in_plugin_loader_names j descs :
  map desc_name (replace_in_plugin_loader j descs) = map desc_name descs /\
  map desc_parameters (replace_in_plugin_loader j descs)
    = map desc_parameters descs.
Proof.
  induction descs as [|x descs [IH1 IH2]]; simpl; [split; reflexivity|].
  destruct (String.eqb (desc_name x) "plugin_loader"); simpl.
  - split; reflexivity.
  - now rewrite IH1, IH2.
Qed.

Lemma replace_in_plugin_loader_others j descs x :
  desc_name x <> "plugin_loader" ->
  (In x (replace_in_plugin_loader j descs) <-> In x descs).
Proof.
  intros Hx. induction descs as [|y descs IH]; simpl; [tauto|].
  destruct (String.eqb_spec (desc_name y) "plugin_loader") as [E|N]; simpl.
  - split; (intros [H|H]; [|now right]); exfalso; subst x; simpl in Hx; congruence.
  - rewrite IH. tauto.
Qed.

Lemma replace_in_plugin_loader_no_token j descs :
  (forall x, In x descs -> desc_name x = "plugin_loader" ->
             contains token (desc_description x) = false) ->
  replace_in_plugin_loader j descs = descs.
Proof.
  induction descs as [|y descs IH]; intros H; simpl; [reflexivity|].
  destruct (String.eqb_spec (desc_name y) "plugin_loader") as [E|N].
  - rewrite replace_no_token by (apply H; [now left | exact E]).
    now destruct y.
  - f_equal. apply IH. intros x Hx. apply H. now right.
Qed.

(** X16. Whatever list of names it is given, [modify_plugin_loader_des]
    keeps the number, the order, the names and the parameter schemas of the
    descriptions and every description that is not named [plugin_loader];
    and it changes nothing at all when [plugin_loader] is not among the
    names or when no description of [plugin_loader] holds the
    placeholder. *)
Theorem modify_plugin_loader_frame func_names functions_desc :
  map desc_name (modify_plugin_loader_des func_names functions_desc)
    = map desc_name functions_desc /\
  map desc_parameters (modify_plugin_loader_des func_names functions_desc)
    = map desc_parameters functions_desc /\
  (forall x, desc_name x <> "plugin_loader" ->
     (In x (modify_plugin_loader_des func_names functions_desc)
      <-> In x functions_desc)) /\
  (list_mem "plugin_loader" func_names = false ->
   modify_plugin_loader_des func_names functions_desc = functions_desc) /\
  ((forall x, In x functions_desc -> desc_name x = "plugin_loader" ->
              contains token (desc_description x) = false) ->
   modify_plugin_loader_des func_names functions_desc = functions_desc).
Proof.
  unfold modify_plugin_loader_des.
  destruct (list_mem "plugin_loader" func_names); simpl.
  - split; [apply replace_in_plugin_loader_names|].
    split; [apply replace_in_plugin_loader_names|].
    split; [intros x Hx; now apply replace_in_plugin_loader_others|].
    split; [discriminate|].
    apply replace_in_plugin_loader_no_token.
  - repeat split; tauto.
Qed.

End RegistryExtras.

(** ** The cached weather lookup *)

Module WeatherPluginFacts.
Import PyDict PyDictFacts WeatherCache WeatherCacheFacts WeatherCacheProperties.
Import FunctionHandler WeatherPlugin CacheRuns CacheExtras.
Open Scope string_scope.

Lemma get_city_evictions clk loc (p : WeatherCachePool pyvalue) :
  evictions (_stats (snd (get_city_info clk loc p))) = evictions (_stats p).
Proof.
  unfold get_city_info. destruct (get _ (_city_cache p)) as [e|]; [|reflexivity].
  destruct (negb (_is_expired clk e)); reflexivity.
Qed.

Lemma get_weather_evictions clk loc (p : WeatherCachePool pyvalue) :
  evictions (_stats (snd (get_weather_data clk loc p))) = evictions (_stats p).
Proof.
  unfold get_weather_data. destruct (get _ (_weather_cache p)) as [e|]; [|reflexivity].
  destruct (negb (_is_expired clk e)); reflexivity.
Qed.

Lemma fetch_city_unfold http ok cfg clk1 clk2 loc key host
    (p : WeatherCachePool pyvalue) :
  fetch_city_info_cached http ok cfg clk1 clk2 loc key host p =
  let r := get_city_info clk1 loc p in
  if py_truthy (of_option (fst r)) then mkFetched (of_option (fst r)) (snd r) []
  else
    match http (lookup_url loc key host) with
    | Raise _ => mkFetched VNone (snd r) [lookup_url loc key host]
    | Ok data =>
        match first_location data with
        | Raise _ => mkFetched VNone (snd r) [lookup_url loc key host]
        | Ok city_info =>
            if py_truthy city_info then
              if set_city_info_returns ok cfg clk2
              then mkFetched city_info
                     (set_city_info cfg clk2 loc city_info (snd r))
                     [lookup_url loc key host]
              else mkFetched VNone
                     (set_city_info cfg clk2 loc city_info (snd r))
                     [lookup_url loc key host]
            else mkFetched city_info (snd r) [lookup_url loc key host]
        end
    end.
Proof.
  unfold fetch_city_info_cached. now destruct (get_city_info clk1 loc p).
Qed.

(** A lookup that misses the cache and is answered by the service with a
    truthy first location. *)
Lemma fetch_city_answered http ok cfg clk1 clk2 loc key host
    (p : WeatherCachePool pyvalue) d city rest :
  fst (get_city_info clk1 loc p) = None ->
  http (lookup_url loc key host) = Ok (VDict d) ->
  get "location" d = Some (VList (city :: rest)) ->
  py_truthy city = true ->
  fetch_city_info_cached http ok cfg clk1 clk2 loc key host p =
  mkFetched (if set_city_info_returns ok cfg clk2 then city else VNone)
    (set_city_info cfg clk2 loc city (snd (get_city_info clk1 loc p)))
    [lookup_url loc key host].
Proof.
  intros Hmiss Hhttp Hloc Hcity.
  rewrite fetch_city_unfold. cbv zeta.
  rewrite Hmiss, Hhttp. simpl of_option. simpl py_truthy. cbv iota.
  unfold first_location. rewrite Hloc. simpl py_truthy. cbv iota.
  simpl first_item. cbv iota. rewrite Hcity.
  destruct (set_city_info_returns ok cfg clk2); reflexivity.
Qed.

(** A lookup in a pool that has just stored the city. *)
Lemma fetch_city_hit http ok cfg cfg' clk0 clk clk' loc key host
    (p : WeatherCachePool pyvalue) city :
  py_truthy city = true ->
  evictions (_stats (set_city_info cfg clk0 loc city p)) = evictions (_stats p) ->
  time_time clk <= time_time clk0 + city_cache_ttl cfg ->
  returned (fetch_city_info_cached http ok cfg' clk clk' loc key host
              (set_city_info cfg clk0 loc city p)) = city /\
  requested (fetch_city_info_cached http ok cfg' clk clk' loc key host
               (set_city_info cfg clk0 loc city p)) = [].
Proof.
  intros Hcity Hev Hnow. rewrite fetch_city_unfold. cbv zeta.
  rewrite get_city_fresh by assumption.
  simpl of_option. rewrite Hcity. split; reflexivity.
Qed.

(** X17. Read-through: when a city lookup misses the cache, the service
    answers with a non-empty list whose first element is truthy, storing it
    evicts nothing and the log line of the setter does not raise, the
    lookup returns that element after one request; and every lookup of the
    same place until the entry expires returns it again without any
    request, whatever the service would answer. *)
Theorem city_lookup_read_through http http' ok ok' cfg clk1 clk2 clk3 clk4
    loc key host (p : WeatherCachePool pyvalue) d city rest :
  fst (get_city_info clk1 loc p) = None ->
  http (lookup_url loc key host) = Ok (VDict d) ->
  get "location" d = Some (VList (city :: rest)) ->
  py_truthy city = true ->
  set_city_info_returns ok cfg clk2 = true ->
  evictions (_stats (pool_after
     (fetch_city_info_cached http ok cfg clk1 clk2 loc key host p)))
    = evictions (_stats p) ->
  time_time clk3 <= time_time clk2 + city_cache_ttl cfg ->
  returned (fetch_city_info_cached http ok cfg clk1 clk2 loc key host p) = city /\
  requested (fetch_city_info_cached http ok cfg clk1 clk2 loc key host p)
    = [lookup_url loc key host] /\
  returned (fetch_city_info_cached http' ok' cfg clk3 clk4 loc key host
              (pool_after (fetch_city_info_cached http ok cfg clk1 clk2 loc key host p)))
    = city /\
  requested (fetch_city_info_cached http' ok' cfg clk3 clk4 loc key host
               (pool_after (fetch_city_info_cached http ok cfg clk1 clk2 loc key host p)))
    = [].
Proof.
  intros Hmiss Hhttp Hloc Hcity Hok.
  rewrite (@fetch_city_answered http ok cfg clk1 clk2 loc key host p d city rest
             Hmiss Hhttp Hloc Hcity).
  rewrite Hok. simpl. intros Hev Hnow.
  split; [reflexivity | split; [reflexivity|]].
  apply fetch_city_hit; [exact Hcity | | exact Hnow].
  now rewrite Hev, get_city_evictions.
Qed.

(** X18. No negative caching: a city lookup that returns a falsy value,
    where a store would not have raised on its log line, has stored nothing
    and has asked the service; the next lookup of the same place asks the
    service again. *)
Theorem city_lookup_failure_not_cached http http' ok ok' cfg clk1 clk2 clk3 clk4
    loc key host (p : WeatherCachePool pyvalue) :
  set_city_info_returns ok cfg clk2 = true ->
  py_truthy (returned (fetch_city_info_cached http ok cfg clk1 clk2 loc key host p))
    = false ->
  pool_after (fetch_city_info_cached http ok cfg clk1 clk2 loc key host p)
    = snd (get_city_info clk1 loc p) /\
  requested (fetch_city_info_cached http ok cfg clk1 clk2 loc key host p)
    = [lookup_url loc key host] /\
  requested (fetch_city_info_cached http' ok' cfg clk3 clk4 loc key host
               (pool_after (fetch_city_info_cached http ok cfg clk1 clk2 loc key host p)))
    = [lookup_url loc key host].
Proof.
  intros Hok. rewrite (fetch_city_unfold http). cbv zeta. rewrite Hok.
  intros Hfalsy.
  assert (Hcached : py_truthy (of_option (fst (get_city_info clk1 loc p))) = false).
  { destruct (py_truthy (of_option (fst (get_city_info clk1 loc p)))) eqn:T;
      [|reflexivity].
    simpl in Hfalsy. congruence. }
  rewrite Hcached in *.
  assert (Hpool : pool_after
            match http (lookup_url loc key host) with
            | Ok data =>
                match first_location data with
                | Ok city_info =>
                    if py_truthy city_info
                    then mkFetched city_info
                           (set_city_info cfg clk2 loc city_info
                              (snd (get_city_info clk1 loc p)))
                           [lookup_url loc key host]
                    else mkFetched city_info (snd (get_city_info clk1 loc p))
                           [lookup_url loc key host]
                | Raise _ =>
                    mkFetched VNone (snd (get_city_info clk1 loc p))
                      [lookup_url loc key host]
                end
            | Raise _ =>
                mkFetched VNone (snd (get_city_info clk1 loc p))
                  [lookup_url loc key host]
            end = snd (get_city_info clk1 loc p)).
  { destruct (http (lookup_url loc key host)) as [data|e]; [|reflexivity].
    destruct (first_location data) as [c|e]; [|reflexivity].
    destruct (py_truthy c) eqn:T; [|reflexivity].
    simpl in Hfalsy. congruence. }
  split; [exact Hpool | split].
  - destruct (http (lookup_url loc key host)) as [data|e]; [|reflexivity].
    destruct (first_location data) as [c|e]; [|reflexivity].
    destruct (py_truthy c); reflexivity.
  - rewrite Hpool, (fetch_city_unfold http'). cbv zeta.
    assert (Hagain : py_truthy (of_option
              (fst (get_city_info clk3 loc (snd (get_city_info clk1 loc p)))))
            = false).
    { clear Hpool Hfalsy. revert Hcached. unfold get_city_info.
      destruct (get (_generate_city_key loc) (_city_cache p)) as [e|] eqn:G.
      - destruct (negb (_is_expired clk1 e)) eqn:X; simpl.
        + rewrite G. destruct (negb (_is_expired clk3 e)); simpl; auto.
        + rewrite get_pop_same. reflexivity.
      - simpl. rewrite G. reflexivity. }
    rewrite Hagain.
    destruct (http' (lookup_url loc key host)) as [data|e]; [|reflexivity].
    destruct (first_location data) as [c|e]; [|reflexivity].
    destruct (py_truthy c);
      [destruct (set_city_info_returns ok' cfg clk4)|]; reflexivity.
Qed.

(** X21. A city is stored although the lookup reports a failure: when the
    lookup misses the cache and the service answers with a truthy first
    location, but the expiry of the new entry lies outside the range of
    [datetime.fromtimestamp], the log line of [set_city_info] raises after
    the entry is stored, and the lookup returns [None] after its request.
    If the store evicted nothing, every later lookup of the place until the
    entry expires returns the city without any request. *)
Theorem city_lookup_stored_despite_failure http http' ok ok' cfg
    clk1 clk2 clk3 clk4 loc key host (p : WeatherCachePool pyvalue) d city rest :
  fst (get_city_info clk1 loc p) = None ->
  http (lookup_url loc key host) = Ok (VDict d) ->
  get "location" d = Some (VList (city :: rest)) ->
  py_truthy city = true ->
  set_city_info_returns ok cfg clk2 = false ->
  evictions (_stats (pool_after
     (fetch_city_info_cached http ok cfg clk1 clk2 loc key host p)))
    = evictions (_stats p) ->
  time_time clk3 <= time_time clk2 + city_cache_ttl cfg ->
  returned (fetch_city_info_cached http ok cfg clk1 clk2 loc key host p) = VNone /\
  requested (fetch_city_info_cached http ok cfg clk1 clk2 loc key host p)
    = [lookup_url loc key host] /\
  pool_after (fetch_city_info_cached http ok cfg clk1 clk2 loc key host p)
    = set_city_info cfg clk2 loc city (snd (get_city_info clk1 loc p)) /\
  returned (fetch_city_info_cached http' ok' cfg clk3 clk4 loc key host
              (pool_after (fetch_city_info_cached http ok cfg clk1 clk2 loc key host p)))
    = city /\
  requested (fetch_city_info_cached http' ok' cfg clk3 clk4 loc key host
               (pool_after (fetch_city_info_cached http ok cfg clk1 clk2 loc key host p)))
    = [].
Proof.
  intros Hmiss Hhttp Hloc Hcity Hok.
  rewrite (@fetch_city_answered http ok cfg clk1 clk2 loc key host p d city rest
             Hmiss Hhttp Hloc Hcity).
  rewrite Hok. simpl. intros Hev Hnow.
  split; [reflexivity | split; [reflexivity | split; [reflexivity|]]].
  apply fetch_city_hit; [exact Hcity | | exact Hnow].
  now rewrite Hev, get_city_evictions.
Qed.

(** *** The weather page *)

Lemma scrape_and_store_requests scrape repr ok cfg clk d loc
    (p : WeatherCachePool pyvalue) :
  request_counters
    (_stats (pool_after (scrape_and_store scrape repr ok cfg clk d loc p)))
  = request_counters (_stats p).
Proof.
  unfold scrape_and_store.
  destruct (get "fxLink" d) as [link|]; [|reflexivity].
  destruct (scrape link) as [wd|e]; [|reflexivity].
  destruct (py_truthy (fst (fst (fst wd)))); [|reflexivity].
  destruct (set_weather_data_returns ok cfg clk);
    simpl; unfold set_weather_data; now rewrite evict_lru_requests.
Qed.

Lemma get_weather_counts_one clk loc (p : WeatherCachePool pyvalue) :
  let s := _stats p in
  let s' := _stats (snd (get_weather_data clk loc p)) in
  (weather_hits s' + weather_misses s' = weather_hits s + weather_misses s + 1)%nat /\
  city_hits s' = city_hits s /\ city_misses s' = city_misses s.
Proof.
  unfold get_weather_data. destruct (get _ (_weather_cache p)) as [e|]; simpl.
  - destruct (negb (_is_expired clk e)); simpl; lia.
  - lia.
Qed.

(** X19. A forced refresh does not read the cache: it counts neither a hit
    nor a miss; every other call of [fetch_and_parse_weather_cached] that
    returns counts exactly one weather request.  Neither touches the
    counters of the city namespace. *)
Theorem weather_fetch_request_count scrape repr ok cfg clk1 clk2 city_info
    (p : WeatherCachePool pyvalue) force r :
  fetch_and_parse_weather_cached scrape repr ok cfg clk1 clk2 city_info p force
    = Ok r ->
  let s := _stats p in
  let s' := _stats (pool_after r) in
  (weather_hits s' + weather_misses s'
   = weather_hits s + weather_misses s + (if force then 0 else 1))%nat /\
  city_hits s' = city_hits s /\ city_misses s' = city_misses s.
Proof.
  unfold fetch_and_parse_weather_cached.
  destruct city_info as [| | | | | |d]; simpl; try discriminate.
  destruct (get "name" d) as [nm|];
    (destruct force; simpl;
     [ intros H; injection H as <-;
       match goal with
       | |- context [scrape_and_store ?a ?b ?o ?c ?d ?e ?f ?g] =>
           pose proof (scrape_and_store_requests a b o c d e f g) as R
       end;
       unfold request_counters in R; injection R as R1 R2 R3 R4; simpl; lia
     | match goal with
       | |- context [get_weather_data ?c ?l ?q] =>
           pose proof (get_weather_counts_one c l q) as G;
           destruct (get_weather_data c l q) as [cached p1]
       end;
       simpl in G;
       destruct (py_truthy (of_option cached));
       intros H; injection H as <-; simpl;
       [ lia
       | match goal with
         | |- context [scrape_and_store ?a ?b ?o ?c ?d ?e ?f ?g] =>
             pose proof (scrape_and_store_requests a b o c d e f g) as R
         end;
         unfold request_counters in R; injection R as R1 R2 R3 R4; lia ] ]).
Qed.

(** X20. Read-through for the weather page.  When a call goes to the page
    (forced, or after a miss), the scrape succeeds with a truthy city name,
    storing the result evicts nothing and the log line of the setter does
    not raise, the call returns the dictionary built from the scrape; and a
    later call that is not forced, for a city record with the same name, in
    the same clock hour and before the entry expires, returns that
    dictionary without any request.  The name, not the city record,
    addresses the entry. *)
Theorem weather_fetch_read_through scrape scrape' repr ok ok' cfg
    clk1 clk2 clk3 clk4 d1 d2 nm link wd (p : WeatherCachePool pyvalue) force r1 :
  city_name (VDict d1) = Ok nm -> city_name (VDict d2) = Ok nm ->
  get "fxLink" d1 = Some link ->
  scrape link = Ok wd -> py_truthy (fst (fst (fst wd))) = true ->
  set_weather_data_returns ok cfg clk2 = true ->
  force = true \/ fst (get_weather_data clk1 (format_value repr nm) p) = None ->
  fetch_and_parse_weather_cached scrape repr ok cfg clk1 clk2 (VDict d1) p force
    = Ok r1 ->
  evictions (_stats (pool_after r1)) = evictions (_stats p) ->
  strftime_hour clk3 = strftime_hour clk2 ->
  time_time clk3 <= time_time clk2 + weather_cache_ttl cfg ->
  returned r1 = cached_data wd /\
  requested r1 = [format_value repr link] /\
  exists r2,
    fetch_and_parse_weather_cached scrape' repr ok' cfg clk3 clk4 (VDict d2)
      (pool_after r1) false = Ok r2 /\
    returned r2 = cached_data wd /\ requested r2 = [].
Proof.
  intros Hn1 Hn2 Hlink Hscrape Hname Hok Hfirst Hr1 Hev Hhour Hnow.
  set (loc := format_value repr nm) in *.
  set (p1 := if force then p else snd (get_weather_data clk1 loc p)).
  assert (Hp1 : evictions (_stats p1) = evictions (_stats p)).
  { unfold p1. destruct force; [reflexivity | apply get_weather_evictions]. }
  assert (Hr1' : r1 = mkFetched (cached_data wd)
                        (set_weather_data cfg clk2 loc (cached_data wd) p1)
                        [format_value repr link]).
  { unfold fetch_and_parse_weather_cached in Hr1. rewrite Hn1 in Hr1.
    fold loc in Hr1. unfold p1.
    destruct force; simpl in Hr1.
    - unfold scrape_and_store in Hr1.
      rewrite Hlink, Hscrape, Hname, Hok in Hr1.
      now injection Hr1 as <-.
    - destruct Hfirst as [Hf|Hmiss]; [discriminate|].
      destruct (get_weather_data clk1 loc p) as [cached q]. simpl in Hmiss.
      subst cached. simpl in Hr1.
      unfold scrape_and_store in Hr1.
      rewrite Hlink, Hscrape, Hname, Hok in Hr1.
      now injection Hr1 as <-. }
  subst r1. simpl in *. split; [reflexivity | split; [reflexivity|]].
  unfold fetch_and_parse_weather_cached. rewrite Hn2. fold loc. simpl negb.
  cbv iota.
  assert (Hget : fst (get_weather_data clk3 loc
                        (set_weather_data cfg clk2 loc (cached_data wd) p1))
                 = Some (cached_data wd)).
  { apply get_weather_fresh; [now rewrite Hev, Hp1 | exact Hhour | exact Hnow]. }
  destruct (get_weather_data clk3 loc
              (set_weather_data cfg clk2 loc (cached_data wd) p1))
    as [cached q]. simpl in Hget. subst cached.
  assert (Htruthy : py_truthy (of_option (Some (cached_data wd))) = true).
  { unfold cached_data. destruct wd as [[[a b] c] t]. reflexivity. }
  rewrite Htruthy. eexists. split; [reflexivity | split; reflexivity].
Qed.

End WeatherPluginFacts.

(** ** The further properties on sample data *)
Module ExtrasExamples.
Import PyDict WeatherCache FunctionHandler WeatherPlugin FragmentShape Samples
  WeatherCacheFacts WeatherCacheExamples.
Open Scope string_scope.

Lemma pool_two_reachable : reachable (config_capacity 3) pool_two.
Proof. unfold pool_two. apply reach_set_weather, reach_set_weather, reach_init. Qed.

(** On the table of the examples, a document that opens with a brace
    decodes to an object. *)
Lemma json_loads_examples_objects (s : string) (v : pyvalue) :
  opens_brace s = true -> json_loads_examples s = Ok v ->
  exists d, v = VDict d.
Proof.
  unfold json_loads_examples. intros Hb H.
  destruct (String.eqb s (js "{'a':1}")); [injection H as <-; eexists; reflexivity|].
  destruct (String.eqb s (js "{'b':2}")); [injection H as <-; eexists; reflexivity|].
  destruct (String.eqb s (js "{'c':3}")); [injection H as <-; eexists; reflexivity|].
  destruct (String.eqb s "1") eqn:E1.
  { apply String.eqb_eq in E1. subst s. discriminate. }
  destruct (String.eqb s (js "['日本']")) eqn:E2.
  { apply String.eqb_eq in E2. subst s. discriminate. }
  destruct (String.eqb s long_integer_object); discriminate.
Qed.

(** A pool of capacity 2 after two insertions holds one entry. *)
Lemma size_below_capacity_witness :
  (1 <= max_cache_size (config_capacity 2))%Z /\
  reachable (config_capacity 2) pool_AB /\
  (total_entries pool_AB < max_cache_size (config_capacity 2))%Z.
Proof.
  assert (H1 : (1 <= max_cache_size (config_capacity 2))%Z) by (simpl; lia).
  assert (H2 : reachable (config_capacity 2) pool_AB)
    by (unfold pool_AB; apply reach_set_weather, pool_A_reachable).
  split; [exact H1 | split; [exact H2 |]].
  exact (@CacheExtras.size_below_capacity string (config_capacity 2) pool_AB H1 H2).
Defined.

(** At 4000 s the weather entry of Paris, stored at 10 s for an hour, is
    removed with its index record; the city entry, stored for a day,
    stays. *)
Lemma clean_expired_exact_witness :
  let p := clean_expired (clock_h1 4000) pool_paris in
  pool_inv pool_paris /\
  get "weather_Paris_19700101_00" (_weather_cache p) = None /\
  get "city_Paris" (_city_cache p) = get "city_Paris" (_city_cache pool_paris) /\
  get "weather_Paris_19700101_00" (_access_order p) = None /\
  _stats p = _stats pool_paris.
Proof.
  intros p.
  assert (H : pool_inv pool_paris) by exact (reachable_inv pool_paris_reachable).
  split; [exact H |].
  destruct (@CacheExtras.clean_expired_exact string (clock_h1 4000) pool_paris H)
    as (Hw & Hc & Ha & Hs).
  split; [exact (Hw "weather_Paris_19700101_00") |].
  split; [exact (Hc "city_Paris") |].
  split; [exact (Ha "weather_Paris_19700101_00") | exact Hs].
Defined.

(** A reader at 5000 s does not see whether the janitor ran at 4000 s. *)
Lemma clean_expired_transparent_witness :
  pool_inv pool_paris /\
  time_time (clock_h1 4000) <= time_time (clock_h1 5000) /\
  fst (get_weather_data (clock_h1 5000) "Paris"
         (clean_expired (clock_h1 4000) pool_paris))
    = fst (get_weather_data (clock_h1 5000) "Paris" pool_paris) /\
  fst (get_city_info (clock_h1 5000) "Paris"
         (clean_expired (clock_h1 4000) pool_paris))
    = fst (get_city_info (clock_h1 5000) "Paris" pool_paris).
Proof.
  assert (H1 : pool_inv pool_paris) by exact (reachable_inv pool_paris_reachable).
  assert (H2 : time_time (clock_h1 4000) <= time_time (clock_h1 5000))
    by (vm_compute; discriminate).
  split; [exact H1 | split; [exact H2 |]].
  exact (@CacheExtras.clean_expired_transparent string (clock_h1 4000)
           (clock_h1 5000) "Paris" pool_paris H1 H2).
Defined.

(** Storing the weather of Rome changes neither the city entry nor the
    weather entry of Paris. *)
Lemma put_leaves_other_keys_witness :
  let p' := set_weather_data default_config (clock_h0 30) "Rome" "rainy"
              pool_paris in
  evictions (_stats p') = evictions (_stats pool_paris) /\
  _generate_weather_key (clock_h0 40) "Paris" true
    <> _generate_weather_key (clock_h0 30) "Rome" true /\
  fst (get_city_info (clock_h0 40) "Paris" p')
    = fst (get_city_info (clock_h0 40) "Paris" pool_paris) /\
  fst (get_weather_data (clock_h0 40) "Paris" p')
    = fst (get_weather_data (clock_h0 40) "Paris" pool_paris).
Proof.
  intros p'.
  assert (H1 : evictions (_stats p') = evictions (_stats pool_paris))
    by reflexivity.
  assert (H2 : _generate_weather_key (clock_h0 40) "Paris" true
               <> _generate_weather_key (clock_h0 30) "Rome" true)
    by (vm_compute; discriminate).
  split; [exact H1 | split; [exact H2 |]].
  destruct (proj1 (@CacheExtras.put_leaves_other_keys string default_config
                     (clock_h0 30) "Rome" "rainy" (clock_h0 40) "Paris"
                     pool_paris) H1) as (Hc & Hw).
  split; [exact Hc | exact (Hw H2)].
Defined.

(** Capacity 3, entries A and B stored at 1 s and 2 s.  A is read at 5 s;
    the insertion of C at 6 s reaches the capacity and evicts B, not A. *)
Lemma recently_used_survives_witness :
  let cfg := config_capacity 3 in
  let kA := _generate_weather_key (clock_h0 5) "A" true in
  let p' := set_weather_data cfg (clock_h0 6) "C" "c"
              (snd (get_weather_data (clock_h0 5) "A" pool_two)) in
  (1 <= max_cache_size cfg)%Z /\
  reachable cfg pool_two /\
  fst (get_weather_data (clock_h0 5) "A" pool_two) = Some "a" /\
  get "weather_B_19700101_00" (_access_order pool_two) = Some 2 /\
  2 < time_time (clock_h0 5) /\
  get kA (_weather_cache p') = get kA (_weather_cache pool_two) /\
  get kA (_weather_cache pool_two) <> None /\
  get "weather_B_19700101_00" (_weather_cache p') = None.
Proof.
  intros cfg kA p'.
  assert (H1 : (1 <= max_cache_size cfg)%Z) by (simpl; lia).
  assert (H2 : reachable cfg pool_two) by exact pool_two_reachable.
  assert (H3 : fst (get_weather_data (clock_h0 5) "A" pool_two) = Some "a")
    by reflexivity.
  assert (H4 : get "weather_B_19700101_00" (_access_order pool_two) = Some 2)
    by reflexivity.
  assert (H5 : 2 < time_time (clock_h0 5)) by (vm_compute; reflexivity).
  assert (H6 : "weather_B_19700101_00" <> kA) by (vm_compute; discriminate).
  assert (H7 : _generate_weather_key (clock_h0 6) "C" true <> kA)
    by (vm_compute; discriminate).
  assert (H8 : _generate_weather_key (clock_h0 6) "C" true
               <> "weather_B_19700101_00") by (vm_compute; discriminate).
  split; [exact H1 | split; [exact H2 | split; [exact H3 |
    split; [exact H4 | split; [exact H5 |]]]]].
  destruct (@CacheExtras.recently_used_survives string cfg (clock_h0 5) "A"
              (clock_h0 6) "C" "c" pool_two "weather_B_19700101_00" 2 "a"
              H1 H2 H3 H4 H5 H6 H7 H8) as (Ha & Hb).
  split; [exact Ha | split; [exact Hb | reflexivity]].
Defined.

(** An entry with a TTL of 100 s and threshold 0.8: the hint holds at 85 s,
    so it holds at 90 s; and it holds at 150 s, when the entry is expired. *)
Lemma need_refresh_monotone_witness :
  let e := mkEntry "sunny" 0 100 "Paris" in
  let th := PyFloat.round (8#10) in
  time_time (clock_h0 85) <= time_time (clock_h0 90) /\
  _need_refresh default_config (clock_h0 85) e th = true /\
  _need_refresh default_config (clock_h0 90) e th = true /\
  th <= 1 /\
  _is_expired (clock_h0 150) e = true /\
  _need_refresh default_config (clock_h0 150) e th = true.
Proof.
  intros e th.
  assert (H1 : time_time (clock_h0 85) <= time_time (clock_h0 90))
    by (vm_compute; discriminate).
  assert (H2 : _need_refresh default_config (clock_h0 85) e th = true)
    by (vm_compute; reflexivity).
  assert (H3 : _is_expired (clock_h0 150) e = true) by reflexivity.
  assert (H4 : time_time (clock_h0 150) <= time_time (clock_h0 150))
    by (vm_compute; discriminate).
  assert (H5 : created_at e <= expires_at e) by (vm_compute; discriminate).
  assert (H6 : th <= 1) by (vm_compute; discriminate).
  split; [exact H1 | split; [exact H2 |]].
  split; [exact (proj1 (@CacheExtras.need_refresh_monotone string default_config
                          (clock_h0 85) (clock_h0 90) e th H1) H2) |].
  split; [exact H6 | split; [exact H3 |]].
  exact (proj2 (@CacheExtras.need_refresh_monotone string default_config
                  (clock_h0 150) (clock_h0 150) e th H4)
           eq_refl H5 H6 H3).
Defined.

(** One hit and one miss for the weather of Paris, no city lookup: the
    rates are 0.5 and 0.  With 1 hit in 49 requests the rate is the double
    nearest to 1/49, and 49 times that double is not 1. *)
Lemma stats_report_consistent_witness :
  let p := snd (get_weather_data (clock_h0 11) "Paris"
             (snd (get_weather_data (clock_h0 5) "Lyon" pool_paris))) in
  let r := CacheStats.get_stats default_config p in
  CacheStats.hits (CacheStats.city_cache r) = 0%nat /\
  CacheStats.hit_rate (CacheStats.city_cache r) == 0 /\
  CacheStats.hit_rate (CacheStats.weather_cache r) == 1#2 /\
  0 <= CacheStats.hit_rate (CacheStats.weather_cache r) /\
  CacheStats.hit_rate (CacheStats.weather_cache r) <= 1 /\
  ~ CacheStats.rate 1 49 * 49 == 1.
Proof.
  intros p r.
  assert (H : CacheStats.hits (CacheStats.city_cache r) = 0%nat) by reflexivity.
  destruct (CacheStatsFacts.stats_report_consistent default_config p)
    as ((Hw0 & Hw1) & _ & _ & Hc & _).
  split; [exact H | split; [exact (Hc H) |]].
  split; [vm_compute; reflexivity |].
  split; [exact Hw0 | split; [exact Hw1 |]].
  vm_compute. discriminate.
Defined.

(** A payload with the marker whose second fragment holds an integer of
    5000 digits: the decoding ends with the [ValueError] that [json.loads]
    raises on that fragment, not with the decode error of the payload. *)
Lemma marked_payload_never_decode_error_witness :
  let payload := js "{'a':1}" ++ long_integer_object in
  contains concat_pattern payload = true /\
  json_loads_examples payload = Raise (JSONDecodeError payload) /\
  fst (decode_arguments json_loads_examples payload) = Raise ValueError /\
  is_decode_error ValueError = false /\
  ((exists part, In part (payload :: split_json_parts payload) /\
                 json_loads_examples part = Raise ValueError) \/
   type_or_value_error ValueError).
Proof.
  intros payload.
  assert (H : contains concat_pattern payload = true)
    by (vm_compute; reflexivity).
  assert (R : fst (decode_arguments json_loads_examples payload)
              = Raise ValueError) by (vm_compute; reflexivity).
  split; [exact H | split; [vm_compute; reflexivity | split; [exact R |]]].
  exact (DispatcherExtras.marked_payload_never_decode_error
           json_loads_examples payload H R).
Defined.

(** The text between two objects stays with the first fragment. *)
Lemma fragments_open_with_brace_witness :
  let payload := js "{'a':1}x{'b':2}" in
  split_json_parts payload = [js "{'a':1}x"; js "{'b':2}"] /\
  Forall (fun part => opens_brace part = true) (tl (split_json_parts payload)) /\
  payload = js "{'a':1}x" ++ join "" [js "{'b':2}"].
Proof.
  intros payload.
  assert (H : split_json_parts payload = [js "{'a':1}x"; js "{'b':2}"])
    by reflexivity.
  split; [exact H |].
  destruct (DispatcherExtras.fragments_open_with_brace payload) as (Hall & Hjoin).
  split; [exact Hall | exact (Hjoin _ _ H)].
Defined.

(** Three objects in one payload: the repair succeeds and merges them. *)
Lemma brace_led_repair_succeeds_witness :
  let payload := js "{'a':1}{'b':2}{'c':3}" in
  let e := JSONDecodeError payload in
  (forall s v, opens_brace s = true -> json_loads_examples s = Ok v ->
               exists d, v = VDict d) /\
  opens_brace payload = true /\
  json_loads_examples payload = Raise e /\
  is_decode_error e = true /\
  contains concat_pattern payload = true /\
  (forall part e', In part (split_json_parts payload) ->
     json_loads_examples part = Raise e' -> is_decode_error e' = true) /\
  fst (decode_arguments json_loads_examples payload)
    = Ok (Repaired (mkArgDict
            (merge_objects (parsed_objects json_loads_examples
                              (split_json_parts payload))) false)) /\
  merge_objects (parsed_objects json_loads_examples (split_json_parts payload))
    = [("a", VInt 1); ("b", VInt 2); ("c", VInt 3)].
Proof.
  intros payload e.
  assert (H1 : opens_brace payload = true) by reflexivity.
  assert (H2 : json_loads_examples payload = Raise e) by reflexivity.
  assert (H3 : is_decode_error e = true) by reflexivity.
  assert (H4 : contains concat_pattern payload = true) by reflexivity.
  assert (H5 : forall part e', In part (split_json_parts payload) ->
                 json_loads_examples part = Raise e' ->
                 is_decode_error e' = true).
  { intros part e' Hin.
    change (split_json_parts payload)
      with [js "{'a':1}"; js "{'b':2}"; js "{'c':3}"] in Hin.
    destruct Hin as [<-|[<-|[<-|[]]]]; discriminate. }
  split; [exact json_loads_examples_objects |].
  split; [exact H1 | split; [exact H2 | split; [exact H3 | split; [exact H4 |
    split; [exact H5 |]]]]].
  split; [| reflexivity].
  exact (proj1 (DispatcherExtras.brace_led_repair_succeeds json_loads_examples
                  payload json_loads_examples_objects H1 H2 H3 H4) H5).
Defined.

(** A registered capability that answers. *)
Lemma dispatch_success_witness :
  let call := mkCall "get_time" (js "{'a':1}") in
  let item := mkItem answering WAIT in
  let a := Loaded (VDict [("a", VInt 1)]) in
  let r := Some (mkResponse REQLLM (Some "done") None) in
  get_function sample_registry (name call) = Some item /\
  type item <> OTHER_TOOL_TYPE /\
  decode_arguments json_loads_examples (arguments call) = (Ok a, []) /\
  kwargs a = Ok [("a", VInt 1)] /\
  func item (passed_conn tt item) [("a", VInt 1)] = Ok r /\
  handle_llm_function_call json_loads_examples sample_registry tt call =
    (Ok r,
     [(INFO, Received call); (INFO, RawArguments (arguments call));
      (DEBUG, Calling "get_time" a)]).
Proof.
  intros call item a r.
  assert (H1 : get_function sample_registry (name call) = Some item)
    by reflexivity.
  assert (H2 : type item <> OTHER_TOOL_TYPE) by discriminate.
  assert (H3 : decode_arguments json_loads_examples (arguments call)
               = (Ok a, [])) by reflexivity.
  assert (H4 : kwargs a = Ok [("a", VInt 1)]) by reflexivity.
  assert (H5 : func item (passed_conn tt item) [("a", VInt 1)] = Ok r)
    by reflexivity.
  split; [exact H1 | split; [exact H2 | split; [exact H3 |
    split; [exact H4 | split; [exact H5 |]]]]].
  exact (@DispatcherExtras.dispatch_success unit json_loads_examples
           sample_registry tt call item a [] [("a", VInt 1)] r
           H1 H2 H3 H4 H5).
Defined.

(** A registered capability of another tool type is answered as if the name
    were unknown, after its arguments were decoded. *)
Lemma unsupported_type_not_found_witness :
  let call := mkCall "mcp_tool" (js "{'a':1}") in
  let item := mkItem answering OTHER_TOOL_TYPE in
  let a := Loaded (VDict [("a", VInt 1)]) in
  get_function other_registry (name call) = Some item /\
  type item = OTHER_TOOL_TYPE /\
  decode_arguments json_loads_examples (arguments call) = (Ok a, []) /\
  handle_llm_function_call json_loads_examples other_registry tt call =
    (Ok (Some not_found_response),
     [(INFO, Received call); (INFO, RawArguments (arguments call));
      (DEBUG, Calling "mcp_tool" a)]).
Proof.
  intros call item a.
  assert (H1 : get_function other_registry (name call) = Some item)
    by reflexivity.
  assert (H2 : type item = OTHER_TOOL_TYPE) by reflexivity.
  assert (H3 : decode_arguments json_loads_examples (arguments call)
               = (Ok a, [])) by reflexivity.
  split; [exact H1 | split; [exact H2 | split; [exact H3 |]]].
  exact (@DispatcherExtras.unsupported_type_not_found unit json_loads_examples
           other_registry tt call item a [] H1 H2 H3).
Defined.

(** Without [plugin_loader] among the names the descriptions stay as they
    are; with it, names and parameter schemas stay. *)
Lemma modify_plugin_loader_frame_witness :
  list_mem "plugin_loader" ["get_time"] = false /\
  modify_plugin_loader_des ["get_time"] sample_descriptions
    = sample_descriptions /\
  map desc_name
    (modify_plugin_loader_des ["plugin_loader"; "get_time"] sample_descriptions)
    = map desc_name sample_descriptions.
Proof.
  assert (H : list_mem "plugin_loader" ["get_time"] = false) by reflexivity.
  split; [exact H |].
  split.
  - exact (proj1 (proj2 (proj2 (proj2
      (RegistryExtras.modify_plugin_loader_frame ["get_time"]
         sample_descriptions)))) H).
  - exact (proj1 (RegistryExtras.modify_plugin_loader_frame
                    ["plugin_loader"; "get_time"] sample_descriptions)).
Defined.

(** The first lookup of Paris asks the service; the second, an hour later
    and with the service gone, is answered from the cache. *)
Lemma city_lookup_read_through_witness :
  let p := init pyvalue in
  let first := fetch_city_info_cached lookup_known years_1_to_9999
                 default_config (clock_h0 1) (clock_h0 2) "Paris" "key" "host" p in
  let second := fetch_city_info_cached lookup_offline years_1_to_9999
                  default_config (clock_h1 3601) (clock_h1 3602) "Paris" "key"
                  "host" (pool_after first) in
  fst (get_city_info (clock_h0 1) "Paris" p) = None /\
  set_city_info_returns years_1_to_9999 default_config (clock_h0 2) = true /\
  evictions (_stats (pool_after first)) = evictions (_stats p) /\
  time_time (clock_h1 3601)
    <= time_time (clock_h0 2) + city_cache_ttl default_config /\
  returned first = VDict paris /\
  requested first = [lookup_url "Paris" "key" "host"] /\
  returned second = VDict paris /\
  requested second = [].
Proof.
  intros p first second.
  assert (H1 : fst (get_city_info (clock_h0 1) "Paris" p) = None)
    by reflexivity.
  assert (H2 : lookup_known (lookup_url "Paris" "key" "host")
               = Ok (VDict [("code", VStr "200");
                            ("location", VList [VDict paris])]))
    by reflexivity.
  assert (H3 : get "location" [("code", VStr "200");
                               ("location", VList [VDict paris])]
               = Some (VList [VDict paris])) by reflexivity.
  assert (H4 : py_truthy (VDict paris) = true) by reflexivity.
  assert (Hok : set_city_info_returns years_1_to_9999 default_config
                  (clock_h0 2) = true) by reflexivity.
  assert (H5 : evictions (_stats (pool_after first)) = evictions (_stats p))
    by reflexivity.
  assert (H6 : time_time (clock_h1 3601)
               <= time_time (clock_h0 2) + city_cache_ttl default_config)
    by (vm_compute; discriminate).
  split; [exact H1 | split; [exact Hok | split; [exact H5 | split; [exact H6 |]]]].
  exact (@WeatherPluginFacts.city_lookup_read_through lookup_known
           lookup_offline years_1_to_9999 years_1_to_9999 default_config
           (clock_h0 1) (clock_h0 2) (clock_h1 3601) (clock_h1 3602)
           "Paris" "key" "host" p
           _ (VDict paris) [] H1 H2 H3 H4 Hok H5 H6).
Defined.

(** A city that the service does not know is asked for again. *)
Lemma city_lookup_failure_not_cached_witness :
  let p := init pyvalue in
  let first := fetch_city_info_cached lookup_unknown years_1_to_9999
                 default_config (clock_h0 1) (clock_h0 2) "Atlantis" "key"
                 "host" p in
  let second := fetch_city_info_cached lookup_unknown years_1_to_9999
                  default_config (clock_h0 3) (clock_h0 4) "Atlantis" "key"
                  "host" (pool_after first) in
  set_city_info_returns years_1_to_9999 default_config (clock_h0 2) = true /\
  py_truthy (returned first) = false /\
  pool_after first = snd (get_city_info (clock_h0 1) "Atlantis" p) /\
  requested first = [lookup_url "Atlantis" "key" "host"] /\
  requested second = [lookup_url "Atlantis" "key" "host"].
Proof.
  intros p first second.
  assert (Hok : set_city_info_returns years_1_to_9999 default_config
                  (clock_h0 2) = true) by reflexivity.
  assert (H : py_truthy (returned first) = false) by reflexivity.
  split; [exact Hok | split; [exact H |]].
  exact (@WeatherPluginFacts.city_lookup_failure_not_cached lookup_unknown
           lookup_unknown years_1_to_9999 years_1_to_9999 default_config
           (clock_h0 1) (clock_h0 2) (clock_h0 3) (clock_h0 4)
           "Atlantis" "key" "host" p Hok H).
Defined.

(** With a city TTL of a million million seconds the expiry of the entry
    lies beyond the year 9999: the first lookup of Paris returns [None]
    although the service answered, and the second, with the service gone,
    returns the city from the cache. *)
Lemma city_lookup_stored_despite_failure_witness :
  let p := init pyvalue in
  let first := fetch_city_info_cached lookup_known years_1_to_9999
                 config_long_city_ttl (clock_h0 1) (clock_h0 2) "Paris" "key"
                 "host" p in
  let second := fetch_city_info_cached lookup_offline years_1_to_9999
                  config_long_city_ttl (clock_h0 3) (clock_h0 4) "Paris" "key"
                  "host" (pool_after first) in
  fst (get_city_info (clock_h0 1) "Paris" p) = None /\
  set_city_info_returns years_1_to_9999 config_long_city_ttl (clock_h0 2)
    = false /\
  evictions (_stats (pool_after first)) = evictions (_stats p) /\
  time_time (clock_h0 3)
    <= time_time (clock_h0 2) + city_cache_ttl config_long_city_ttl /\
  returned first = VNone /\
  requested first = [lookup_url "Paris" "key" "host"] /\
  returned second = VDict paris /\
  requested second = [].
Proof.
  intros p first second.
  assert (H1 : fst (get_city_info (clock_h0 1) "Paris" p) = None)
    by reflexivity.
  assert (H2 : lookup_known (lookup_url "Paris" "key" "host")
               = Ok (VDict [("code", VStr "200");
                            ("location", VList [VDict paris])]))
    by reflexivity.
  assert (H3 : get "location" [("code", VStr "200");
                               ("location", VList [VDict paris])]
               = Some (VList [VDict paris])) by reflexivity.
  assert (H4 : py_truthy (VDict paris) = true) by reflexivity.
  assert (Hok : set_city_info_returns years_1_to_9999 config_long_city_ttl
                  (clock_h0 2) = false) by reflexivity.
  assert (H5 : evictions (_stats (pool_after first)) = evictions (_stats p))
    by reflexivity.
  assert (H6 : time_time (clock_h0 3)
               <= time_time (clock_h0 2) + city_cache_ttl config_long_city_ttl)
    by (vm_compute; discriminate).
  split; [exact H1 | split; [exact Hok | split; [exact H5 | split; [exact H6 |]]]].
  destruct (@WeatherPluginFacts.city_lookup_stored_despite_failure lookup_known
              lookup_offline years_1_to_9999 years_1_to_9999
              config_long_city_ttl (clock_h0 1) (clock_h0 2) (clock_h0 3)
              (clock_h0 4) "Paris" "key" "host" p
              _ (VDict paris) [] H1 H2 H3 H4 Hok H5 H6)
    as (R1 & R2 & _ & R3 & R4).
  split; [exact R1 | split; [exact R2 | split; [exact R3 | exact R4]]].
Defined.

(** A forced refresh on an empty pool leaves the request counters at
    zero; a call that is not forced counts a miss. *)
Lemma weather_fetch_request_count_witness :
  exists r r',
    fetch_and_parse_weather_cached page_online repr_unused years_1_to_9999
      default_config (clock_h0 1) (clock_h0 2) (VDict paris) (init pyvalue)
      true = Ok r /\
    fetch_and_parse_weather_cached page_online repr_unused years_1_to_9999
      default_config (clock_h0 1) (clock_h0 2) (VDict paris) (init pyvalue)
      false = Ok r' /\
    (weather_hits (_stats (pool_after r))
     + weather_misses (_stats (pool_after r)) = 0)%nat /\
    (weather_hits (_stats (pool_after r'))
     + weather_misses (_stats (pool_after r')) = 1)%nat.
Proof.
  assert (E : exists r,
    fetch_and_parse_weather_cached page_online repr_unused years_1_to_9999
      default_config (clock_h0 1) (clock_h0 2) (VDict paris) (init pyvalue)
      true = Ok r)
    by (eexists; reflexivity).
  assert (E' : exists r',
    fetch_and_parse_weather_cached page_online repr_unused years_1_to_9999
      default_config (clock_h0 1) (clock_h0 2) (VDict paris) (init pyvalue)
      false = Ok r')
    by (eexists; reflexivity).
  destruct E as (r & E). destruct E' as (r' & E').
  exists r, r'.
  split; [exact E | split; [exact E' |]].
  split.
  - exact (proj1 (WeatherPluginFacts.weather_fetch_request_count
                    _ _ _ _ _ _ _ _ _ E)).
  - exact (proj1 (WeatherPluginFacts.weather_fetch_request_count
                    _ _ _ _ _ _ _ _ _ E')).
Defined.

(** A forced refresh for one Paris at 2 s; half an hour later the request
    for the other Paris, with the page gone, returns the weather of the
    first. *)
Lemma weather_fetch_read_through_witness :
  let link := VStr "https://www.qweather.com/weather/paris-2988507.html" in
  exists r1,
    fetch_and_parse_weather_cached page_online repr_unused years_1_to_9999
      default_config (clock_h0 1) (clock_h0 2) (VDict paris) (init pyvalue)
      true = Ok r1 /\
    city_name (VDict paris) = Ok (VStr "Paris") /\
    city_name (VDict paris_texas) = Ok (VStr "Paris") /\
    get "fxLink" paris = Some link /\
    set_weather_data_returns years_1_to_9999 default_config (clock_h0 2)
      = true /\
    evictions (_stats (pool_after r1)) = evictions (_stats (init pyvalue)) /\
    strftime_hour (clock_h0 1800) = strftime_hour (clock_h0 2) /\
    time_time (clock_h0 1800)
      <= time_time (clock_h0 2) + weather_cache_ttl default_config /\
    returned r1 = cached_data sunny /\
    requested r1 = [format_value repr_unused link] /\
    exists r2,
      fetch_and_parse_weather_cached page_offline repr_unused years_1_to_9999
        default_config (clock_h0 1800) (clock_h0 1801) (VDict paris_texas)
        (pool_after r1) false = Ok r2 /\
      returned r2 = cached_data sunny /\ requested r2 = [].
Proof.
  intros link.
  assert (E : exists r1,
    fetch_and_parse_weather_cached page_online repr_unused years_1_to_9999
      default_config (clock_h0 1) (clock_h0 2) (VDict paris) (init pyvalue)
      true = Ok r1 /\
    evictions (_stats (pool_after r1)) = evictions (_stats (init pyvalue)))
    by (eexists; split; reflexivity).
  destruct E as (r1 & E & Hev).
  exists r1.
  assert (H1 : city_name (VDict paris) = Ok (VStr "Paris")) by reflexivity.
  assert (H2 : city_name (VDict paris_texas) = Ok (VStr "Paris")) by reflexivity.
  assert (H3 : get "fxLink" paris = Some link) by reflexivity.
  assert (H4 : page_online link = Ok sunny) by reflexivity.
  assert (H5 : py_truthy (fst (fst (fst sunny))) = true) by reflexivity.
  assert (Hok : set_weather_data_returns years_1_to_9999 default_config
                  (clock_h0 2) = true) by reflexivity.
  assert (H6 : strftime_hour (clock_h0 1800) = strftime_hour (clock_h0 2))
    by reflexivity.
  assert (H7 : time_time (clock_h0 1800)
               <= time_time (clock_h0 2) + weather_cache_ttl default_config)
    by (vm_compute; discriminate).
  split; [exact E | split; [exact H1 | split; [exact H2 | split; [exact H3 |
    split; [exact Hok | split; [exact Hev | split; [exact H6 |
    split; [exact H7 |]]]]]]]].
  exact (@WeatherPluginFacts.weather_fetch_read_through page_online
           page_offline repr_unused years_1_to_9999 years_1_to_9999
           default_config (clock_h0 1) (clock_h0 2)
           (clock_h0 1800) (clock_h0 1801) paris paris_texas (VStr "Paris")
           link sunny (init pyvalue) true r1
           H1 H2 H3 H4 H5 Hok (or_introl eq_refl) E Hev H6 H7).
Defined.

End ExtrasExamples.
